(** * IPAM space router: address allocation and consistency engine

    A shallow embedding of [engine/app/routers/space.py]: the CIDR
    allocator of [create_block_reservation] and
    [create_multi_block_reservation], the overlap checks of
    [create_block] and [create_block_vnet], the reservation deletion of
    [delete_block_reservations], and the name handling of
    [create_space], [update_space] and [delete_block].

    The handlers use [netaddr.IPNetwork] and [netaddr.IPSet]; module
    [netaddr] below models the part of that library the router calls. *)

From Stdlib Require Import ZArith Lia Bool Ascii String List.
From stdpp Require Import base decidable option list strings sorting.
Import ListNotations.

Local Open Scope Z_scope.

(** ** Python exceptions and fallible computations *)

(** The exceptions the handlers can end with: the [HTTPException] they
    raise themselves, and the built-in exceptions that escape from the
    interpreter or from netaddr. *)
Inductive exn : Type :=
| HTTPException (status_code : Z) (detail : string)
| ValueError
| TypeError
| IndexError
| AddrFormatError.

Definition result (A : Type) : Type := exn + A.

Definition Ok {A} (a : A) : result A := inr a.
Definition Raise {A} (e : exn) : result A := inl e.

Definition rbind {A B} (c : result A) (k : A → result B) : result B :=
  match c with
  | inl e => inl e
  | inr a => k a
  end.

Notation "x <~ c ;; k" := (rbind c (fun x => k))
  (at level 100, c at next level, right associativity).

(** [max(xs)]: [ValueError] on an empty sequence. *)
Definition py_max (xs : list Z) : result Z :=
  match xs with
  | [] => Raise ValueError
  | x :: xs' => Ok (fold_left Z.max xs' x)
  end.

Module netaddr.

(** IPv4 only: 32-bit addresses. *)
Definition width : Z := 32.

(** [IPNetwork]: an address and a prefix length. [value] keeps the
    host bits it was written with; [first] masks them. *)
Record IPNetwork : Type := mkNet { value : Z; prefixlen : Z }.

#[global] Instance IPNetwork_eq_dec : EqDecision IPNetwork.
Proof. solve_decision. Defined.

(** What parsing accepts: [AddrFormatError] otherwise. *)
Definition wf_net (n : IPNetwork) : Prop :=
  0 <= value n < 2 ^ width ∧ 0 <= prefixlen n <= width.

Definition size (n : IPNetwork) : Z := 2 ^ (width - prefixlen n).
Definition first (n : IPNetwork) : Z := value n / size n * size n.
Definition last (n : IPNetwork) : Z := first n + size n - 1.

(** [other in self] for two networks ([IPNetwork.__contains__]). *)
Definition net_in (other self : IPNetwork) : bool :=
  let shiftwidth := width - prefixlen self in
  (Z.shiftr (value self) shiftwidth =? Z.shiftr (value other) shiftwidth)
  && (prefixlen self <=? prefixlen other).

(** Address [a] lies in the range of [n]. *)
Definition net_mem (n : IPNetwork) (a : Z) : bool :=
  (first n <=? a) && (a <=? last n).

(** Range relations between two networks. *)
Definition subset_of (m n : IPNetwork) : Prop :=
  first n <= first m ∧ last m <= last n.
Definition disjoint (m n : IPNetwork) : Prop :=
  last m < first n ∨ last n < first m.

(** [IPSet]: a set of addresses, kept as the binary trie of its
    maximal aligned blocks. A trie at level [k] with base [b] stands
    for a subset of [[b, b + 2^k)]; [Node lo hi] splits the range in
    halves. *)
Inductive IPSet : Type :=
| Empty
| Full
| Node (lo hi : IPSet).

(** Keeps the trie compact, as netaddr merges adjacent CIDRs. *)
Definition node (lo hi : IPSet) : IPSet :=
  match lo, hi with
  | Empty, Empty => Empty
  | Full, Full => Full
  | _, _ => Node lo hi
  end.

(** The trie of the range [[fst, fst + 2^h)] below level [k]. *)
Fixpoint of_range (k : nat) (base : Z) (h : nat) (fst : Z) : IPSet :=
  if (k <=? h)%nat then Full else
  match k with
  | O => Full
  | S k' =>
      if fst <? base + 2 ^ Z.of_nat k'
      then Node (of_range k' base h fst) Empty
      else Node Empty (of_range k' (base + 2 ^ Z.of_nat k') h fst)
  end.

Definition of_net (n : IPNetwork) : IPSet :=
  of_range 32 0 (Z.to_nat (width - prefixlen n)) (first n).

Fixpoint union (s t : IPSet) : IPSet :=
  match s, t with
  | Empty, _ => t
  | _, Empty => s
  | Full, _ => Full
  | _, Full => Full
  | Node a b, Node c d => node (union a c) (union b d)
  end.

Fixpoint compl (s : IPSet) : IPSet :=
  match s with
  | Empty => Full
  | Full => Empty
  | Node a b => Node (compl a) (compl b)
  end.

(** [s ^ t] *)
Fixpoint xor (s t : IPSet) : IPSet :=
  match s, t with
  | Empty, _ => t
  | _, Empty => s
  | Full, _ => compl t
  | _, Full => compl s
  | Node a b, Node c d => node (xor a c) (xor b d)
  end.

(** [s & t] *)
Fixpoint inter (s t : IPSet) : IPSet :=
  match s, t with
  | Empty, _ => Empty
  | _, Empty => Empty
  | Full, _ => t
  | _, Full => s
  | Node a b, Node c d => node (inter a c) (inter b d)
  end.

(** [IPSet(iterable)] *)
Definition mkIPSet (l : list IPNetwork) : IPSet :=
  fold_left (fun s n => union s (of_net n)) l Empty.

Fixpoint cidrs (k : nat) (base : Z) (s : IPSet) {struct s} : list IPNetwork :=
  match s with
  | Empty => []
  | Full => [mkNet base (width - Z.of_nat k)]
  | Node lo hi =>
      match k with
      | O => []
      | S k' => cidrs k' base lo ++ cidrs k' (base + 2 ^ Z.of_nat k') hi
      end
  end.

(** [s.iter_cidrs()]: the maximal blocks, in ascending order. *)
Definition iter_cidrs (s : IPSet) : list IPNetwork := cidrs 32 0 s.

(** [bool(s)]: the set holds at least one CIDR. *)
Definition nonempty (s : IPSet) : bool :=
  match iter_cidrs s with [] => false | _ => true end.

(** [n.subnet(p)], as a list. *)
Definition subnet (n : IPNetwork) (p : Z) : result (list IPNetwork) :=
  if negb (prefixlen n <=? p) then Ok []
  else if width <? p then Raise AddrFormatError
  else
    let count := 2 ^ (width - prefixlen n) / 2 ^ (width - p) in
    Ok (map (fun i => mkNet (first n + 2 ^ (width - p) * Z.of_nat i) p)
            (seq 0 (Z.to_nat count))).

(** Address [a] belongs to the trie [s] at level [k], base [b]. *)
Fixpoint mem (k : nat) (base : Z) (s : IPSet) (a : Z) {struct s} : bool :=
  match s with
  | Empty => false
  | Full => (base <=? a) && (a <? base + 2 ^ Z.of_nat k)
  | Node lo hi =>
      match k with
      | O => false
      | S k' =>
          if a <? base + 2 ^ Z.of_nat k'
          then mem k' base lo a
          else mem k' (base + 2 ^ Z.of_nat k') hi a
      end
  end.

Definition contains (s : IPSet) (a : Z) : bool := mem 32 0 s a.

(** Tries no deeper than their level. *)
Fixpoint wf (k : nat) (s : IPSet) {struct s} : Prop :=
  match s with
  | Empty | Full => True
  | Node lo hi =>
      match k with
      | O => False
      | S k' => wf k' lo ∧ wf k' hi
      end
  end.

(** The sets over 32-bit addresses. *)
Definition valid (s : IPSet) : Prop := wf 32 s.

(** Compact tries: no node has two empty or two full halves, so the
    blocks [cidrs] lists are the maximal ones. *)
Fixpoint canonical (s : IPSet) : Prop :=
  match s with
  | Empty | Full => True
  | Node lo hi => canonical lo ∧ canonical hi ∧ node lo hi = Node lo hi
  end.

End netaddr.

Abbreviation IPNetwork := netaddr.IPNetwork.
Abbreviation IPSet := netaddr.IPSet.

(** ** Strings *)

(** [c.lower()] on one ASCII character. *)
Definition lower_ascii (c : ascii) : ascii :=
  let n := nat_of_ascii c in
  if ((65 <=? n)%nat && (n <=? 90)%nat)%bool then ascii_of_nat (n + 32) else c.

(** [s.lower()] on a string of ASCII characters, where it folds the
    letters [A] to [Z] and nothing else. Python folds letters beyond
    ASCII as well: a statement that rests on two names being found
    different up to case takes the names to be ASCII ([is_ascii]). *)
Fixpoint lower (s : string) : string :=
  match s with
  | EmptyString => EmptyString
  | String c s' => String (lower_ascii c) (lower s')
  end.

Definition is_alnum (c : ascii) : bool :=
  let n := nat_of_ascii c in
  (((48 <=? n)%nat && (n <=? 57)%nat)
   || ((65 <=? n)%nat && (n <=? 90)%nat)
   || ((97 <=? n)%nat && (n <=? 122)%nat))%bool.

Fixpoint string_forall (p : ascii → bool) (s : string) : bool :=
  match s with
  | EmptyString => true
  | String c s' => (p c && string_forall p s')%bool
  end.

(** The string holds ASCII characters only. *)
Definition is_ascii (s : string) : bool :=
  string_forall (fun c => (nat_of_ascii c <? 128)%nat) s.

(** What [$] leaves to match: the string without one final newline. *)
Fixpoint chomp (s : string) : string :=
  match s with
  | EmptyString => EmptyString
  | String c EmptyString => if decide (c = ascii_of_nat 10) then EmptyString else s
  | String c s' => String c (chomp s')
  end.

(** [re.match("^(<class>){1,n}$", s)] *)
Definition re_match_class (p : ascii → bool) (n : nat) (s : string) : bool :=
  let body := chomp s in
  ((1 <=? String.length body)%nat && (String.length body <=? n)%nat
   && string_forall p body)%bool.

(** ** Data model: the documents of the store *)

Record Reservation : Type := mkReservation {
  r_id : string;
  r_cidr : IPNetwork;
  r_userId : string;
  r_createdOn : Z;
  r_status : string
}.

Record VNet : Type := mkVNet {
  v_id : string;
  v_active : bool
}.

Record Block : Type := mkBlock {
  b_name : string;
  b_cidr : IPNetwork;
  b_vnets : list VNet;
  b_resv : list Reservation
}.

Record Space : Type := mkSpace {
  s_id : string;
  s_tenant_id : string;
  s_name : string;
  s_desc : string;
  s_blocks : list Block
}.

(** One row of the external network directory ([arg_query] with
    [argquery.VNET], after [vnet_fixup]). *)
Record VNetInfo : Type := mkVNetInfo {
  vi_id : string;
  vi_prefixes : list IPNetwork
}.

(** What a request carries besides its body: the caller's role and
    identity from the token, the directory listing fetched for this
    request, and the identifier and clock reading a creation draws. *)
Record Ctx : Type := mkCtx {
  is_admin : bool;
  tenant_id : string;
  user_name : string;
  creator_id : string;
  vnet_list : list VNetInfo;
  fresh_id : string;
  now : Z
}.

Definition set_b_vnets (f : list VNet → list VNet) (b : Block) : Block :=
  mkBlock (b_name b) (b_cidr b) (f (b_vnets b)) (b_resv b).
Definition set_b_resv (f : list Reservation → list Reservation) (b : Block) : Block :=
  mkBlock (b_name b) (b_cidr b) (b_vnets b) (f (b_resv b)).
Definition set_s_blocks (f : list Block → list Block) (s : Space) : Space :=
  mkSpace (s_id s) (s_tenant_id s) (s_name s) (s_desc s) (f (s_blocks s)).
Definition set_s_name (n : string) (s : Space) : Space :=
  mkSpace (s_id s) (s_tenant_id s) n (s_desc s) (s_blocks s).
Definition set_s_desc (d : string) (s : Space) : Space :=
  mkSpace (s_id s) (s_tenant_id s) (s_name s) d (s_blocks s).

(** ** The store and the handler monad *)

(** The space documents of one tenant. *)
Abbreviation Store := (list Space).

(** A handler reads and writes the store and ends with a value or an
    exception; the store it leaves is part of the outcome either way.
    The [cosmos_retry] decorator re-runs a handler whose conditioned
    write lost a race; a handler is modelled running alone, where the
    first attempt writes. Where a handler formats a list of names into
    the [detail] of its exception, the model keeps the fixed text. *)
Definition M (A : Type) : Type := Store → result A * Store.

Definition ret {A} (a : A) : M A := fun st => (Ok a, st).
Definition raise {A} (e : exn) : M A := fun st => (Raise e, st).
Definition lift {A} (r : result A) : M A := fun st => (r, st).
Definition bind {A B} (c : M A) (k : A → M B) : M B :=
  fun st =>
    match c st with
    | (inl e, st') => (inl e, st')
    | (inr a, st') => k a st'
    end.

Notation "x <- c ;; k" := (bind c (fun x => k))
  (at level 100, c at next level, right associativity).
Notation "c ;;; k" := (bind c (fun _ => k))
  (at level 100, right associativity).

(** [if cond: raise e] *)
Definition raise_if (cond : bool) (e : exn) : M unit :=
  if cond then raise e else ret tt.

(** Modelled from the spec: [cosmos_query] of
    [app.routers.common.helper], the fetch of the Aggregate Store
    Adapter; here the query for every space of the tenant. *)
Definition cosmos_query_all : M (list Space) := fun st => (Ok st, st).

(** The spaces of a name, whatever the case, in the order of the
    store. *)
Definition spaces_named (space : string) (st : Store) : list Space :=
  filter (fun s => lower (s_name s) = lower space) st.

(** Modelled from the spec: [cosmos_query] with the condition
    [LOWER(c.name) = LOWER(space)], the adapter's [FetchByName]. *)
Definition cosmos_query (space : string) : M (list Space) :=
  fun st => (Ok (spaces_named space st), st).

(** Modelled from the spec: [cosmos_replace] of the helper module, the
    adapter's version-conditioned replace. A handler runs alone between
    its fetch and its write, so the version it read is the stored one
    and the document with the same id is replaced. *)
Definition cosmos_replace (old new : Space) : M unit :=
  fun st =>
    match list_find (fun s => s_id s = s_id old) st with
    | Some (i, _) => (Ok tt, <[i := new]> st)
    | None => (Raise (HTTPException 500 "Resource not found."), st)
    end.

(** Modelled from the spec: [cosmos_upsert] of the helper module:
    replace the document with this id, or add it. *)
Definition cosmos_upsert (new : Space) : M unit :=
  fun st =>
    match list_find (fun s => s_id s = s_id new) st with
    | Some (i, _) => (Ok tt, <[i := new]> st)
    | None => (Ok tt, st ++ [new])
    end.

(** Modelled from the spec: [cosmos_delete] of the helper module, the
    adapter's [Delete]. *)
Definition cosmos_delete (old : Space) : M unit :=
  fun st =>
    match list_find (fun s => s_id s = s_id old) st with
    | Some (i, _) => (Ok tt, delete i st)
    | None => (Raise (HTTPException 500 "Resource not found."), st)
    end.

(** [try: target_space = copy.deepcopy(space_query[0])
     except: raise HTTPException(400, "Invalid space name.")] *)
Definition first_space (space_query : list Space) : M Space :=
  match space_query with
  | s :: _ => ret s
  | [] => raise (HTTPException 400 "Invalid space name.")
  end.

(** [next((x for x in blocks if x['name'].lower() == block.lower()), None)],
    with the position of the block found: the handlers update that
    very block of [target_space] in place. *)
Definition find_block (blocks : list Block) (block : string) : option (nat * Block) :=
  list_find (fun x => lower (b_name x) = lower block) blocks.

Definition target_block_of (target_space : Space) (block : string) : M (nat * Block) :=
  match find_block (s_blocks target_space) block with
  | Some ib => ret ib
  | None => raise (HTTPException 400 "Invalid block name.")
  end.

(** [next((x for x in vnet_list if x['id'].lower() == id.lower()), None)] *)
Definition find_vnet (vnets : list VNetInfo) (id : string) : option VNetInfo :=
  snd <$> list_find (fun x => lower (vi_id x) = lower id) vnets.

(** [list(filter(lambda x: IPNetwork(x) in IPNetwork(cidr), prefixes))] *)
Definition prefixes_in (cidr : IPNetwork) (prefixes : list IPNetwork) : list IPNetwork :=
  filter (fun x => netaddr.net_in x cidr = true) prefixes.

(** ** Request bodies *)

Module BlockCIDRReq.
Record t : Type := mk { size : Z; reverse_search : bool; smallest_cidr : bool }.
End BlockCIDRReq.

Module SpaceCIDRReq.
Record t : Type := mk {
  blocks : list string; size : Z; reverse_search : bool; smallest_cidr : bool
}.
End SpaceCIDRReq.

Module SpaceReq.
Record t : Type := mk { name : string; desc : string }.
End SpaceReq.

Module BlockReq.
Record t : Type := mk { name : string; cidr : IPNetwork }.
End BlockReq.

(** One operation of a JSON patch. *)
Module PatchOp.
Record t : Type := mk { op : string; path : string; value : string }.
End PatchOp.

(** The reservation a creation returns, with the [space] and [block]
    keys added to it after the write. *)
Record ReservationOut : Type := mkReservationOut {
  o_resv : Reservation;
  o_space : string;
  o_block : string
}.

(** ** The CIDR allocator

    The two reservation handlers carry the same allocation code; it is
    written once here, under the names of its local variables. *)

(** [block_all_cidrs]: the prefixes of the block's vnets that lie in
    the block, then the CIDRs of its reservations. *)
Definition block_all_cidrs (vnets : list VNetInfo) (target_block : Block) : list IPNetwork :=
  flat_map (fun v =>
              match find_vnet vnets (v_id v) with
              | Some target => prefixes_in (b_cidr target_block) (vi_prefixes target)
              | None => []
              end) (b_vnets target_block)
  ++ map r_cidr (b_resv target_block).

(** [block_set ^ reserved_set] *)
Definition available_set (target_block : Block) (all_cidrs : list IPNetwork) : IPSet :=
  let block_set := netaddr.mkIPSet [b_cidr target_block] in
  let reserved_set := netaddr.mkIPSet all_cidrs in
  netaddr.xor block_set reserved_set.

(** [l[available_slicer]]: [slice(None, None, -1)] or [slice(None)]. *)
Definition available_slicer {A} (reverse_search : bool) (l : list A) : list A :=
  if reverse_search then rev l else l.

(** [l[next_selector]]: [l[-1]] or [l[0]]. *)
Definition next_selector {A} (reverse_search : bool) (l : list A) : result A :=
  match (if reverse_search then last l else head l) with
  | Some x => Ok x
  | None => Raise IndexError
  end.

(** The choice of [available_block] in a free set. *)
Definition find_available_block (size : Z) (reverse_search smallest_cidr : bool)
    (available : IPSet) : result (option IPNetwork) :=
  if smallest_cidr then
    let cidr_list :=
      filter (fun x => netaddr.prefixlen x <= size)
             (available_slicer reverse_search (netaddr.iter_cidrs available)) in
    min_mask <~ py_max (map netaddr.prefixlen cidr_list) ;;
    Ok (head (filter (fun network => netaddr.prefixlen network = min_mask) cidr_list))
  else
    Ok (head (filter (fun net => netaddr.prefixlen net <= size)
                     (available_slicer reverse_search (netaddr.iter_cidrs available)))).

(** [list(available_block.subnet(size))[next_selector]] *)
Definition next_cidr (available_block : IPNetwork) (size : Z) (reverse_search : bool)
    : result IPNetwork :=
  subnets <~ netaddr.subnet available_block size ;;
  next_selector reverse_search subnets.

Definition new_cidr (ctx : Ctx) (cidr : IPNetwork) : Reservation :=
  mkReservation (fresh_id ctx) cidr (creator_id ctx) (now ctx) "wait".

(** The allocation of [create_block_reservation], from the block to
    the CIDR. *)
Definition allocate (vnets : list VNetInfo) (target_block : Block)
    (size : Z) (reverse_search smallest_cidr : bool) : result IPNetwork :=
  let available := available_set target_block (block_all_cidrs vnets target_block) in
  available_block <~ find_available_block size reverse_search smallest_cidr available ;;
  match available_block with
  | None => Raise (HTTPException 500 "Network of requested size unavailable in target block.")
  | Some net => next_cidr net size reverse_search
  end.

(** ** Handlers *)

(** POST /spaces/{space}/blocks/{block}/reservations *)
Definition create_block_reservation (ctx : Ctx) (space block : string)
    (req : BlockCIDRReq.t) : M ReservationOut :=
  space_query <- cosmos_query space ;;
  target_space <- first_space space_query ;;
  tb <- target_block_of target_space block ;;
  let '(i, target_block) := tb in
  cidr <- lift (allocate (vnet_list ctx) target_block (BlockCIDRReq.size req)
                  (BlockCIDRReq.reverse_search req) (BlockCIDRReq.smallest_cidr req)) ;;
  let resv := new_cidr ctx cidr in
  let target_space' :=
    set_s_blocks (alter (set_b_resv (fun l => l ++ [resv])) i) target_space in
  cosmos_replace target_space target_space' ;;;
  ret (mkReservationOut resv (s_name target_space) (b_name target_block)).

(** The loop state of [create_multi_block_reservation]:
    [available_block], [available_block_name], and the block
    [target_block] was last bound to, with its position. *)
Record MultiState : Type := mkMultiState {
  ms_available_block : option IPNetwork;
  ms_available_block_name : option string;
  ms_target_block : option (nat * Block)
}.

(** One turn of [for block in req.blocks]. *)
Definition multi_step (ctx : Ctx) (target_space : Space) (req : SpaceCIDRReq.t)
    (st : MultiState) (block : string) : result MultiState :=
  match ms_available_block st with
  | Some _ => Ok st
  | None =>
      match find_block (s_blocks target_space) block with
      | None => Raise TypeError
      | Some (i, target_block) =>
          let available :=
            available_set target_block (block_all_cidrs (vnet_list ctx) target_block) in
          available_block <~ find_available_block (SpaceCIDRReq.size req)
            (SpaceCIDRReq.reverse_search req) (SpaceCIDRReq.smallest_cidr req) available ;;
          Ok (mkMultiState available_block
                (match available_block with Some _ => Some block | None => None end)
                (Some (i, target_block)))
      end
  end.

Fixpoint multi_loop (ctx : Ctx) (target_space : Space) (req : SpaceCIDRReq.t)
    (st : MultiState) (blocks : list string) : result MultiState :=
  match blocks with
  | [] => Ok st
  | block :: rest =>
      st' <~ multi_step ctx target_space req st block ;;
      multi_loop ctx target_space req st' rest
  end.

(** POST /spaces/{space}/reservations *)
Definition create_multi_block_reservation (ctx : Ctx) (space : string)
    (req : SpaceCIDRReq.t) : M ReservationOut :=
  space_query <- cosmos_query space ;;
  target_space <- first_space space_query ;;
  let space_blocks := map b_name (s_blocks target_space) in
  let invalid_blocks := filter (fun b => b ∉ space_blocks) (SpaceCIDRReq.blocks req) in
  raise_if (negb (bool_decide (invalid_blocks = [])))
    (HTTPException 400 "Invalid Block(s) in Block list.") ;;;
  st <- lift (multi_loop ctx target_space req (mkMultiState None None None)
                (SpaceCIDRReq.blocks req)) ;;
  match ms_available_block st, ms_target_block st, ms_available_block_name st with
  | Some available_block, Some (i, _), Some available_block_name =>
      cidr <- lift (next_cidr available_block (SpaceCIDRReq.size req)
                      (SpaceCIDRReq.reverse_search req)) ;;
      let resv := new_cidr ctx cidr in
      let target_space' :=
        set_s_blocks (alter (set_b_resv (fun l => l ++ [resv])) i) target_space in
      cosmos_replace target_space target_space' ;;;
      ret (mkReservationOut resv (s_name target_space) available_block_name)
  | _, _, _ =>
      raise (HTTPException 500 "Network of requested size unavailable in target block(s).")
  end.

Definition admin_only (ctx : Ctx) (detail : string) : M unit :=
  raise_if (negb (is_admin ctx)) (HTTPException 403 detail).

(** POST /spaces *)
Definition create_space (ctx : Ctx) (space : SpaceReq.t) : M Space :=
  admin_only ctx "This API is admin restricted." ;;;
  space_query <- cosmos_query_all ;;
  let duplicate :=
    list_find (fun x => lower (s_name x) = lower (SpaceReq.name space)) space_query in
  raise_if (bool_decide (is_Some duplicate))
    (HTTPException 400 "Space name must be unique.") ;;;
  let new_space :=
    mkSpace (fresh_id ctx) (tenant_id ctx) (SpaceReq.name space) (SpaceReq.desc space) [] in
  cosmos_upsert new_space ;;;
  ret new_space.

(** The [valid] pattern of an allowed operation. *)
Definition valid_name (v : string) : bool := re_match_class is_alnum 16 v.

Definition is_desc_char (c : ascii) : bool :=
  let n := nat_of_ascii c in
  (is_alnum c || (n =? 32)%nat || (n =? 46)%nat || (n =? 95)%nat || (n =? 45)%nat)%bool.

Definition valid_desc (v : string) : bool := re_match_class is_desc_char 32 v.

(** [scrub_space_patch]: keeps the [replace] operations on [/name] and
    [/desc] whose value matches, drops every other operation, and
    rejects the patch on a value that does not match. *)
Fixpoint scrub_space_patch (patch : list PatchOp.t) : result (list PatchOp.t) :=
  match patch with
  | [] => Ok []
  | item :: rest =>
      if decide (PatchOp.op item = "replace" ∧ PatchOp.path item = "/name") then
        if valid_name (PatchOp.value item)
        then (scrubbed <~ scrub_space_patch rest ;; Ok (item :: scrubbed))
        else Raise (HTTPException 400
               "space name can be a maximum of 16 characters and may contain alphanumerics.")
      else if decide (PatchOp.op item = "replace" ∧ PatchOp.path item = "/desc") then
        if valid_desc (PatchOp.value item)
        then (scrubbed <~ scrub_space_patch rest ;; Ok (item :: scrubbed))
        else Raise (HTTPException 400
               "space description can be a maximum of 32 characters and may contain alphanumerics, spaces, underscores, hypens, and periods.")
      else scrub_space_patch rest
  end.

(** [scrubbed_patch.apply(target_space)] on a scrubbed patch. *)
Definition apply_op (s : Space) (item : PatchOp.t) : Space :=
  if decide (PatchOp.path item = "/name") then set_s_name (PatchOp.value item) s
  else if decide (PatchOp.path item = "/desc") then set_s_desc (PatchOp.value item) s
  else s.

Definition apply_patch (patch : list PatchOp.t) (s : Space) : Space :=
  fold_left apply_op patch s.

(** PATCH /spaces/{space} *)
Definition update_space (ctx : Ctx) (space : string) (updates : list PatchOp.t) : M Space :=
  admin_only ctx "This API is admin restricted." ;;;
  space_query <- cosmos_query space ;;
  target_space <- first_space space_query ;;
  scrubbed_patch <- lift (scrub_space_patch updates) ;;
  let update_space := apply_patch scrubbed_patch target_space in
  cosmos_replace target_space update_space ;;;
  ret update_space.

(** DELETE /spaces/{space} *)
Definition delete_space (ctx : Ctx) (space : string) (force : bool) : M unit :=
  admin_only ctx "This API is admin restricted." ;;;
  space_query <- cosmos_query space ;;
  target_space <- first_space space_query ;;
  raise_if (negb force && (0 <? length (s_blocks target_space))%nat)
    (HTTPException 400 "Cannot delete space while it contains blocks.") ;;;
  cosmos_delete target_space.

(** POST /spaces/{space}/blocks *)
Definition create_block (ctx : Ctx) (space : string) (block : BlockReq.t) : M Block :=
  admin_only ctx "This API is admin restricted." ;;;
  space_query <- cosmos_query space ;;
  target_space <- first_space space_query ;;
  let block_cidrs := netaddr.mkIPSet (map b_cidr (s_blocks target_space)) in
  let overlap :=
    netaddr.nonempty (netaddr.inter (netaddr.mkIPSet [BlockReq.cidr block]) block_cidrs) in
  raise_if overlap (HTTPException 400 "New block cannot overlap existing blocks.") ;;;
  let new_block := mkBlock (BlockReq.name block) (BlockReq.cidr block) [] [] in
  let target_space' := set_s_blocks (fun l => l ++ [new_block]) target_space in
  cosmos_replace target_space target_space' ;;;
  ret new_block.

(** [del l[index]], where [index] comes from a [next(..., None)]. *)
Definition del_index {A} (index : option (nat * A)) (l : list A) : result (list A) :=
  match index with
  | Some (i, _) => Ok (delete i l)
  | None => Raise TypeError
  end.

(** DELETE /spaces/{space}/blocks/{block} *)
Definition delete_block (ctx : Ctx) (space block : string) (force : bool) : M unit :=
  admin_only ctx "This API is admin restricted." ;;;
  space_query <- cosmos_query space ;;
  target_space <- first_space space_query ;;
  tb <- target_block_of target_space block ;;
  let target_block := snd tb in
  raise_if (negb force &&
            ((0 <? length (b_vnets target_block))%nat
             || (0 <? length (b_resv target_block))%nat))
    (HTTPException 400 "Cannot delete block while it contains vNets or reservations.") ;;;
  let index := list_find (fun item => b_name item = block) (s_blocks target_space) in
  blocks' <- lift (del_index index (s_blocks target_space)) ;;
  cosmos_replace target_space (set_s_blocks (fun _ => blocks') target_space).

(** POST /spaces/{space}/blocks/{block}/networks *)
Definition create_block_vnet (ctx : Ctx) (space block : string) (vnet : VNet) : M Block :=
  admin_only ctx "API restricted to admins." ;;;
  space_query <- cosmos_query space ;;
  target_space <- first_space space_query ;;
  tb <- target_block_of target_space block ;;
  let '(i, target_block) := tb in
  raise_if (bool_decide (v_id vnet ∈ map v_id (b_vnets target_block)))
    (HTTPException 400 "vNet already exists in block.") ;;;
  match find_vnet (vnet_list ctx) (v_id vnet) with
  | None => raise (HTTPException 400 "Invalid vNet ID.")
  | Some target_vnet =>
      match head (prefixes_in (b_cidr target_block) (vi_prefixes target_vnet)) with
      | None => raise (HTTPException 400 "vNet CIDR not within block CIDR.")
      | Some target_cidr =>
          let block_vnet_cidrs :=
            flat_map (fun v =>
                        match find_vnet (vnet_list ctx) (v_id v) with
                        | Some target => prefixes_in (b_cidr target_block) (vi_prefixes target)
                        | None => []
                        end) (b_vnets target_block) in
          let cidr_overlap :=
            netaddr.inter (netaddr.mkIPSet block_vnet_cidrs) (netaddr.mkIPSet [target_cidr]) in
          raise_if (netaddr.nonempty cidr_overlap)
            (HTTPException 400
               "Block already contains vNet(s) within the CIDR range of target vNet.") ;;;
          let attach := set_b_vnets (fun l => l ++ [mkVNet (v_id vnet) true]) in
          let target_space' := set_s_blocks (alter attach i) target_space in
          cosmos_replace target_space target_space' ;;;
          ret (attach target_block)
      end
  end.

(** The accumulators of the loop of [update_block_vnets]. *)
Record VNetsAcc : Type := mkVNetsAcc {
  invalid_vnets : list string;
  outside_block_cidr : list string;
  vnet_ipset : IPSet;
  vnet_overlap : bool
}.

Definition vnets_step (ctx : Ctx) (target_block : Block) (acc : VNetsAcc) (v : string)
    : VNetsAcc :=
  match find_vnet (vnet_list ctx) v with
  | None =>
      mkVNetsAcc (invalid_vnets acc ++ [v]) (outside_block_cidr acc)
                 (vnet_ipset acc) (vnet_overlap acc)
  | Some target_vnet =>
      match head (prefixes_in (b_cidr target_block) (vi_prefixes target_vnet)) with
      | None =>
          mkVNetsAcc (invalid_vnets acc) (outside_block_cidr acc ++ [v])
                     (vnet_ipset acc) (vnet_overlap acc)
      | Some target_cidr =>
          if netaddr.nonempty (netaddr.inter (vnet_ipset acc) (netaddr.mkIPSet [target_cidr]))
          then mkVNetsAcc (invalid_vnets acc) (outside_block_cidr acc) (vnet_ipset acc) true
          else mkVNetsAcc (invalid_vnets acc) (outside_block_cidr acc)
                 (netaddr.union (vnet_ipset acc) (netaddr.of_net target_cidr))
                 (vnet_overlap acc)
      end
  end.

(** [len(set(l)) == len(l)] *)
Definition unique_ids (l : list string) : bool :=
  bool_decide (length (remove_dups l) = length l).

(** PUT /spaces/{space}/blocks/{block}/networks *)
Definition update_block_vnets (ctx : Ctx) (space block : string) (vnets : list string)
    : M (list VNet) :=
  admin_only ctx "API restricted to admins." ;;;
  space_query <- cosmos_query space ;;
  target_space <- first_space space_query ;;
  tb <- target_block_of target_space block ;;
  let '(i, target_block) := tb in
  raise_if (negb (unique_ids vnets)) (HTTPException 400 "List contains duplicate vNets.") ;;;
  let acc :=
    fold_left (vnets_step ctx target_block) vnets (mkVNetsAcc [] [] netaddr.Empty false) in
  raise_if (vnet_overlap acc) (HTTPException 400 "vNet list contains overlapping CIDRs.") ;;;
  raise_if (0 <? length (outside_block_cidr acc))%nat
    (HTTPException 400 "vNet CIDR(s) not within Block CIDR.") ;;;
  raise_if (0 <? length (invalid_vnets acc))%nat (HTTPException 400 "Invalid vNet ID(s).") ;;;
  let new_vnet_list := map (fun vnet => mkVNet vnet true) vnets in
  let target_space' :=
    set_s_blocks (alter (set_b_vnets (fun _ => new_vnet_list)) i) target_space in
  cosmos_replace target_space target_space' ;;;
  ret new_vnet_list.

(** [for id in req: index = next(...); del l[index]] *)
Fixpoint del_each {A} (key : A → string) (req : list string) (l : list A) : result (list A) :=
  match req with
  | [] => Ok l
  | id :: rest =>
      l' <~ del_index (list_find (fun item => key item = id) l) l ;;
      del_each key rest l'
  end.

(** DELETE /spaces/{space}/blocks/{block}/networks *)
Definition delete_block_vnets (ctx : Ctx) (space block : string) (req : list string)
    : M unit :=
  admin_only ctx "API restricted to admins." ;;;
  space_query <- cosmos_query space ;;
  target_space <- first_space space_query ;;
  tb <- target_block_of target_space block ;;
  let '(i, target_block) := tb in
  raise_if (negb (unique_ids req))
    (HTTPException 400 "List contains one or more duplicate vNet id's.") ;;;
  let current_vnets := map v_id (b_vnets target_block) in
  let ids_exist := forallb (fun elem => bool_decide (elem ∈ current_vnets)) req in
  raise_if (negb ids_exist)
    (HTTPException 400 "List contains one or more invalid vNet id's.") ;;;
  vnets' <- lift (del_each v_id req (b_vnets target_block)) ;;
  let target_space' :=
    set_s_blocks (alter (set_b_vnets (fun _ => vnets')) i) target_space in
  cosmos_replace target_space target_space'.

(** DELETE /spaces/{space}/blocks/{block}/reservations *)
Definition delete_block_reservations (ctx : Ctx) (space block : string) (req : list string)
    : M unit :=
  space_query <- cosmos_query space ;;
  target_space <- first_space space_query ;;
  tb <- target_block_of target_space block ;;
  let '(i, target_block) := tb in
  raise_if (negb (unique_ids req))
    (HTTPException 400 "List contains one or more duplicate id's.") ;;;
  let current_reservations := map r_id (b_resv target_block) in
  let ids_exist := forallb (fun elem => bool_decide (elem ∈ current_reservations)) req in
  raise_if (negb ids_exist)
    (HTTPException 400 "List contains one or more invalid id's.") ;;;
  let not_owned :=
    filter (fun x => r_id x ∈ req ∧ r_userId x ≠ user_name ctx) (b_resv target_block) in
  raise_if (negb (is_admin ctx) && (0 <? length not_owned)%nat)
    (HTTPException 403 "Users can only delete their own reservations.") ;;;
  resv' <- lift (del_each r_id req (b_resv target_block)) ;;
  let target_space' :=
    set_s_blocks (alter (set_b_resv (fun _ => resv')) i) target_space in
  cosmos_replace target_space target_space'.

(** ** The mutating requests of the router *)

Inductive Request : Type :=
| CreateSpace (space : SpaceReq.t)
| UpdateSpace (space : string) (updates : list PatchOp.t)
| DeleteSpace (space : string) (force : bool)
| CreateBlock (space : string) (block : BlockReq.t)
| CreateMultiBlockReservation (space : string) (req : SpaceCIDRReq.t)
| DeleteBlock (space block : string) (force : bool)
| CreateBlockVNet (space block : string) (vnet : VNet)
| UpdateBlockVNets (space block : string) (vnets : list string)
| DeleteBlockVNets (space block : string) (req : list string)
| CreateBlockReservation (space block : string) (req : BlockCIDRReq.t)
| DeleteBlockReservations (space block : string) (req : list string).

(** The store a request leaves, or the exception it ends with. *)
Definition handle (ctx : Ctx) (r : Request) (st : Store) : result unit * Store :=
  let forget {A} (c : M A) : result unit * Store :=
    match c st with
    | (inl e, st') => (inl e, st')
    | (inr _, st') => (inr tt, st')
    end in
  match r with
  | CreateSpace space => forget (create_space ctx space)
  | UpdateSpace space updates => forget (update_space ctx space updates)
  | DeleteSpace space force => forget (delete_space ctx space force)
  | CreateBlock space block => forget (create_block ctx space block)
  | CreateMultiBlockReservation space req =>
      forget (create_multi_block_reservation ctx space req)
  | DeleteBlock space block force => forget (delete_block ctx space block force)
  | CreateBlockVNet space block vnet => forget (create_block_vnet ctx space block vnet)
  | UpdateBlockVNets space block vnets => forget (update_block_vnets ctx space block vnets)
  | DeleteBlockVNets space block req => forget (delete_block_vnets ctx space block req)
  | CreateBlockReservation space block req =>
      forget (create_block_reservation ctx space block req)
  | DeleteBlockReservations space block req =>
      forget (delete_block_reservations ctx space block req)
  end.

(** ** Invariants of the store *)

(** Space names are unique within the tenant, whatever the case. *)
Definition space_names_unique (st : Store) : Prop :=
  NoDup (map (fun s => lower (s_name s)) st).

(** Block names are unique within their space, whatever the case. *)
Definition block_names_unique (s : Space) : Prop :=
  NoDup (map (fun b => lower (b_name b)) (s_blocks s)).

(** No two networks of the list overlap. *)
Fixpoint pairwise_disjoint (l : list IPNetwork) : Prop :=
  match l with
  | [] => True
  | c :: l' => Forall (netaddr.disjoint c) l' ∧ pairwise_disjoint l'
  end.

(** Sibling blocks never overlap. *)
Definition blocks_disjoint (st : Store) : Prop :=
  Forall (fun s => pairwise_disjoint (map b_cidr (s_blocks s))) st.

(** Document ids are unique in the store. *)
Definition ids_unique (st : Store) : Prop := NoDup (map s_id st).

(** The CIDR a request brings is a well-formed IPv4 network. *)
Definition request_wf (r : Request) : Prop :=
  match r with
  | CreateBlock _ block => netaddr.wf_net (BlockReq.cidr block)
  | _ => True
  end.

(** The write of a handler that succeeds: the document [target] it
    fetched from [st] is replaced by [new], and [st'] is the result. *)
Definition replaces (st st' : Store) (target new : Space) : Prop :=
  target ∈ st ∧ s_id new = s_id target
  ∧ cosmos_replace target new st = (Ok tt, st').

(** [new] is [target] with the content of its blocks changed: same
    name, same blocks at the same ranges. *)
Definition same_ranges (target new : Space) : Prop :=
  s_name new = s_name target
  ∧ map b_cidr (s_blocks new) = map b_cidr (s_blocks target).

(** Every stored CIDR is a well-formed IPv4 network. *)
Definition blocks_wf (st : Store) : Prop :=
  Forall (fun s => Forall netaddr.wf_net (map b_cidr (s_blocks s))) st.

(** ** Scenario data *)

(** The address [a.b.c.d]. *)
Definition ipv4 (a b c d : Z) : Z := ((a * 256 + b) * 256 + c) * 256 + d.

(** The network [a.b.c.d/p]. *)
Definition cidr (a b c d p : Z) : IPNetwork := netaddr.mkNet (ipv4 a b c d) p.

Definition admin_ctx : Ctx := mkCtx true "t1" "root" "root" [] "res9" 1700000000.
Definition alice_ctx : Ctx := mkCtx false "t1" "alice" "alice" [] "res9" 1700000000.

(** The block [10.0.0.0/24] with the given reservations, the space
    that holds it, and the store of that one space. *)
Definition core_block (resv : list Reservation) : Block :=
  mkBlock "core" (cidr 10 0 0 0 24) [] resv.

Definition prod_space (resv : list Reservation) : Space :=
  mkSpace "id1" "t1" "prod" "production" [core_block resv].

Definition one_block_store (resv : list Reservation) : Store := [prod_space resv].

Definition resv_quarter : Reservation :=
  mkReservation "res1" (cidr 10 0 0 0 26) "alice" 1600000000 "wait".

(** A space of two blocks: [core], wholly reserved, and [edge], free. *)
Definition resv_whole : Reservation :=
  mkReservation "res0" (cidr 10 0 0 0 24) "alice" 1600000000 "wait".

Definition edge_block : Block := mkBlock "edge" (cidr 10 0 1 0 24) [] [].

Definition two_block_store : Store :=
  [mkSpace "id1" "t1" "prod" "production" [core_block [resv_whole]; edge_block]].

(** The block [10.0.0.0/24] with a reservation of alice and one of
    bob. *)
Definition resv_alice : Reservation :=
  mkReservation "resA" (cidr 10 0 0 0 26) "alice" 1600000000 "wait".

Definition resv_bob : Reservation :=
  mkReservation "resB" (cidr 10 0 0 64 26) "bob" 1600000001 "wait".

Definition shared_store : Store := one_block_store [resv_alice; resv_bob].

(** The store of [core] after the block [edge] is added to it. *)
Definition grown_store : Store :=
  [mkSpace "id1" "t1" "prod" "production" [core_block []; edge_block]].

(** A space with the blocks [CORE] and [core], both empty: two names
    that differ in case only, which [create_block] accepts. *)
Definition upper_block : Block := mkBlock "CORE" (cidr 10 0 1 0 24) [] [].

Definition twin_store : Store :=
  [mkSpace "id1" "t1" "prod" "production" [upper_block; core_block []]].

(** Two spaces, [prod] and [test]. *)
Definition two_space_store : Store :=
  [prod_space []; mkSpace "id2" "t1" "test" "testing" []].

(** The block [10.0.0.0/16] with the network [vnet1] attached, and a
    directory in which [vnet1] has the prefix [10.0.1.0/24] and [vnet2]
    the prefixes [10.0.0.0/24] and [10.0.1.0/24]. *)
Definition wide_block : Block :=
  mkBlock "wide" (cidr 10 0 0 0 16) [mkVNet "vnet1" true] [].

Definition wide_store : Store := [mkSpace "id1" "t1" "prod" "production" [wide_block]].

Definition vnet1_info : VNetInfo := mkVNetInfo "vnet1" [cidr 10 0 1 0 24].
Definition vnet2_info : VNetInfo := mkVNetInfo "vnet2" [cidr 10 0 0 0 24; cidr 10 0 1 0 24].
Definition vnet3_info : VNetInfo := mkVNetInfo "vnet3" [cidr 10 0 2 0 24].

Definition vnet_ctx : Ctx :=
  mkCtx true "t1" "root" "root" [vnet1_info; vnet2_info; vnet3_info] "res9" 1700000000.

(** ** Shapes of computations *)

(** [c] leaves the store as it found it, whatever it returns. *)
Definition reads {A} (c : M A) : Prop :=
  ∀ st r st', c st = (r, st') → st' = st.

(** [c] leaves the store as it found it when it raises. *)
Definition fails_clean {A} (c : M A) : Prop :=
  ∀ st e st', c st = (inl e, st') → st' = st.

(** [c] never raises. *)
Definition total {A} (c : M A) : Prop :=
  ∀ st e st', c st ≠ (inl e, st').

(** A block whose consumed set (the clipped prefixes of its networks
    and the CIDRs of its reservations) is made of well-formed networks
    inside the block's range, no two of which overlap. *)
Definition block_consistent (vnets : list VNetInfo) (b : Block) : Prop :=
  netaddr.wf_net (b_cidr b)
  ∧ Forall netaddr.wf_net (block_all_cidrs vnets b)
  ∧ Forall (fun c => netaddr.subset_of c (b_cidr b)) (block_all_cidrs vnets b)
  ∧ pairwise_disjoint (block_all_cidrs vnets b).

(** A block whose consumed set is made of well-formed networks inside
    the block's range. *)
Definition consumed_in_block (vnets : list VNetInfo) (b : Block) : Prop :=
  netaddr.wf_net (b_cidr b)
  ∧ Forall netaddr.wf_net (block_all_cidrs vnets b)
  ∧ Forall (fun c => netaddr.subset_of c (b_cidr b)) (block_all_cidrs vnets b).

(** The requests whose handler starts with [if not is_admin: raise
    HTTPException(status_code=403, ...)]. *)
Definition admin_restricted (r : Request) : bool :=
  match r with
  | CreateSpace _ | UpdateSpace _ _ | DeleteSpace _ _ | CreateBlock _ _
  | DeleteBlock _ _ _ | CreateBlockVNet _ _ _ | UpdateBlockVNets _ _ _
  | DeleteBlockVNets _ _ _ => true
  | CreateMultiBlockReservation _ _ | CreateBlockReservation _ _ _
  | DeleteBlockReservations _ _ _ => false
  end.

(** The [space] path parameter of a request. *)
Definition request_space (r : Request) : option string :=
  match r with
  | CreateSpace _ => None
  | UpdateSpace space _ | DeleteSpace space _ | CreateBlock space _
  | CreateMultiBlockReservation space _ | DeleteBlock space _ _
  | CreateBlockVNet space _ _ | UpdateBlockVNets space _ _ | DeleteBlockVNets space _ _
  | CreateBlockReservation space _ _ | DeleteBlockReservations space _ _ => Some space
  end.

(** The [block] path parameter of a request. *)
Definition request_block (r : Request) : option string :=
  match r with
  | DeleteBlock _ block _ | CreateBlockVNet _ block _ | UpdateBlockVNets _ block _
  | DeleteBlockVNets _ block _ | CreateBlockReservation _ block _
  | DeleteBlockReservations _ block _ => Some block
  | _ => None
  end.

(** The prefix [update_block_vnets] and [create_block_vnet] check for
    the network [v]: of the directory entry of that id, whatever the
    case, the first prefix that lies in the block. *)
Definition target_cidr_of (ctx : Ctx) (target_block : Block) (v : string)
    : option IPNetwork :=
  match find_vnet (vnet_list ctx) v with
  | Some target_vnet => head (prefixes_in (b_cidr target_block) (vi_prefixes target_vnet))
  | None => None
  end.

(** ** Read handlers *)

(** GET /spaces/{space}/blocks/{block}/reservations *)
Definition get_block_reservations (ctx : Ctx) (space block : string)
    : M (list Reservation) :=
  space_query <- cosmos_query space ;;
  target_space <- first_space space_query ;;
  tb <- target_block_of target_space block ;;
  let target_block := snd tb in
  if negb (is_admin ctx)
  then ret (filter (fun x => r_userId x = user_name ctx) (b_resv target_block))
  else ret (b_resv target_block).

(** The first loop of the handler of [/available]: the entries of the
    directory that have a prefix in the block, with the prefixes that
    lie in the block. *)
Definition narrow_vnets (cidr : IPNetwork) (vnet_list : list VNetInfo) : list VNetInfo :=
  omap (fun vnet =>
          match prefixes_in cidr (vi_prefixes vnet) with
          | [] => None
          | valid => Some (mkVNetInfo (vi_id vnet) valid)
          end) vnet_list.

(** One turn of the innermost loop of the handler of [/available]:
    [vnet_index = next(..., None)], then [if vnet_index: del
    available_vnets[vnet_index]], where the index [0] counts as
    false. *)
Definition drop_assigned_step (space block : string) (space_iter : Space)
    (block_iter : Block) (available_vnets : list VNetInfo) (vnet_iter : VNet)
    : list VNetInfo :=
  if decide (s_name space_iter ≠ space ∧ b_name block_iter ≠ block) then
    match list_find (fun item => vi_id item = v_id vnet_iter) available_vnets with
    | Some (S vnet_index, _) => delete (S vnet_index) available_vnets
    | _ => available_vnets
    end
  else available_vnets.

(** The three nested loops over the spaces, their blocks and the
    networks of the blocks. *)
Definition drop_assigned (space block : string) (space_query : list Space)
    (available_vnets : list VNetInfo) : list VNetInfo :=
  fold_left (fun available space_iter =>
    fold_left (fun available block_iter =>
      fold_left (drop_assigned_step space block space_iter block_iter)
                (b_vnets block_iter) available)
      (s_blocks space_iter) available)
    space_query available_vnets.

(** GET /spaces/{space}/blocks/{block}/available, the first of the two
    handlers named [available_block_vnets]: the entries, or their ids
    when [expand] is unset. *)
Definition available_block_vnets (ctx : Ctx) (space block : string) (expand : bool)
    : M (list VNetInfo + list string) :=
  admin_only ctx "API restricted to admins." ;;;
  space_query <- cosmos_query_all ;;
  match list_find (fun x => lower (s_name x) = lower space) space_query with
  | None => raise (HTTPException 400 "Invalid space name.")
  | Some (_, target_space) =>
      tb <- target_block_of target_space block ;;
      let target_block := snd tb in
      let available_vnets :=
        drop_assigned space block space_query
          (narrow_vnets (b_cidr target_block) (vnet_list ctx)) in
      if expand then ret (inl available_vnets)
      else ret (inr (map vi_id available_vnets))
  end.

(** ** The admin router

    Handlers of [admin.py] over the admin documents of the tenant:
    [cosmos_query("SELECT * FROM c WHERE c.type = 'admin'", tenant_id)]
    gives them in the order of the store. Identifiers are held as the
    strings the store keeps. Two handlers that write are not embedded,
    [create_admin] and [add_exclusions]: they compare and merge the
    strings of the store with values of the classes [Admin] and
    [Subscription] of [app.models], which is not among the sources. *)

Module admin.

Record Admin : Type := mkAdmin {
  a_name : string;
  a_email : string;
  a_id : string
}.

Record AdminDoc : Type := mkAdminDoc {
  d_id : string;
  d_tenant_id : string;
  d_admins : list Admin;
  d_exclusions : list string
}.

Abbreviation Store := (list AdminDoc).

(** What an admin request carries besides its body: the caller's role,
    the tenant, the identifier a new document draws, the subscriptions
    [arg_query] lists for this request, and the order in which
    [list(set(l))] gives the members of [l]. *)
Record Ctx : Type := mkCtx {
  is_admin : bool;
  tenant_id : string;
  fresh_id : string;
  subscription_list : list string;
  list_of_set : list string → list string
}.

Definition set_d_admins (f : list Admin → list Admin) (d : AdminDoc) : AdminDoc :=
  mkAdminDoc (d_id d) (d_tenant_id d) (f (d_admins d)) (d_exclusions d).
Definition set_d_exclusions (f : list string → list string) (d : AdminDoc) : AdminDoc :=
  mkAdminDoc (d_id d) (d_tenant_id d) (d_admins d) (f (d_exclusions d)).

(** Modelled from the spec: [cosmos_replace] of the helper module, on
    the admin documents. *)
Definition cosmos_replace (old new : AdminDoc) (st : Store) : result unit * Store :=
  match list_find (fun d => d_id d = d_id old) st with
  | Some (i, _) => (Ok tt, <[i := new]> st)
  | None => (Raise (HTTPException 500 "Resource not found."), st)
  end.

(** Modelled from the spec: [cosmos_upsert] of the helper module, on
    the admin documents. *)
Definition cosmos_upsert (new : AdminDoc) (st : Store) : result unit * Store :=
  match list_find (fun d => d_id d = d_id new) st with
  | Some (i, _) => (Ok tt, <[i := new]> st)
  | None => (Ok tt, st ++ [new])
  end.

Definition new_admin_db (ctx : Ctx) (admin_list : list Admin) (exclusion_list : list string)
    (st : Store) : result unit * Store :=
  cosmos_upsert (mkAdminDoc (fresh_id ctx) (tenant_id ctx) admin_list exclusion_list) st.

(** GET /admin/admins *)
Definition get_admins (ctx : Ctx) (st : Store) : result (list Admin) * Store :=
  if negb (is_admin ctx) then (Raise (HTTPException 403 "API restricted to admins."), st)
  else
    match st with
    | admin_data :: _ => (Ok (d_admins admin_data), st)
    | [] => (Ok [], st)
    end.

(** PUT /admin/admins *)
Definition update_admins (ctx : Ctx) (admin_list : list Admin) (st : Store)
    : result unit * Store :=
  if negb (is_admin ctx) then (Raise (HTTPException 403 "API restricted to admins."), st)
  else
    let id_list := map a_id admin_list in
    let unique_admins :=
      bool_decide (length (remove_dups id_list) = length admin_list) in
    if negb unique_admins
    then (Raise (HTTPException 400 "List contains one or more duplicate objectId's."), st)
    else
      match st with
      | [] => new_admin_db ctx admin_list [] st
      | admin_data :: _ =>
          cosmos_replace admin_data (set_d_admins (fun _ => admin_list) admin_data) st
      end.

(** DELETE /admin/admins/{objectId}. The test [admin_query is None]
    never holds of the list a query gives, and [admin_query[0]] raises
    on the empty one. *)
Definition delete_admin (ctx : Ctx) (objectId : string) (st : Store)
    : result unit * Store :=
  if negb (is_admin ctx) then (Raise (HTTPException 403 "API restricted to admins."), st)
  else
    match st with
    | [] => (Raise IndexError, st)
    | admin_data :: _ =>
        match list_find (fun admin => a_id admin = objectId) (d_admins admin_data) with
        | None => (Raise (HTTPException 400 "Invalid admin objectId."), st)
        | Some (admin_index, _) =>
            cosmos_replace admin_data (set_d_admins (delete admin_index) admin_data) st
        end
    end.

(** GET /admin/exclusions *)
Definition get_exclusions (ctx : Ctx) (st : Store) : result (list string) * Store :=
  if negb (is_admin ctx) then (Raise (HTTPException 403 "API restricted to admins."), st)
  else
    match st with
    | admin_data :: _ => (Ok (d_exclusions admin_data), st)
    | [] => (Ok [], st)
    end.

(** PUT /admin/exclusions *)
Definition update_exclusions (ctx : Ctx) (exclusions : list string) (st : Store)
    : result unit * Store :=
  if negb (is_admin ctx) then (Raise (HTTPException 403 "API restricted to admins."), st)
  else
    let invalid_subscriptions :=
      filter (fun x => x ∉ subscription_list ctx) exclusions in
    match invalid_subscriptions with
    | _ :: _ =>
        (Raise (HTTPException 400 "One or more invalid subscriptions id's provided."), st)
    | [] =>
        match st with
        | [] => new_admin_db ctx [] (list_of_set ctx exclusions) st
        | admin_data :: _ =>
            cosmos_replace admin_data
              (set_d_exclusions (fun _ => list_of_set ctx exclusions) admin_data) st
        end
    end.

(** DELETE /admin/exclusions/{subscriptionId} *)
Definition remove_exclusion (ctx : Ctx) (subscriptionId : string) (st : Store)
    : result unit * Store :=
  if negb (is_admin ctx) then (Raise (HTTPException 403 "API restricted to admins."), st)
  else
    match st with
    | [] => (Raise (HTTPException 400 "Subscription id not found."), st)
    | admin_data :: _ =>
        match list_find (fun exclusion => exclusion = subscriptionId)
                (d_exclusions admin_data) with
        | None => (Raise (HTTPException 400 "Invalid subscription id."), st)
        | Some (exclusion_index, _) =>
            cosmos_replace admin_data
              (set_d_exclusions (delete exclusion_index) admin_data) st
        end
    end.

(** The order [list(set(l))] gives is one of the members of [l], each
    once. *)
Definition set_order_ok (ctx : Ctx) : Prop :=
  ∀ l, list_of_set ctx l ≡ₚ remove_dups l.

End admin.

(** An administrator of the admin router, with the subscriptions
    [sub1] and [sub2], and a registry of the admins [ann] and [ben]. *)
Definition registry_ctx : admin.Ctx :=
  admin.mkCtx true "t1" "reg9" ["sub1"; "sub2"] remove_dups.

Definition ann : admin.Admin := admin.mkAdmin "Ann" "ann@example.org" "oid-ann".
Definition ben : admin.Admin := admin.mkAdmin "Ben" "ben@example.org" "oid-ben".

Definition registry : admin.Store := [admin.mkAdminDoc "reg1" "t1" [ann; ben] ["sub1"]].

(** In every admin document the object ids of the admins are distinct
    and no subscription is excluded twice. *)
Definition registry_wf (st : admin.Store) : Prop :=
  Forall (fun d => NoDup (map admin.a_id (admin.d_admins d))
                   ∧ NoDup (admin.d_exclusions d)) st.

(** Within every block, the networks attached have distinct ids. *)
Definition vnet_ids_unique (st : Store) : Prop :=
  Forall (fun s => Forall (fun b => NoDup (map v_id (b_vnets b))) (s_blocks s)) st.

(** * Properties *)

(** Case analysis on the integer comparisons in sight. *)
Ltac zcmp :=
  repeat match goal with
  | |- context [?a <=? ?b] => destruct (Z.leb_spec a b)
  | |- context [?a <? ?b] => destruct (Z.ltb_spec a b)
  | |- context [?a =? ?b] => destruct (Z.eqb_spec a b)
  | H : context [?a <=? ?b] |- _ => destruct (Z.leb_spec a b)
  | H : context [?a <? ?b] |- _ => destruct (Z.ltb_spec a b)
  | H : context [?a =? ?b] |- _ => destruct (Z.eqb_spec a b)
  end;
  cbn [andb orb negb xorb] in *.

(** ** The netaddr model *)

Module netaddr_facts.
Import netaddr.

Lemma pow2_pos (k : nat) : 0 < 2 ^ Z.of_nat k.
Proof. apply Z.pow_pos_nonneg; lia. Qed.

Lemma pow2_S (k : nat) : 2 ^ Z.of_nat (S k) = 2 * 2 ^ Z.of_nat k.
Proof. rewrite Nat2Z.inj_succ, Z.pow_succ_r; lia. Qed.

Lemma pow2_add (a b : nat) : 2 ^ Z.of_nat (a + b) = 2 ^ Z.of_nat a * 2 ^ Z.of_nat b.
Proof. rewrite Nat2Z.inj_add, Z.pow_add_r; lia. Qed.

Lemma mem_Full k b a :
  mem k b Full a = true ↔ b <= a < b + 2 ^ Z.of_nat k.
Proof. cbn [mem]. zcmp; split; intros; try easy; lia. Qed.

Lemma mem_range k : ∀ b s a, mem k b s a = true → b <= a < b + 2 ^ Z.of_nat k.
Proof.
  induction k as [|k IH]; intros b s a H; destruct s; cbn [mem] in H;
    try discriminate; try (apply mem_Full in H; exact H).
  pose proof (pow2_S k). pose proof (pow2_pos k).
  destruct (Z.ltb_spec a (b + 2 ^ Z.of_nat k)); apply IH in H; lia.
Qed.

Lemma mem_node k b lo hi a :
  mem (S k) b (node lo hi) a = mem (S k) b (Node lo hi) a.
Proof.
  pose proof (pow2_S k). pose proof (pow2_pos k).
  destruct lo, hi; cbn [mem node]; try reflexivity.
  - destruct (a <? b + 2 ^ Z.of_nat k); reflexivity.
  - zcmp; (reflexivity || lia).
Qed.

Lemma wf_node k lo hi : wf k lo → wf k hi → wf (S k) (node lo hi).
Proof. destruct lo, hi; cbn [wf node]; tauto. Qed.

Lemma wf_compl k : ∀ s, wf k s → wf k (compl s).
Proof.
  induction k as [|k IH]; intros [] H; cbn [wf compl] in *; try tauto.
  split; apply IH; tauto.
Qed.

Lemma mem_compl k : ∀ b s a, wf k s →
  mem k b (compl s) a = mem k b Full a && negb (mem k b s a).
Proof.
  induction k as [|k IH]; intros b [] a H; cbn [wf compl mem negb] in *;
    try tauto; try (destruct ((_ <=? _) && _); reflexivity).
  pose proof (pow2_S k). pose proof (pow2_pos k). destruct H as [Hl Hh].
  destruct (Z.ltb_spec a (b + 2 ^ Z.of_nat k)); rewrite IH by assumption;
    cbn [mem]; f_equal; zcmp; (reflexivity || lia).
Qed.

Lemma wf_union k : ∀ s t, wf k s → wf k t → wf k (union s t).
Proof.
  induction k as [|k IH]; intros [] [] Hs Ht; cbn [wf union] in *; try tauto.
  apply wf_node; apply IH; tauto.
Qed.

Lemma wf_xor k : ∀ s t, wf k s → wf k t → wf k (xor s t).
Proof.
  induction k as [|k IH]; intros [] [] Hs Ht; cbn [wf xor compl] in *; try tauto.
  - split; apply wf_compl; tauto.
  - split; apply wf_compl; tauto.
  - apply wf_node; apply IH; tauto.
Qed.

Lemma wf_inter k : ∀ s t, wf k s → wf k t → wf k (inter s t).
Proof.
  induction k as [|k IH]; intros [] [] Hs Ht; cbn [wf inter] in *; try tauto.
  apply wf_node; apply IH; tauto.
Qed.

Lemma mem_union k : ∀ b s t a, wf k s → wf k t →
  mem k b (union s t) a = mem k b s a || mem k b t a.
Proof.
  induction k as [|k IH]; intros b [] [] a Hs Ht; cbn [wf union] in *;
    try tauto; rewrite ?orb_false_r; try reflexivity;
    try (cbn [mem]; destruct ((_ <=? _) && _); reflexivity).
  - destruct (mem (S k) b (Node _ _) a) eqn:E; [|destruct (mem _ _ Full _); reflexivity].
    apply mem_range, mem_Full in E. rewrite E. reflexivity.
  - destruct (mem (S k) b (Node _ _) a) eqn:E; [|destruct (mem _ _ Full _); reflexivity].
    apply mem_range, mem_Full in E. rewrite E. reflexivity.
  - rewrite mem_node. cbn [mem]. destruct (a <? _); apply IH; tauto.
Qed.

Lemma mem_xor k : ∀ b s t a, wf k s → wf k t →
  mem k b (xor s t) a = xorb (mem k b s a) (mem k b t a).
Proof.
  induction k as [|k IH]; intros b [] [] a Hs Ht; cbn [wf xor] in *;
    try tauto; rewrite ?xorb_false_r, ?xorb_false_l; try reflexivity;
    try (cbn [compl mem]; destruct ((_ <=? _) && _); reflexivity).
  - change (Node (compl lo) (compl hi)) with (compl (Node lo hi)).
    rewrite mem_compl by exact Ht.
    destruct (mem (S k) b (Node _ _) a) eqn:E; [|destruct (mem _ _ Full _); reflexivity].
    apply mem_range, mem_Full in E. rewrite E. reflexivity.
  - change (Node (compl lo) (compl hi)) with (compl (Node lo hi)).
    rewrite mem_compl by exact Hs.
    destruct (mem (S k) b (Node _ _) a) eqn:E; [|destruct (mem _ _ Full _); reflexivity].
    apply mem_range, mem_Full in E. rewrite E. reflexivity.
  - rewrite mem_node. cbn [mem]. destruct (a <? _); apply IH; tauto.
Qed.

Lemma mem_inter k : ∀ b s t a, wf k s → wf k t →
  mem k b (inter s t) a = mem k b s a && mem k b t a.
Proof.
  induction k as [|k IH]; intros b [] [] a Hs Ht; cbn [wf inter] in *;
    try tauto; rewrite ?andb_false_r; try reflexivity;
    try (cbn [mem]; destruct ((_ <=? _) && _); reflexivity).
  - destruct (mem (S k) b (Node _ _) a) eqn:E; [|rewrite andb_false_r; reflexivity].
    apply mem_range, mem_Full in E. rewrite E. reflexivity.
  - destruct (mem (S k) b (Node _ _) a) eqn:E; [|reflexivity].
    apply mem_range, mem_Full in E. rewrite E. reflexivity.
  - rewrite mem_node. cbn [mem]. destruct (a <? _); apply IH; tauto.
Qed.

Lemma wf_of_range h f : ∀ k b, wf k (of_range k b h f).
Proof.
  induction k as [|k IH]; intros b; cbn [of_range].
  - destruct (0 <=? h)%nat; exact I.
  - destruct (S k <=? h)%nat; [exact I|].
    destruct (f <? _); cbn [wf]; auto.
Qed.

(** [of_range] holds exactly the addresses of the aligned range. *)
Lemma mem_of_range h : ∀ d b q a,
  0 <= q < 2 ^ Z.of_nat d →
  mem (d + h) b (of_range (d + h) b h (b + q * 2 ^ Z.of_nat h)) a
  = (b + q * 2 ^ Z.of_nat h <=? a) && (a <? b + q * 2 ^ Z.of_nat h + 2 ^ Z.of_nat h).
Proof.
  pose proof (pow2_pos h) as Hh.
  induction d as [|d IH]; intros b q a Hq.
  - change (2 ^ Z.of_nat 0) with 1 in Hq. assert (q = 0) as -> by lia.
    cbn [Nat.add]. replace (b + 0 * 2 ^ Z.of_nat h) with b by lia.
    destruct h; cbn [of_range Nat.leb]; [reflexivity|].
    rewrite Nat.leb_refl. reflexivity.
  - cbn [Nat.add of_range].
    destruct (Nat.leb_spec (S (d + h)) h); [lia|].
    pose proof (pow2_add d h) as Hdh. pose proof (pow2_pos d) as Hd.
    pose proof (pow2_S d) as HS.
    destruct (Z.ltb_spec (b + q * 2 ^ Z.of_nat h) (b + 2 ^ Z.of_nat (d + h))) as [Hlt|Hge].
    + assert (q < 2 ^ Z.of_nat d) by nia.
      cbn [mem]. destruct (Z.ltb_spec a (b + 2 ^ Z.of_nat (d + h))).
      * apply IH. lia.
      * zcmp; try reflexivity; nia.
    + assert (2 ^ Z.of_nat d <= q) by nia.
      cbn [mem]. destruct (Z.ltb_spec a (b + 2 ^ Z.of_nat (d + h))).
      * zcmp; try reflexivity; nia.
      * replace (b + q * 2 ^ Z.of_nat h)
          with (b + 2 ^ Z.of_nat (d + h) + (q - 2 ^ Z.of_nat d) * 2 ^ Z.of_nat h) by nia.
        apply IH. lia.
Qed.

Lemma size_pos n : 0 <= prefixlen n <= width → 0 < size n.
Proof. intros H. unfold size. apply Z.pow_pos_nonneg; lia. Qed.

Lemma first_le_value n : 0 <= prefixlen n <= width → first n <= value n < first n + size n.
Proof.
  intros H. pose proof (size_pos n H) as Hs. unfold first.
  pose proof (Z.div_mod (value n) (size n)) as Hd.
  pose proof (Z.mod_pos_bound (value n) (size n) Hs). lia.
Qed.

Lemma first_le_last n : 0 <= prefixlen n <= width → first n <= last n.
Proof. intros H. pose proof (size_pos n H). unfold last. lia. Qed.

Lemma net_mem_iff n a : net_mem n a = true ↔ first n <= a <= last n.
Proof. unfold net_mem. zcmp; split; intros; try easy; lia. Qed.

Lemma valid_of_net n : valid (of_net n).
Proof. apply wf_of_range. Qed.

Lemma valid_union s t : valid s → valid t → valid (union s t).
Proof. apply wf_union. Qed.

Lemma valid_xor s t : valid s → valid t → valid (xor s t).
Proof. apply wf_xor. Qed.

Lemma valid_inter s t : valid s → valid t → valid (inter s t).
Proof. apply wf_inter. Qed.

Lemma contains_union s t a : valid s → valid t →
  contains (union s t) a = contains s a || contains t a.
Proof. apply mem_union. Qed.

Lemma contains_xor s t a : valid s → valid t →
  contains (xor s t) a = xorb (contains s a) (contains t a).
Proof. apply mem_xor. Qed.

Lemma contains_inter s t a : valid s → valid t →
  contains (inter s t) a = contains s a && contains t a.
Proof. apply mem_inter. Qed.

(** [IPSet([n])] holds the addresses from [n.first] to [n.last]. *)
Lemma contains_of_net n a : wf_net n → contains (of_net n) a = net_mem n a.
Proof.
  intros [Hv Hp]. unfold contains, of_net, net_mem, last, width in *.
  set (h := Z.to_nat (32 - prefixlen n)). set (d := Z.to_nat (prefixlen n)).
  assert (Hk : 32%nat = (d + h)%nat) by (subst d h; lia).
  assert (Hsz : size n = 2 ^ Z.of_nat h).
  { unfold size, width. subst h. rewrite Z2Nat.id by lia. reflexivity. }
  pose proof (pow2_pos h) as Hh. pose proof (pow2_add d h) as Hdh.
  rewrite <- Hk in Hdh. change (Z.of_nat 32) with 32 in Hdh.
  set (q := value n / size n).
  assert (Hq : 0 <= q < 2 ^ Z.of_nat d).
  { subst q. rewrite Hsz. split.
    - apply Z.div_pos; lia.
    - apply Z.div_lt_upper_bound; lia. }
  assert (Hf : first n = 0 + q * 2 ^ Z.of_nat h).
  { unfold first. fold q. rewrite Hsz. lia. }
  rewrite Hk, Hf, (mem_of_range h d 0 q a Hq), Hsz.
  zcmp; try reflexivity; lia.
Qed.

Lemma mkIPSet_acc l a : Forall wf_net l → ∀ acc, valid acc →
  valid (fold_left (fun s n => union s (of_net n)) l acc)
  ∧ contains (fold_left (fun s n => union s (of_net n)) l acc) a
    = contains acc a || existsb (fun n => net_mem n a) l.
Proof.
  induction 1 as [|n l Hn Hl IH]; intros acc Hacc; cbn [fold_left existsb].
  - rewrite orb_false_r. auto.
  - pose proof (valid_of_net n) as Hv.
    destruct (IH (union acc (of_net n)) (valid_union _ _ Hacc Hv)) as [Hw Hm].
    split; [exact Hw|]. rewrite Hm, (contains_union _ _ a Hacc Hv).
    rewrite (contains_of_net n a Hn), orb_assoc. reflexivity.
Qed.

Lemma valid_Empty : valid Empty.
Proof. exact I. Qed.

Lemma valid_mkIPSet l : Forall wf_net l → valid (mkIPSet l).
Proof. intros H. apply (mkIPSet_acc l 0 H Empty valid_Empty). Qed.

(** [IPSet(l)] holds the addresses of the networks of [l]. *)
Lemma contains_mkIPSet l a : Forall wf_net l →
  contains (mkIPSet l) a = existsb (fun n => net_mem n a) l.
Proof. intros H. apply (mkIPSet_acc l a H Empty valid_Empty). Qed.

(** Every block [iter_cidrs] lists is aligned, lies in the level's
    range, and its addresses belong to the set. *)
Lemma cidrs_sound : ∀ s k b n, wf k s → n ∈ cidrs k b s →
  ∃ k' : nat, (k' <= k)%nat ∧ n = mkNet (value n) (width - Z.of_nat k')
    ∧ (∃ q, value n = b + q * 2 ^ Z.of_nat k')
    ∧ b <= value n ∧ value n + 2 ^ Z.of_nat k' <= b + 2 ^ Z.of_nat k
    ∧ ∀ a, value n <= a < value n + 2 ^ Z.of_nat k' → mem k b s a = true.
Proof.
  induction s as [| |lo IHlo hi IHhi]; intros k b n Hwf Hin; cbn [cidrs] in Hin.
  - inversion Hin.
  - apply list_elem_of_singleton in Hin. subst n. exists k. cbn [value].
    split; [lia|]. split; [reflexivity|]. split; [exists 0; lia|].
    split; [lia|]. split; [lia|]. intros a Ha. apply mem_Full. exact Ha.
  - destruct k as [|k]; [inversion Hin|]. cbn [wf] in Hwf. destruct Hwf as [Hl Hh].
    pose proof (pow2_S k) as HS. pose proof (pow2_pos k) as Hk.
    apply elem_of_app in Hin. destruct Hin as [Hin|Hin].
    + destruct (IHlo k b n Hl Hin) as (k' & Hle & Hn & [q Hq] & Hb & He & Hm).
      exists k'. split; [lia|]. split; [exact Hn|]. split; [exists q; exact Hq|].
      split; [lia|]. split; [lia|]. intros a Ha. cbn [mem].
      destruct (Z.ltb_spec a (b + 2 ^ Z.of_nat k)); [|lia]. apply Hm. exact Ha.
    + destruct (IHhi k _ n Hh Hin) as (k' & Hle & Hn & [q Hq] & Hb & He & Hm).
      exists k'. split; [lia|]. split; [exact Hn|].
      split.
      { exists (q + 2 ^ Z.of_nat (k - k')).
        replace k with ((k - k') + k')%nat in Hq at 1 by lia.
        rewrite pow2_add in Hq. lia. }
      split; [lia|]. split; [lia|]. intros a Ha. cbn [mem].
      destruct (Z.ltb_spec a (b + 2 ^ Z.of_nat k)); [lia|]. apply Hm. exact Ha.
Qed.

(** Every address of the set lies in a listed block. *)
Lemma cidrs_complete : ∀ s k b a, mem k b s a = true → cidrs k b s ≠ [].
Proof.
  induction s as [| |lo IHlo hi IHhi]; intros k b a Hm; cbn [mem cidrs] in *.
  - discriminate.
  - discriminate.
  - destruct k as [|k]; [discriminate|].
    destruct (a <? b + 2 ^ Z.of_nat k).
    + apply IHlo in Hm. destruct (cidrs k b lo); [congruence|discriminate].
    + apply IHhi in Hm. intros H. apply app_eq_nil in H. tauto.
Qed.

Lemma nonempty_false s a : nonempty s = false → contains s a = false.
Proof.
  unfold nonempty, iter_cidrs, contains. intros H.
  destruct (mem 32 0 s a) eqn:E; [|reflexivity].
  apply cidrs_complete in E. destruct (cidrs 32 0 s); [congruence|discriminate].
Qed.

(** The blocks of [iter_cidrs]: well-formed networks, written with
    their first address, inside the set. *)
Lemma iter_cidrs_sound s n : valid s → n ∈ iter_cidrs s →
  wf_net n ∧ first n = value n
  ∧ ∀ a, net_mem n a = true → contains s a = true.
Proof.
  intros Hwf Hin. destruct (cidrs_sound s 32 0 n Hwf Hin)
    as (k' & Hle & Hn & [q Hq] & Hb & He & Hm).
  pose proof (pow2_pos k') as Hk. change (2 ^ Z.of_nat 32) with (2 ^ 32) in He.
  assert (Hp : prefixlen n = width - Z.of_nat k') by (rewrite Hn; reflexivity).
  assert (Hsz : size n = 2 ^ Z.of_nat k').
  { unfold size. rewrite Hp. f_equal. lia. }
  assert (Hf : first n = value n).
  { unfold first. rewrite Hsz, Hq, Z.add_0_l, Z.div_mul by lia. reflexivity. }
  split; [|split].
  - unfold wf_net, width in *. lia.
  - exact Hf.
  - intros a Ha. apply net_mem_iff in Ha. unfold last in Ha. rewrite Hf, Hsz in Ha.
    apply Hm. lia.
Qed.

(** The subnets of [n]: the requested length, written with their first
    address, inside [n]. *)
Lemma subnet_spec n p l m : 0 <= prefixlen n <= width →
  subnet n p = Ok l → m ∈ l →
  prefixlen m = p ∧ prefixlen n <= p <= width ∧ first m = value m
  ∧ first n <= first m ∧ last m <= last n.
Proof.
  intros Hpn Hs Hin. unfold subnet in Hs.
  destruct (Z.leb_spec (prefixlen n) p) as [Hle|]; cbn [negb] in Hs;
    [|inversion Hs; subst l; inversion Hin].
  destruct (Z.ltb_spec width p) as [|Hpw]; [discriminate|].
  inversion Hs as [Hl]. clear Hs. subst l.
  apply list_elem_of_fmap in Hin. destruct Hin as (i & -> & Hi).
  apply elem_of_seq in Hi. unfold width in *.
  set (S := 2 ^ (32 - p)) in *.
  assert (HS : 0 < S) by (apply Z.pow_pos_nonneg; lia).
  assert (Hsplit : 2 ^ (32 - prefixlen n) = 2 ^ (p - prefixlen n) * S).
  { subst S. rewrite <- Z.pow_add_r by lia. f_equal. lia. }
  assert (Hc : 0 < 2 ^ (p - prefixlen n)) by (apply Z.pow_pos_nonneg; lia).
  rewrite Hsplit, Z.div_mul in Hi by lia.
  assert (Hsm : ∀ v, size (mkNet v p) = S) by reflexivity.
  assert (Hsn : size n = 2 ^ (p - prefixlen n) * S) by exact Hsplit.
  set (qn := value n / size n).
  assert (Hfn : first n = qn * 2 ^ (p - prefixlen n) * S).
  { unfold first. fold qn. rewrite Hsn. lia. }
  assert (Hfm : first (mkNet (first n + S * Z.of_nat i) p) = first n + S * Z.of_nat i).
  { unfold first at 1. cbn [value]. rewrite Hsm.
    replace (first n + S * Z.of_nat i)
      with ((qn * 2 ^ (p - prefixlen n) + Z.of_nat i) * S) at 1 by (rewrite Hfn; lia).
    rewrite Z.div_mul by lia. rewrite Hfn. lia. }
  cbn [prefixlen value]. split; [reflexivity|]. split; [lia|]. split; [exact Hfm|].
  unfold last. rewrite Hfm, Hsm, Hsn. split; [lia|]. nia.
Qed.
(** *** Order: the listed blocks ascend *)

Lemma cidrs_ascending : ∀ s k b, wf k s →
  StronglySorted (fun m n => value m + size m <= value n) (cidrs k b s).
Proof.
  induction s as [| |lo IHlo hi IHhi]; intros k b Hwf; cbn [cidrs].
  - constructor.
  - repeat constructor.
  - destruct k as [|k]; [constructor|]. cbn [wf] in Hwf. destruct Hwf as [Hl Hh].
    apply StronglySorted_app_2; [|apply IHlo; exact Hl|apply IHhi; exact Hh].
    intros m n Hm Hn.
    destruct (cidrs_sound lo k b m Hl Hm) as (km & _ & Em & _ & _ & Hm' & _).
    destruct (cidrs_sound hi k _ n Hh Hn) as (kn & _ & _ & _ & Hn' & _).
    unfold size. rewrite Em. cbn [prefixlen value].
    replace (width - (width - Z.of_nat km)) with (Z.of_nat km) by lia. lia.
Qed.

(** [iter_cidrs] lists its blocks in ascending address order, each
    block ending before the next begins. *)
Lemma iter_cidrs_ascending s : valid s →
  StronglySorted (fun m n => last m < first n) (iter_cidrs s).
Proof.
  intros Hv. pose proof (cidrs_ascending s 32 0 Hv) as Hs.
  fold (iter_cidrs s) in Hs.
  assert (Hall : Forall (fun n => first n = value n) (iter_cidrs s)).
  { apply Forall_forall. intros n Hn. apply (iter_cidrs_sound s n Hv Hn). }
  induction Hs as [|m l Hs IH Hm]; [constructor|].
  apply Forall_cons_1 in Hall. destruct Hall as [Em Hall].
  constructor; [apply IH; exact Hall|].
  apply Forall_forall. intros n Hn.
  pose proof (proj1 (Forall_forall _ _) Hm n Hn) as Hmn.
  pose proof (proj1 (Forall_forall _ _) Hall n Hn) as En.
  cbv beta in Hmn, En. unfold last. rewrite Em, En. lia.
Qed.

(** *** Compactness: the listed blocks are the merged ones *)

Lemma canonical_node lo hi : canonical lo → canonical hi → canonical (node lo hi).
Proof. destruct lo, hi; cbn; tauto. Qed.

Lemma compl_Empty s : compl s = Empty ↔ s = Full.
Proof. destruct s; cbn; split; congruence. Qed.

Lemma compl_Full s : compl s = Full ↔ s = Empty.
Proof. destruct s; cbn; split; congruence. Qed.

Lemma canonical_compl s : canonical s → canonical (compl s).
Proof.
  induction s as [| |lo IHlo hi IHhi]; cbn [compl canonical]; try tauto.
  intros (Hl & Hh & Hn). split; [auto|]. split; [auto|].
  destruct lo, hi; cbn in *; congruence.
Qed.

Lemma canonical_union : ∀ s t, canonical s → canonical t → canonical (union s t).
Proof.
  induction s as [| |a IHa b IHb]; intros [| |c d] Hs Ht; cbn [union]; try assumption.
  cbn [canonical] in Hs, Ht. apply canonical_node; [apply IHa|apply IHb]; tauto.
Qed.

Lemma canonical_xor : ∀ s t, canonical s → canonical t → canonical (xor s t).
Proof.
  induction s as [| |a IHa b IHb]; intros [| |c d] Hs Ht; cbn [xor];
    try assumption; try exact I; try (apply canonical_compl; assumption).
  cbn [canonical] in Hs, Ht. apply canonical_node; [apply IHa|apply IHb]; tauto.
Qed.

Lemma canonical_inter : ∀ s t, canonical s → canonical t → canonical (inter s t).
Proof.
  induction s as [| |a IHa b IHb]; intros [| |c d] Hs Ht; cbn [inter];
    try assumption; try exact I.
  cbn [canonical] in Hs, Ht. apply canonical_node; [apply IHa|apply IHb]; tauto.
Qed.

Lemma of_range_not_Empty h f : ∀ k b, of_range k b h f ≠ Empty.
Proof.
  intros [|k] b; cbn [of_range].
  - destruct (0 <=? h)%nat; discriminate.
  - destruct (S k <=? h)%nat; [discriminate|]. destruct (f <? _); discriminate.
Qed.

Lemma canonical_of_range h f : ∀ k b, canonical (of_range k b h f).
Proof.
  induction k as [|k IH]; intros b; cbn [of_range].
  - destruct (0 <=? h)%nat; exact I.
  - destruct (S k <=? h)%nat; [exact I|].
    destruct (f <? _); cbn [canonical]; (split; [auto; exact I|]);
      (split; [auto; exact I|]).
    + pose proof (of_range_not_Empty h f k b).
      destruct (of_range k b h f); cbn; congruence.
    + pose proof (of_range_not_Empty h f k (b + 2 ^ Z.of_nat k)).
      destruct (of_range k (b + 2 ^ Z.of_nat k) h f); cbn; congruence.
Qed.

Lemma canonical_mkIPSet l : canonical (mkIPSet l).
Proof.
  unfold mkIPSet. assert (H : canonical Empty) by exact I. revert H.
  generalize Empty. induction l as [|n l IH]; intros acc Hacc; cbn [fold_left].
  - exact Hacc.
  - apply IH, canonical_union; [exact Hacc|apply canonical_of_range].
Qed.

End netaddr_facts.

(** ** The allocator *)

Lemma available_slicer_elem {A} (reverse_search : bool) (l : list A) x :
  x ∈ available_slicer reverse_search l ↔ x ∈ l.
Proof.
  unfold available_slicer. destruct reverse_search; [|reflexivity].
  rewrite !list_elem_of_In. symmetry. apply in_rev.
Qed.

Lemma next_selector_elem {A} (reverse_search : bool) (l : list A) x :
  next_selector reverse_search l = Ok x → x ∈ l.
Proof.
  unfold next_selector. destruct reverse_search.
  - destruct (last l) eqn:E; [|discriminate]. intros [= <-].
    apply last_Some_elem_of. exact E.
  - destruct (head l) eqn:E; [|discriminate]. intros [= <-].
    apply head_Some_elem_of. exact E.
Qed.

(** The block the allocator picks is one of the maximal free blocks,
    and it is large enough. *)
Lemma find_available_block_Some size reverse_search smallest_cidr available net :
  find_available_block size reverse_search smallest_cidr available = Ok (Some net) →
  net ∈ netaddr.iter_cidrs available ∧ netaddr.prefixlen net <= size.
Proof.
  unfold find_available_block. destruct smallest_cidr.
  - destruct (py_max _) as [e|min_mask]; cbn [rbind]; [discriminate|].
    intros [= H]. apply head_Some_elem_of in H.
    apply list_elem_of_filter in H. destruct H as [_ H].
    apply list_elem_of_filter in H. destruct H as [Hle H].
    apply available_slicer_elem in H. auto.
  - intros [= H]. apply head_Some_elem_of in H.
    apply list_elem_of_filter in H. destruct H as [Hle H].
    apply available_slicer_elem in H. auto.
Qed.

Lemma next_cidr_spec net size reverse_search r :
  0 <= netaddr.prefixlen net <= netaddr.width →
  next_cidr net size reverse_search = Ok r →
  netaddr.prefixlen r = size ∧ netaddr.prefixlen net <= size <= netaddr.width
  ∧ netaddr.first r = netaddr.value r
  ∧ netaddr.first net <= netaddr.first r ∧ netaddr.last r <= netaddr.last net.
Proof.
  intros Hp. unfold next_cidr.
  destruct (netaddr.subnet net size) as [e|l] eqn:E; cbn [rbind]; [discriminate|].
  intros H. apply next_selector_elem in H.
  exact (netaddr_facts.subnet_spec net size l r Hp E H).
Qed.

(** What the free set of a block holds, when everything consumed lies
    in the block: the addresses of the block that nothing consumes. *)
Lemma available_set_spec target_block all_cidrs a :
  netaddr.wf_net (b_cidr target_block) →
  Forall netaddr.wf_net all_cidrs →
  Forall (fun c => netaddr.subset_of c (b_cidr target_block)) all_cidrs →
  netaddr.valid (available_set target_block all_cidrs)
  ∧ (netaddr.contains (available_set target_block all_cidrs) a = true ↔
     netaddr.net_mem (b_cidr target_block) a = true
     ∧ Forall (fun c => netaddr.net_mem c a = false) all_cidrs).
Proof.
  intros Hb Hwf Hsub. unfold available_set.
  assert (Hb1 : Forall netaddr.wf_net [b_cidr target_block]) by (constructor; auto).
  pose proof (netaddr_facts.valid_mkIPSet _ Hb1) as Hw1.
  pose proof (netaddr_facts.valid_mkIPSet _ Hwf) as Hw2.
  split; [apply netaddr_facts.valid_xor; assumption|].
  rewrite (netaddr_facts.contains_xor _ _ a Hw1 Hw2).
  rewrite (netaddr_facts.contains_mkIPSet _ a Hb1).
  rewrite (netaddr_facts.contains_mkIPSet _ a Hwf).
  cbn [existsb]. rewrite orb_false_r.
  destruct (existsb _ all_cidrs) eqn:Ex.
  - apply existsb_exists in Ex. destruct Ex as (c & Hc & Hm).
    apply list_elem_of_In in Hc.
    pose proof (proj1 (Forall_forall _ _) Hsub c Hc) as [Hf Hl].
    apply netaddr_facts.net_mem_iff in Hm.
    assert (Hbm : netaddr.net_mem (b_cidr target_block) a = true)
      by (apply netaddr_facts.net_mem_iff; lia).
    rewrite Hbm. cbn [xorb]. split; [discriminate|]. intros [_ Hall].
    pose proof (proj1 (Forall_forall _ _) Hall c Hc) as Hn.
    apply netaddr_facts.net_mem_iff in Hbm.
    assert (netaddr.net_mem c a = true) by (apply netaddr_facts.net_mem_iff; lia).
    congruence.
  - rewrite xorb_false_r. split.
    + intros Hbm. split; [exact Hbm|]. apply Forall_forall. intros c Hc.
      destruct (netaddr.net_mem c a) eqn:Hm; [|reflexivity].
      assert (existsb (fun n => netaddr.net_mem n a) all_cidrs = true).
      { apply existsb_exists. exists c. split; [apply list_elem_of_In; exact Hc|exact Hm]. }
      congruence.
    + tauto.
Qed.

(** The free set is compact: [iter_cidrs] lists its maximal blocks. *)
Lemma available_set_canonical target_block all_cidrs :
  netaddr.canonical (available_set target_block all_cidrs).
Proof.
  apply netaddr_facts.canonical_xor; apply netaddr_facts.canonical_mkIPSet.
Qed.

(** The allocation of one block: exact length, inside the block, clear
    of everything consumed. *)
Lemma allocate_sound vnets target_block size reverse_search smallest_cidr r :
  netaddr.wf_net (b_cidr target_block) →
  Forall netaddr.wf_net (block_all_cidrs vnets target_block) →
  Forall (fun c => netaddr.subset_of c (b_cidr target_block))
         (block_all_cidrs vnets target_block) →
  allocate vnets target_block size reverse_search smallest_cidr = Ok r →
  netaddr.prefixlen r = size
  ∧ netaddr.subset_of r (b_cidr target_block)
  ∧ Forall (netaddr.disjoint r) (block_all_cidrs vnets target_block).
Proof.
  intros Hb Hwf Hsub. unfold allocate.
  set (consumed := block_all_cidrs vnets target_block) in *.
  destruct (find_available_block _ _ _ _) as [e|[net|]] eqn:Ef; cbn [rbind];
    [discriminate| |discriminate].
  intros Hn.
  apply find_available_block_Some in Ef. destruct Ef as [Hin Hle].
  destruct (available_set_spec target_block consumed 0 Hb Hwf Hsub) as [Hw _].
  destruct (netaddr_facts.iter_cidrs_sound _ net Hw Hin) as ([_ Hpn] & _ & Hmem).
  destruct (next_cidr_spec net size reverse_search r Hpn Hn)
    as (Hpr & Hps & _ & Hfr & Hlr).
  assert (Hrr : netaddr.first r <= netaddr.last r)
    by (apply netaddr_facts.first_le_last; lia).
  assert (Hfree : ∀ a, netaddr.first r <= a <= netaddr.last r →
            netaddr.net_mem (b_cidr target_block) a = true
            ∧ Forall (fun c => netaddr.net_mem c a = false) consumed).
  { intros a Ha.
    apply (available_set_spec target_block consumed a Hb Hwf Hsub).
    apply Hmem. apply netaddr_facts.net_mem_iff. lia. }
  split; [exact Hpr|]. split.
  - destruct (Hfree (netaddr.first r)) as [H1 _]; [lia|].
    destruct (Hfree (netaddr.last r)) as [H2 _]; [lia|].
    apply netaddr_facts.net_mem_iff in H1, H2. unfold netaddr.subset_of. lia.
  - apply Forall_forall. intros c Hc.
    pose proof (proj1 (Forall_forall _ _) Hwf c Hc) as [_ Hpc].
    pose proof (netaddr_facts.first_le_last c Hpc) as Hcc.
    unfold netaddr.disjoint.
    destruct (Z_lt_dec (netaddr.last r) (netaddr.first c)) as [|H1]; [left; assumption|].
    destruct (Z_lt_dec (netaddr.last c) (netaddr.first r)) as [|H2]; [right; assumption|].
    exfalso. set (a := Z.max (netaddr.first r) (netaddr.first c)).
    destruct (Hfree a) as [_ Hall]; [subst a; lia|].
    pose proof (proj1 (Forall_forall _ _) Hall c Hc) as Hm.
    assert (netaddr.net_mem c a = true)
      by (apply netaddr_facts.net_mem_iff; subst a; lia).
    congruence.
Qed.

(** ** Running a handler *)

Lemma bind_Ok {A B} (c : M A) (k : A → M B) st b st' :
  bind c k st = (inr b, st') →
  ∃ a st1, c st = (inr a, st1) ∧ k a st1 = (inr b, st').
Proof.
  unfold bind. destruct (c st) as [[e|a] st1]; [discriminate|]. eauto.
Qed.

Lemma first_space_Ok space_query st s st' :
  first_space space_query st = (inr s, st') → head space_query = Some s ∧ st' = st.
Proof.
  destruct space_query; cbn; [discriminate|]. intros [= -> ->]. auto.
Qed.

Lemma target_block_of_Ok target_space block st ib st' :
  target_block_of target_space block st = (inr ib, st') →
  find_block (s_blocks target_space) block = Some ib ∧ st' = st.
Proof.
  unfold target_block_of. destruct (find_block _ _); cbn; [|discriminate].
  intros [= -> ->]. auto.
Qed.

Lemma raise_if_Ok cond e st u st' :
  raise_if cond e st = (inr u, st') → cond = false ∧ st' = st.
Proof. destruct cond; cbn; [discriminate|]. intros [= _ ->]. auto. Qed.

Lemma lift_Ok {A} (r : result A) st a st' :
  lift r st = (inr a, st') → r = Ok a ∧ st' = st.
Proof. unfold lift. intros [= -> ->]. auto. Qed.

(** Peels one step of a successful run. *)
Ltac run_step H :=
  let a := fresh "a" in let st1 := fresh "st" in let H1 := fresh "Hrun" in
  apply bind_Ok in H; destruct H as (a & st1 & H1 & H).

(** ** C1: the single-block allocator *)

(** C1. A successful [create_block_reservation], on a block whose
    consumed set (the prefixes of its attached networks clipped to the
    block, and the CIDRs of its reservations) lies in the block's range,
    returns a CIDR of exactly the requested prefix length, inside the
    block's range, and disjoint from every entry of the consumed set;
    whatever the flags [reverse_search] and [smallest_cidr]. *)
Theorem create_block_reservation_sound
    ctx space block req st target_space i target_block out st' :
  head (spaces_named space st) = Some target_space →
  find_block (s_blocks target_space) block = Some (i, target_block) →
  netaddr.wf_net (b_cidr target_block) →
  Forall netaddr.wf_net (block_all_cidrs (vnet_list ctx) target_block) →
  Forall (fun c => netaddr.subset_of c (b_cidr target_block))
         (block_all_cidrs (vnet_list ctx) target_block) →
  create_block_reservation ctx space block req st = (Ok out, st') →
  netaddr.prefixlen (r_cidr (o_resv out)) = BlockCIDRReq.size req
  ∧ netaddr.subset_of (r_cidr (o_resv out)) (b_cidr target_block)
  ∧ Forall (netaddr.disjoint (r_cidr (o_resv out)))
           (block_all_cidrs (vnet_list ctx) target_block).
Proof.
  intros Hsp Hblk Hb Hwf Hsub Hrun. unfold create_block_reservation in Hrun.
  run_step Hrun. unfold cosmos_query in Hrun0. injection Hrun0 as <- <-.
  run_step Hrun. apply first_space_Ok in Hrun0. destruct Hrun0 as [Hh ->].
  rewrite Hsp in Hh. injection Hh as <-.
  run_step Hrun. apply target_block_of_Ok in Hrun0. destruct Hrun0 as [Hf ->].
  rewrite Hblk in Hf. injection Hf as <-.
  run_step Hrun. apply lift_Ok in Hrun0. destruct Hrun0 as [Ha ->].
  run_step Hrun. unfold ret in Hrun. injection Hrun as <- _.
  cbn [o_resv r_cidr new_cidr].
  exact (allocate_sound _ _ _ _ _ _ Hb Hwf Hsub Ha).
Qed.

Lemma head_spaces_named_elem space st target_space :
  head (spaces_named space st) = Some target_space → target_space ∈ st.
Proof.
  intros H. apply head_Some_elem_of in H. unfold spaces_named in H.
  apply list_elem_of_filter in H. tauto.
Qed.

(** A document of the store can be replaced. *)
Lemma cosmos_replace_Ok old new st :
  old ∈ st → ∃ i, cosmos_replace old new st = (Ok tt, <[i := new]> st).
Proof.
  intros Hin. unfold cosmos_replace.
  destruct (list_find_elem_of (fun s => s_id s = s_id old) st old Hin eq_refl)
    as [[i s] ->].
  exists i. reflexivity.
Qed.

(** The run of [create_block_reservation] on a block that exists: the
    exception of the allocation with the store as it was, or the new
    reservation. *)
Lemma create_block_reservation_run ctx space block req st target_space i target_block :
  head (spaces_named space st) = Some target_space →
  find_block (s_blocks target_space) block = Some (i, target_block) →
  match allocate (vnet_list ctx) target_block (BlockCIDRReq.size req)
          (BlockCIDRReq.reverse_search req) (BlockCIDRReq.smallest_cidr req) with
  | inl e => create_block_reservation ctx space block req st = (Raise e, st)
  | inr c =>
      ∃ st', create_block_reservation ctx space block req st
             = (Ok (mkReservationOut (new_cidr ctx c) (s_name target_space)
                      (b_name target_block)), st')
  end.
Proof.
  intros Hsp Hblk. pose proof (head_spaces_named_elem _ _ _ Hsp) as Hin.
  unfold create_block_reservation, bind, cosmos_query, first_space, target_block_of.
  destruct (spaces_named space st) as [|s rest]; [discriminate|].
  injection Hsp as ->. cbv beta iota delta [Ok ret]. rewrite Hblk.
  cbv beta iota delta [lift].
  destruct (allocate _ _ _ _ _) as [e|c]; [reflexivity|].
  destruct (cosmos_replace_Ok target_space
              (set_s_blocks
                 (alter (set_b_resv (fun l => l ++ [new_cidr ctx c])) i) target_space)
              st Hin) as [j ->].
  eexists. reflexivity.
Qed.

(** Closes a goal built from comparisons of numerals. *)
Ltac by_compute := vm_compute; repeat split; (reflexivity || discriminate || tauto).

(** The allocator of C1 on the block [10.0.0.0/24] with [10.0.0.0/26]
    reserved: the [/27] it returns lies in the block, clear of the
    reservation. *)
Lemma create_block_reservation_sound_witness :
  netaddr.prefixlen (cidr 10 0 0 64 27) = 27
  ∧ netaddr.subset_of (cidr 10 0 0 64 27) (cidr 10 0 0 0 24)
  ∧ Forall (netaddr.disjoint (cidr 10 0 0 64 27)) [cidr 10 0 0 0 26].
Proof.
  apply (create_block_reservation_sound alice_ctx "prod" "core"
           (BlockCIDRReq.mk 27 false true) (one_block_store [resv_quarter])
           (prod_space [resv_quarter]) 0 (core_block [resv_quarter])
           (mkReservationOut (new_cidr alice_ctx (cidr 10 0 0 64 27)) "prod" "core")
           (one_block_store [resv_quarter; new_cidr alice_ctx (cidr 10 0 0 64 27)])).
  - vm_compute; reflexivity.
  - vm_compute; reflexivity.
  - by_compute.
  - repeat constructor; by_compute.
  - repeat constructor; by_compute.
  - vm_compute; reflexivity.
Defined.

(** ** C4 and C5: the allocation scenarios *)

(** C4. On a block of range [10.0.0.0/24] whose consumed set is exactly
    [10.0.0.0/26], a request of length 27 with [smallest_cidr] set and
    [reverse_search] unset returns [10.0.0.64/27]: the free blocks are
    [10.0.0.64/26] and [10.0.0.128/25], the smallest that fits is
    [10.0.0.64/26], and the result is its first [/27]. *)
Theorem scenario_smallest_cidr ctx space block st target_space i target_block :
  head (spaces_named space st) = Some target_space →
  find_block (s_blocks target_space) block = Some (i, target_block) →
  b_cidr target_block = cidr 10 0 0 0 24 →
  block_all_cidrs (vnet_list ctx) target_block = [cidr 10 0 0 0 26] →
  netaddr.iter_cidrs
    (available_set target_block (block_all_cidrs (vnet_list ctx) target_block))
  = [cidr 10 0 0 64 26; cidr 10 0 0 128 25]
  ∧ find_available_block 27 false true
      (available_set target_block (block_all_cidrs (vnet_list ctx) target_block))
    = Ok (Some (cidr 10 0 0 64 26))
  ∧ ∃ st',
      create_block_reservation ctx space block (BlockCIDRReq.mk 27 false true) st
      = (Ok (mkReservationOut (new_cidr ctx (cidr 10 0 0 64 27))
               (s_name target_space) (b_name target_block)), st').
Proof.
  intros Hsp Hblk Hc Hcons.
  pose proof (create_block_reservation_run ctx space block
                (BlockCIDRReq.mk 27 false true) st _ _ _ Hsp Hblk) as Hrun.
  cbn [BlockCIDRReq.size BlockCIDRReq.reverse_search BlockCIDRReq.smallest_cidr] in Hrun.
  assert (Ha : allocate (vnet_list ctx) target_block 27 false true
               = Ok (cidr 10 0 0 64 27)).
  { unfold allocate, available_set. rewrite Hc, Hcons. vm_compute. reflexivity. }
  rewrite Ha in Hrun. unfold available_set. rewrite Hc, Hcons.
  split; [vm_compute; reflexivity|]. split; [vm_compute; reflexivity|]. exact Hrun.
Qed.

Lemma scenario_smallest_cidr_witness :
  ∃ st', create_block_reservation alice_ctx "PROD" "Core"
           (BlockCIDRReq.mk 27 false true) (one_block_store [resv_quarter])
         = (Ok (mkReservationOut (new_cidr alice_ctx (cidr 10 0 0 64 27)) "prod" "core"),
            st').
Proof.
  apply (scenario_smallest_cidr alice_ctx "PROD" "Core" (one_block_store [resv_quarter])
           (prod_space [resv_quarter]) 0 (core_block [resv_quarter])).
  - vm_compute; reflexivity.
  - vm_compute; reflexivity.
  - reflexivity.
  - vm_compute; reflexivity.
Defined.

(** C5. On a block of range [10.0.0.0/24] with nothing consumed, a
    request of length 26 without [smallest_cidr] returns [10.0.0.0/26]
    when [reverse_search] is unset and [10.0.0.192/26] when it is set. *)
Theorem scenario_first_and_last ctx space block st target_space i target_block :
  head (spaces_named space st) = Some target_space →
  find_block (s_blocks target_space) block = Some (i, target_block) →
  b_cidr target_block = cidr 10 0 0 0 24 →
  block_all_cidrs (vnet_list ctx) target_block = [] →
  (∃ st',
      create_block_reservation ctx space block (BlockCIDRReq.mk 26 false false) st
      = (Ok (mkReservationOut (new_cidr ctx (cidr 10 0 0 0 26))
               (s_name target_space) (b_name target_block)), st'))
  ∧ (∃ st',
      create_block_reservation ctx space block (BlockCIDRReq.mk 26 true false) st
      = (Ok (mkReservationOut (new_cidr ctx (cidr 10 0 0 192 26))
               (s_name target_space) (b_name target_block)), st')).
Proof.
  intros Hsp Hblk Hc Hcons.
  pose proof (create_block_reservation_run ctx space block
                (BlockCIDRReq.mk 26 false false) st _ _ _ Hsp Hblk) as Hfwd.
  pose proof (create_block_reservation_run ctx space block
                (BlockCIDRReq.mk 26 true false) st _ _ _ Hsp Hblk) as Hrev.
  cbn [BlockCIDRReq.size BlockCIDRReq.reverse_search BlockCIDRReq.smallest_cidr]
    in Hfwd, Hrev.
  assert (Ha : allocate (vnet_list ctx) target_block 26 false false
               = Ok (cidr 10 0 0 0 26)).
  { unfold allocate, available_set. rewrite Hc, Hcons. vm_compute. reflexivity. }
  assert (Hb : allocate (vnet_list ctx) target_block 26 true false
               = Ok (cidr 10 0 0 192 26)).
  { unfold allocate, available_set. rewrite Hc, Hcons. vm_compute. reflexivity. }
  rewrite Ha in Hfwd. rewrite Hb in Hrev. split; assumption.
Qed.

Lemma scenario_first_and_last_witness :
  (∃ st', create_block_reservation alice_ctx "prod" "core"
            (BlockCIDRReq.mk 26 false false) (one_block_store [])
          = (Ok (mkReservationOut (new_cidr alice_ctx (cidr 10 0 0 0 26)) "prod" "core"),
             st'))
  ∧ (∃ st', create_block_reservation alice_ctx "prod" "core"
              (BlockCIDRReq.mk 26 true false) (one_block_store [])
            = (Ok (mkReservationOut (new_cidr alice_ctx (cidr 10 0 0 192 26)) "prod" "core"),
               st')).
Proof.
  apply (scenario_first_and_last alice_ctx "prod" "core" (one_block_store [])
           (prod_space []) 0 (core_block [])).
  - vm_compute; reflexivity.
  - vm_compute; reflexivity.
  - reflexivity.
  - reflexivity.
Defined.

(** ** C2 and C3: exhaustion *)

Lemma filter_none {A} (P : A → Prop) `{∀ x, Decision (P x)} (l : list A) :
  (∀ x, x ∈ l → ¬ P x) → filter P l = [].
Proof.
  induction l as [|x l IH]; intros Hl; [reflexivity|].
  rewrite filter_cons. destruct (decide (P x)) as [Hp|_].
  - exfalso. apply (Hl x); [left|exact Hp].
  - apply IH. intros y Hy. apply Hl. right. exact Hy.
Qed.

(** When no maximal block of the free set is large enough, the
    allocation ends with the error of [create_block_reservation] if
    [smallest_cidr] is unset, and with the [ValueError] of [max] on an
    empty sequence if it is set. *)
Lemma allocate_exhausted vnets target_block size reverse_search smallest_cidr :
  (∀ n, n ∈ netaddr.iter_cidrs
              (available_set target_block (block_all_cidrs vnets target_block)) →
        size < netaddr.prefixlen n) →
  allocate vnets target_block size reverse_search smallest_cidr
  = Raise (if smallest_cidr then ValueError
           else HTTPException 500
                  "Network of requested size unavailable in target block.").
Proof.
  intros Hnone. unfold allocate, find_available_block.
  rewrite filter_none.
  - destruct smallest_cidr; reflexivity.
  - intros n Hn. apply available_slicer_elem in Hn. apply Hnone in Hn. lia.
Qed.

Lemma create_block_reservation_exhausted
    ctx space block req st target_space i target_block :
  head (spaces_named space st) = Some target_space →
  find_block (s_blocks target_space) block = Some (i, target_block) →
  (∀ n, n ∈ netaddr.iter_cidrs
              (available_set target_block
                 (block_all_cidrs (vnet_list ctx) target_block)) →
        BlockCIDRReq.size req < netaddr.prefixlen n) →
  create_block_reservation ctx space block req st
  = (Raise (if BlockCIDRReq.smallest_cidr req then ValueError
            else HTTPException 500
                   "Network of requested size unavailable in target block."), st).
Proof.
  intros Hsp Hblk Hnone.
  pose proof (create_block_reservation_run ctx space block req st _ _ _ Hsp Hblk) as Hrun.
  rewrite (allocate_exhausted _ _ _ _ _ Hnone) in Hrun. exact Hrun.
Qed.

(** C2. A request of length 20 on the free block [10.0.0.0/24]: the
    only maximal free block is the [/24], too small. Without
    [smallest_cidr] the handler ends with its error "Network of
    requested size unavailable"; with [smallest_cidr] it ends with
    [ValueError], and the store is as it was. *)
Theorem exhausted_smallest_cidr_ValueError :
  netaddr.iter_cidrs (available_set (core_block []) []) = [cidr 10 0 0 0 24]
  ∧ create_block_reservation alice_ctx "prod" "core"
      (BlockCIDRReq.mk 20 false false) (one_block_store [])
    = (Raise (HTTPException 500 "Network of requested size unavailable in target block."),
       one_block_store [])
  ∧ create_block_reservation alice_ctx "prod" "core"
      (BlockCIDRReq.mk 20 false true) (one_block_store [])
    = (Raise ValueError, one_block_store [])
  ∧ create_block_reservation alice_ctx "prod" "core"
      (BlockCIDRReq.mk 20 true true) (one_block_store [])
    = (Raise ValueError, one_block_store []).
Proof. repeat split; vm_compute; reflexivity. Qed.

(** Once a block with room is found, the rest of the list is passed
    over. *)
Lemma multi_loop_done ctx target req st net blocks :
  ms_available_block st = Some net → multi_loop ctx target req st blocks = Ok st.
Proof.
  intros Hs. induction blocks as [|b blocks IH]; [reflexivity|].
  cbn [multi_loop]. unfold multi_step. rewrite Hs. cbn [rbind]. exact IH.
Qed.

(** First fit, without [smallest_cidr]: the blocks named before the
    first one with room are evaluated in order, each with its own
    consumed set, and found exhausted; the loop stops at that first
    block and keeps it. *)
Lemma multi_loop_first_fit ctx target req pre name post i target_block net :
  SpaceCIDRReq.smallest_cidr req = false →
  Forall (fun b => ∃ j tb,
            find_block (s_blocks target) b = Some (j, tb)
            ∧ find_available_block (SpaceCIDRReq.size req)
                (SpaceCIDRReq.reverse_search req) false
                (available_set tb (block_all_cidrs (vnet_list ctx) tb)) = Ok None) pre →
  find_block (s_blocks target) name = Some (i, target_block) →
  find_available_block (SpaceCIDRReq.size req) (SpaceCIDRReq.reverse_search req) false
    (available_set target_block (block_all_cidrs (vnet_list ctx) target_block))
  = Ok (Some net) →
  ∀ st0, ms_available_block st0 = None →
  multi_loop ctx target req st0 (pre ++ name :: post)
  = Ok (mkMultiState (Some net) (Some name) (Some (i, target_block))).
Proof.
  intros Hsm Hpre Hblk Hfit. induction Hpre as [|b pre (j & tb & Hb & Hnone) _ IH];
    intros st0 Hst0; cbn [app multi_loop]; unfold multi_step; rewrite Hst0.
  - rewrite Hblk, Hsm, Hfit. cbn [rbind]. apply (multi_loop_done _ _ _ _ net). reflexivity.
  - rewrite Hb, Hsm, Hnone. cbn [rbind]. apply IH. reflexivity.
Qed.

(** The multi-block handler without [smallest_cidr]: the reservation is
    made in the first block of the list that has room, at the CIDR the
    single-block allocation picks there, and written into that block. *)
Lemma create_multi_block_reservation_first_fit
    ctx space req st target pre name post i target_block net c :
  head (spaces_named space st) = Some target →
  (∀ b, b ∈ SpaceCIDRReq.blocks req → b ∈ map b_name (s_blocks target)) →
  SpaceCIDRReq.blocks req = pre ++ name :: post →
  SpaceCIDRReq.smallest_cidr req = false →
  Forall (fun b => ∃ j tb,
            find_block (s_blocks target) b = Some (j, tb)
            ∧ find_available_block (SpaceCIDRReq.size req)
                (SpaceCIDRReq.reverse_search req) false
                (available_set tb (block_all_cidrs (vnet_list ctx) tb)) = Ok None) pre →
  find_block (s_blocks target) name = Some (i, target_block) →
  find_available_block (SpaceCIDRReq.size req) (SpaceCIDRReq.reverse_search req) false
    (available_set target_block (block_all_cidrs (vnet_list ctx) target_block))
  = Ok (Some net) →
  next_cidr net (SpaceCIDRReq.size req) (SpaceCIDRReq.reverse_search req) = Ok c →
  ∃ st',
    create_multi_block_reservation ctx space req st
    = (Ok (mkReservationOut (new_cidr ctx c) (s_name target) name), st')
    ∧ replaces st st' target
        (set_s_blocks
           (alter (set_b_resv (fun l => l ++ [new_cidr ctx c])) i) target).
Proof.
  intros Hsp Hvalid Hblocks Hsm Hpre Hblk Hfit Hnext.
  pose proof (head_spaces_named_elem _ _ _ Hsp) as Hin.
  pose proof (multi_loop_first_fit ctx target req pre name post i target_block net
                Hsm Hpre Hblk Hfit (mkMultiState None None None) eq_refl) as Hloop.
  rewrite <- Hblocks in Hloop.
  destruct (cosmos_replace_Ok target
              (set_s_blocks
                 (alter (set_b_resv (fun l => l ++ [new_cidr ctx c])) i) target)
              st Hin) as [j Hrep].
  exists (<[j := set_s_blocks
                   (alter (set_b_resv (fun l => l ++ [new_cidr ctx c])) i) target]> st).
  split; [|split; [exact Hin|split; [reflexivity|exact Hrep]]].
  unfold create_multi_block_reservation, bind, cosmos_query, first_space.
  destruct (spaces_named space st) as [|s rest]; [discriminate|].
  injection Hsp as ->. cbv beta iota delta [Ok ret].
  rewrite filter_none by (intros b Hb Hn; exact (Hn (Hvalid b Hb))).
  rewrite (bool_decide_eq_true_2 _ (eq_refl (@nil string))).
  cbv beta iota delta [raise_if negb ret lift]. unfold Ok in Hloop. rewrite Hloop.
  cbv beta iota delta [ms_available_block ms_target_block ms_available_block_name].
  unfold Ok in Hnext. rewrite Hnext. rewrite Hrep. reflexivity.
Qed.

(** C3. A request over the blocks [core; edge], where [core] is
    wholly reserved and [edge] is free. Without [smallest_cidr] the
    reservation is made in [edge], the first block with room; with
    [smallest_cidr] the exhausted [core] ends the handler with
    [ValueError] before [edge] is looked at, and nothing is reserved. *)
Theorem multi_block_smallest_cidr_ValueError :
  fst (create_multi_block_reservation alice_ctx "prod"
         (SpaceCIDRReq.mk ["core"; "edge"] 26 false false) two_block_store)
  = Ok (mkReservationOut (new_cidr alice_ctx (cidr 10 0 1 0 26)) "prod" "edge")
  ∧ snd (create_multi_block_reservation alice_ctx "prod"
           (SpaceCIDRReq.mk ["core"; "edge"] 26 false false) two_block_store)
    = [mkSpace "id1" "t1" "prod" "production"
         [core_block [resv_whole];
          set_b_resv (fun l => l ++ [new_cidr alice_ctx (cidr 10 0 1 0 26)]) edge_block]]
  ∧ create_multi_block_reservation alice_ctx "prod"
      (SpaceCIDRReq.mk ["core"; "edge"] 26 false true) two_block_store
    = (Raise ValueError, two_block_store).
Proof. repeat split; vm_compute; reflexivity. Qed.

(** ** C6: deleting reservations *)

Lemma remove_dups_NoDup (l : list string) : NoDup l → remove_dups l = l.
Proof.
  induction 1 as [|x l Hx Hl IH]; [reflexivity|].
  cbn [remove_dups]. destruct (decide_rel elem_of x l); [contradiction|].
  rewrite IH. reflexivity.
Qed.

Lemma unique_ids_NoDup l : NoDup l → unique_ids l = true.
Proof.
  intros H. unfold unique_ids. rewrite (remove_dups_NoDup l H).
  apply bool_decide_eq_true. reflexivity.
Qed.

Lemma ids_exist_all (current req : list string) :
  (∀ id, id ∈ req → id ∈ current) →
  forallb (fun elem => bool_decide (elem ∈ current)) req = true.
Proof.
  intros H. apply forallb_forall. intros id Hid.
  apply bool_decide_eq_true, H, list_elem_of_In, Hid.
Qed.

Lemma remove_dups_length_le (l : list string) : (length (remove_dups l) <= length l)%nat.
Proof.
  induction l as [|x l IH]; [reflexivity|]. cbn [remove_dups].
  destruct (decide_rel elem_of x l); cbn [length]; lia.
Qed.

(** [len(set(l)) == len(l)] holds of lists without duplicates
    only. *)
Lemma unique_ids_true l : unique_ids l = true → NoDup l.
Proof.
  unfold unique_ids. intros H. apply bool_decide_eq_true in H.
  induction l as [|x l IH]; [constructor|]. cbn [remove_dups] in H.
  pose proof (remove_dups_length_le l) as Hle.
  destruct (decide_rel elem_of x l) as [Hx|Hx]; cbn [length] in H; [lia|].
  constructor; [exact Hx|]. apply IH. lia.
Qed.

Lemma unique_ids_dup l : ¬ NoDup l → unique_ids l = false.
Proof.
  intros H. destruct (unique_ids l) eqn:E; [|reflexivity].
  exfalso. exact (H (unique_ids_true l E)).
Qed.

Lemma ids_exist_missing (current req : list string) :
  ¬ (∀ id, id ∈ req → id ∈ current) →
  forallb (fun elem => bool_decide (elem ∈ current)) req = false.
Proof.
  intros H. destruct (forallb _ req) eqn:E; [|reflexivity].
  exfalso. apply H. intros id Hid. rewrite forallb_forall in E.
  apply (proj1 (bool_decide_eq_true _)). apply E. apply list_elem_of_In. exact Hid.
Qed.

(** C6, as the code has it. A non-admin caller asks to delete a list of
    ids of which one names a reservation of the block that is not the
    caller's. The handler ends with an exception and the store is as it
    was, so no reservation is removed, the caller's own included: the
    checks of duplicates, of existence and of ownership all come before
    the first removal. The exception is the 403 of the ownership check
    when the list has no duplicate and names only reservations of the
    block; it is the 400 of the duplicate check when the list names an
    id twice, and the 400 of the existence check when the list has no
    duplicate and names an id that is not of the block. *)
Theorem delete_block_reservations_not_owner
    ctx space block req st target_space i target_block :
  head (spaces_named space st) = Some target_space →
  find_block (s_blocks target_space) block = Some (i, target_block) →
  is_admin ctx = false →
  (∃ r, r ∈ b_resv target_block ∧ r_id r ∈ req ∧ r_userId r ≠ user_name ctx) →
  (∃ e, delete_block_reservations ctx space block req st = (Raise e, st))
  ∧ (NoDup req →
     (∀ id, id ∈ req → id ∈ map r_id (b_resv target_block)) →
     delete_block_reservations ctx space block req st
     = (Raise (HTTPException 403 "Users can only delete their own reservations."), st))
  ∧ (¬ NoDup req →
     delete_block_reservations ctx space block req st
     = (Raise (HTTPException 400 "List contains one or more duplicate id's."), st))
  ∧ (NoDup req →
     ¬ (∀ id, id ∈ req → id ∈ map r_id (b_resv target_block)) →
     delete_block_reservations ctx space block req st
     = (Raise (HTTPException 400 "List contains one or more invalid id's."), st)).
Proof.
  intros Hsp Hblk Hadm (r & Hr & Hreq & Hown).
  assert (Hno : (0 <? length (filter (fun x => r_id x ∈ req ∧ r_userId x ≠ user_name ctx)
                                (b_resv target_block)))%nat = true).
  { apply Nat.ltb_lt.
    assert (Hin : r ∈ filter (fun x => r_id x ∈ req ∧ r_userId x ≠ user_name ctx)
                      (b_resv target_block))
      by (apply list_elem_of_filter; auto).
    destruct (filter _ (b_resv target_block)); [inversion Hin|cbn; lia]. }
  unfold delete_block_reservations, bind, cosmos_query, first_space, target_block_of.
  destruct (spaces_named space st) as [|s rest]; [discriminate|].
  injection Hsp as ->. cbv beta iota delta [Ok ret]. rewrite Hblk.
  cbv beta iota delta [raise_if]. rewrite Hadm, Hno. split.
  - destruct (unique_ids req); cbn [negb andb]; [|eexists; reflexivity].
    cbv beta iota delta [ret].
    destruct (forallb _ req); cbn [negb]; eexists; reflexivity.
  - split; [|split].
    + intros Hnd Hex. rewrite (unique_ids_NoDup req Hnd).
      rewrite (ids_exist_all _ req Hex). reflexivity.
    + intros Hdup. rewrite (unique_ids_dup req Hdup). reflexivity.
    + intros Hnd Hmiss. rewrite (unique_ids_NoDup req Hnd).
      rewrite (ids_exist_missing _ req Hmiss). reflexivity.
Qed.

(** Scenario E: alice, not an admin, asks to delete her reservation
    and bob's. *)
Lemma delete_block_reservations_not_owner_witness :
  delete_block_reservations alice_ctx "prod" "core" ["resA"; "resB"] shared_store
  = (Raise (HTTPException 403 "Users can only delete their own reservations."),
     shared_store).
Proof.
  refine (proj1 (proj2 (delete_block_reservations_not_owner alice_ctx "prod" "core"
                          ["resA"; "resB"] shared_store
                          (prod_space [resv_alice; resv_bob]) 0
                          (core_block [resv_alice; resv_bob]) _ _ _ _)) _ _).
  - vm_compute; reflexivity.
  - vm_compute; reflexivity.
  - reflexivity.
  - exists resv_bob. split; [|split].
    + right. left.
    + right. left.
    + discriminate.
  - repeat constructor; rewrite ?list_elem_of_In; cbn; intuition discriminate.
  - intros id Hid. apply list_elem_of_In in Hid. apply list_elem_of_In. cbn in *.
    intuition.
Defined.

(** C6 as stated fails: alice, not an admin, names bob's reservation
    twice. The list holds a reservation she does not own, yet the
    handler ends with the 400 of the duplicate check, not with the 403
    of the ownership check. *)
Lemma delete_duplicate_ids_not_PermissionError :
  is_admin alice_ctx = false
  ∧ (∃ r, r ∈ [resv_alice; resv_bob] ∧ r_id r ∈ ["resB"; "resB"]
          ∧ r_userId r ≠ user_name alice_ctx)
  ∧ delete_block_reservations alice_ctx "prod" "core" ["resB"; "resB"] shared_store
    = (Raise (HTTPException 400 "List contains one or more duplicate id's."),
       shared_store)
  ∧ fst (delete_block_reservations alice_ctx "prod" "core" ["resB"; "resB"] shared_store)
    ≠ Raise (HTTPException 403 "Users can only delete their own reservations.").
Proof.
  split; [reflexivity|]. split.
  - exists resv_bob. split; [right; left|]. split; [left|discriminate].
  - split; [vm_compute; reflexivity|]. vm_compute. discriminate.
Qed.

(** ** Overlap checks *)

Lemma disjoint_sym m n : netaddr.disjoint m n → netaddr.disjoint n m.
Proof. unfold netaddr.disjoint. tauto. Qed.

(** An empty intersection of two sets of networks: every network of
    the one is disjoint from every network of the other. *)
Lemma no_overlap_disjoint l1 l2 x y :
  Forall netaddr.wf_net l1 → Forall netaddr.wf_net l2 →
  netaddr.nonempty (netaddr.inter (netaddr.mkIPSet l1) (netaddr.mkIPSet l2)) = false →
  x ∈ l1 → y ∈ l2 → netaddr.disjoint x y.
Proof.
  intros H1 H2 Hno Hx Hy.
  pose proof (proj1 (Forall_forall _ _) H1 x Hx) as [_ Hpx].
  pose proof (proj1 (Forall_forall _ _) H2 y Hy) as [_ Hpy].
  pose proof (netaddr_facts.first_le_last x Hpx) as Hxx.
  pose proof (netaddr_facts.first_le_last y Hpy) as Hyy.
  unfold netaddr.disjoint.
  destruct (Z_lt_dec (netaddr.last x) (netaddr.first y)) as [|Hn1]; [left; assumption|].
  destruct (Z_lt_dec (netaddr.last y) (netaddr.first x)) as [|Hn2]; [right; assumption|].
  exfalso. set (a := Z.max (netaddr.first x) (netaddr.first y)).
  pose proof (netaddr_facts.nonempty_false _ a Hno) as Ha.
  rewrite (netaddr_facts.contains_inter _ _ a
             (netaddr_facts.valid_mkIPSet _ H1) (netaddr_facts.valid_mkIPSet _ H2)) in Ha.
  rewrite (netaddr_facts.contains_mkIPSet _ a H1) in Ha.
  rewrite (netaddr_facts.contains_mkIPSet _ a H2) in Ha.
  assert (E1 : existsb (fun n => netaddr.net_mem n a) l1 = true).
  { apply existsb_exists. exists x. split; [apply list_elem_of_In; exact Hx|].
    apply netaddr_facts.net_mem_iff. subst a. lia. }
  assert (E2 : existsb (fun n => netaddr.net_mem n a) l2 = true).
  { apply existsb_exists. exists y. split; [apply list_elem_of_In; exact Hy|].
    apply netaddr_facts.net_mem_iff. subst a. lia. }
  rewrite E1, E2 in Ha. discriminate.
Qed.

Lemma pairwise_disjoint_delete i : ∀ l,
  pairwise_disjoint l → pairwise_disjoint (delete i l).
Proof.
  induction i as [|i IH]; intros [|c l] H; cbn in *; try tauto.
  destruct H as [Hc Hl]. split; [apply Forall_delete; exact Hc|apply IH; exact Hl].
Qed.

Lemma pairwise_disjoint_snoc l x :
  pairwise_disjoint l → Forall (netaddr.disjoint x) l → pairwise_disjoint (l ++ [x]).
Proof.
  induction l as [|c l IH]; intros Hl Hx; cbn in *.
  - split; [constructor|exact I].
  - destruct Hl as [Hc Hl]. inversion Hx as [|? ? Hxc Hxl]; subst. split.
    + apply Forall_app. split; [exact Hc|]. constructor; [|constructor].
      apply disjoint_sym. exact Hxc.
    + apply IH; assumption.
Qed.

Lemma map_b_cidr_alter (f : Block → Block) i l :
  (∀ b, b_cidr (f b) = b_cidr b) → map b_cidr (alter f i l) = map b_cidr l.
Proof.
  intros Hf. revert i. induction l as [|b l IH]; intros [|i]; cbn; try reflexivity.
  - rewrite Hf. reflexivity.
  - f_equal. apply IH.
Qed.

(** ** Successful runs of the handlers *)

Lemma cosmos_replace_Ok_inv old new st u st' :
  cosmos_replace old new st = (inr u, st') →
  ∃ j d, list_find (fun s => s_id s = s_id old) st = Some (j, d) ∧ st' = <[j := new]> st.
Proof.
  unfold cosmos_replace. destruct (list_find _ st) as [[j d]|]; [|discriminate].
  intros [= _ <-]. eauto.
Qed.

(** Peels the steps of a successful run down to its write. *)
Ltac peel_step H :=
  lazymatch type of H with
  | cosmos_query _ _ = _ => unfold cosmos_query in H; injection H as <- <-
  | cosmos_query_all _ = _ => unfold cosmos_query_all in H; injection H as <- <-
  | first_space _ _ = _ =>
      let Hh := fresh "Hhead" in apply first_space_Ok in H; destruct H as [Hh ->]
  | target_block_of _ _ _ = _ =>
      let Hf := fresh "Hfind" in apply target_block_of_Ok in H; destruct H as [Hf ->]
  | admin_only _ _ _ = _ =>
      let Hc := fresh "Hadmin" in
      unfold admin_only in H; apply raise_if_Ok in H; destruct H as [Hc ->]
  | raise_if _ _ _ = _ =>
      let Hc := fresh "Hcheck" in apply raise_if_Ok in H; destruct H as [Hc ->]
  | lift _ _ = _ =>
      let Hc := fresh "Hpure" in apply lift_Ok in H; destruct H as [Hc ->]
  | _ => idtac
  end.

Ltac peel H :=
  repeat lazymatch type of H with
  | bind _ _ _ = _ =>
      let a := fresh "a" in let s := fresh "st" in let H1 := fresh "Hstep" in
      apply bind_Ok in H; destruct H as (a & s & H1 & H); peel_step H1
  | (let '(_, _) := ?p in _) _ = _ => destruct p
  end.

Lemma replaces_intro st st' target new space u :
  head (spaces_named space st) = Some target → s_id new = s_id target →
  cosmos_replace target new st = (inr u, st') → replaces st st' target new.
Proof.
  intros Hh Hid Hr. destruct u. split; [|split]; try assumption.
  exact (head_spaces_named_elem _ _ _ Hh).
Qed.

Lemma same_ranges_alter (f : Block → Block) i target :
  (∀ b, b_cidr (f b) = b_cidr b) → same_ranges target (set_s_blocks (alter f i) target).
Proof.
  intros Hf. split; [reflexivity|]. cbn [set_s_blocks s_blocks].
  apply map_b_cidr_alter. exact Hf.
Qed.

(** Closes the goal left by [peel] for a handler that updates one
    block of the space in place. *)
Ltac finish_alter Hhead Hstep :=
  eexists _, _; split;
  [ refine (replaces_intro _ _ _ _ _ _ Hhead _ Hstep); reflexivity
  | apply same_ranges_alter; reflexivity ].

Lemma create_block_reservation_Ok ctx space block req st out st' :
  create_block_reservation ctx space block req st = (Ok out, st') →
  ∃ target new, replaces st st' target new ∧ same_ranges target new.
Proof.
  intros H. unfold create_block_reservation in H. peel H.
  unfold ret in H. injection H as _ <-. finish_alter Hhead Hstep.
Qed.

Lemma delete_block_reservations_Ok ctx space block req st u st' :
  delete_block_reservations ctx space block req st = (Ok u, st') →
  ∃ target new, replaces st st' target new ∧ same_ranges target new.
Proof.
  intros H. unfold delete_block_reservations in H. peel H.
  finish_alter Hhead H.
Qed.

Lemma delete_block_vnets_Ok ctx space block req st u st' :
  delete_block_vnets ctx space block req st = (Ok u, st') →
  ∃ target new, replaces st st' target new ∧ same_ranges target new.
Proof.
  intros H. unfold delete_block_vnets in H. peel H.
  finish_alter Hhead H.
Qed.

Lemma update_block_vnets_Ok ctx space block vnets st l st' :
  update_block_vnets ctx space block vnets st = (Ok l, st') →
  ∃ target new, replaces st st' target new ∧ same_ranges target new.
Proof.
  intros H. unfold update_block_vnets in H. peel H.
  unfold ret in H. injection H as _ <-. finish_alter Hhead Hstep.
Qed.

(** Case analysis on the value a run branches on; the branches that
    raise are closed. *)
Ltac case_run H :=
  lazymatch type of H with
  | (match ?x with _ => _ end) _ = _ => destruct x eqn:?; try discriminate H
  end.

Lemma create_multi_block_reservation_Ok ctx space req st out st' :
  create_multi_block_reservation ctx space req st = (Ok out, st') →
  ∃ target new, replaces st st' target new ∧ same_ranges target new.
Proof.
  intros H. unfold create_multi_block_reservation in H. peel H.
  repeat case_run H. peel H. unfold ret in H. injection H as _ <-. finish_alter Hhead Hstep.
Qed.

(** What a successful [create_block_vnet] went through: the block, the
    directory entry of the new network, its first prefix inside the
    block, and the overlap check of that prefix against the clipped
    prefixes of the networks already attached. *)
Lemma create_block_vnet_Ok ctx space block vnet st b st' :
  create_block_vnet ctx space block vnet st = (Ok b, st') →
  ∃ target i target_block target_vnet target_cidr,
    head (spaces_named space st) = Some target
    ∧ find_block (s_blocks target) block = Some (i, target_block)
    ∧ find_vnet (vnet_list ctx) (v_id vnet) = Some target_vnet
    ∧ head (prefixes_in (b_cidr target_block) (vi_prefixes target_vnet)) = Some target_cidr
    ∧ netaddr.nonempty
        (netaddr.inter
           (netaddr.mkIPSet
              (flat_map (fun v =>
                           match find_vnet (vnet_list ctx) (v_id v) with
                           | Some target =>
                               prefixes_in (b_cidr target_block) (vi_prefixes target)
                           | None => []
                           end) (b_vnets target_block)))
           (netaddr.mkIPSet [target_cidr])) = false
    ∧ replaces st st' target
        (set_s_blocks
           (alter (set_b_vnets (fun l => l ++ [mkVNet (v_id vnet) true])) i) target).
Proof.
  intros H. unfold create_block_vnet in H. peel H.
  repeat case_run H. peel H. unfold ret in H. injection H as _ <-.
  match type of Hfind with _ = Some (?i, ?tb) => eexists _, i, tb end.
  match goal with
  | Hv : find_vnet _ _ = Some ?v, Hc : head (prefixes_in _ _) = Some ?c |- _ =>
      exists v, c
  end.
  repeat (split; [eassumption || reflexivity|]).
  refine (replaces_intro _ _ _ _ _ _ Hhead _ Hstep). reflexivity.
Qed.

Lemma apply_patch_keeps patch : ∀ s,
  s_id (apply_patch patch s) = s_id s ∧ s_blocks (apply_patch patch s) = s_blocks s.
Proof.
  unfold apply_patch. induction patch as [|item patch IH]; intros s; cbn [fold_left].
  - auto.
  - destruct (IH (apply_op s item)) as [-> ->]. unfold apply_op.
    repeat case_decide; auto.
Qed.

Lemma update_space_Ok ctx space updates st s st' :
  update_space ctx space updates st = (Ok s, st') →
  ∃ target new, replaces st st' target new ∧ s_blocks new = s_blocks target.
Proof.
  intros H. unfold update_space in H. peel H.
  unfold ret in H. injection H as _ <-.
  eexists _, _. split; [|apply apply_patch_keeps].
  refine (replaces_intro _ _ _ _ _ _ Hhead _ Hstep). apply apply_patch_keeps.
Qed.

Lemma create_block_Ok ctx space block st b st' :
  create_block ctx space block st = (Ok b, st') →
  ∃ target,
    netaddr.nonempty
      (netaddr.inter (netaddr.mkIPSet [BlockReq.cidr block])
         (netaddr.mkIPSet (map b_cidr (s_blocks target)))) = false
    ∧ head (spaces_named space st) = Some target
    ∧ b = mkBlock (BlockReq.name block) (BlockReq.cidr block) [] []
    ∧ replaces st st' target (set_s_blocks (fun l => l ++ [b]) target).
Proof.
  intros H. unfold create_block in H. peel H.
  unfold ret in H. injection H as <- <-.
  eexists. repeat (split; [eassumption || reflexivity|]).
  refine (replaces_intro _ _ _ _ _ _ Hhead _ Hstep). reflexivity.
Qed.

Lemma delete_block_Ok ctx space block force st u st' :
  delete_block ctx space block force st = (Ok u, st') →
  ∃ target j,
    replaces st st' target (set_s_blocks (fun _ => delete j (s_blocks target)) target).
Proof.
  intros H. unfold delete_block in H. peel H.
  unfold del_index in Hpure.
  destruct (list_find _ (s_blocks _)) as [[j d]|]; [|discriminate].
  injection Hpure as <-. eexists _, j.
  refine (replaces_intro _ _ _ _ _ _ Hhead _ H). reflexivity.
Qed.

Lemma create_space_Ok ctx space st s st' :
  create_space ctx space st = (Ok s, st') →
  s = mkSpace (fresh_id ctx) (tenant_id ctx) (SpaceReq.name space) (SpaceReq.desc space) []
  ∧ Forall (fun x => lower (s_name x) ≠ lower (SpaceReq.name space)) st
  ∧ cosmos_upsert s st = (Ok tt, st').
Proof.
  intros H. unfold create_space in H. peel H.
  unfold ret in H. injection H as <- <-.
  split; [reflexivity|]. split;
    [|match type of Hstep with _ = (inr ?u, _) => destruct u end; exact Hstep].
  apply bool_decide_eq_false in Hcheck.
  apply (list_find_None (fun x => lower (s_name x) = lower (SpaceReq.name space))).
  destruct (list_find _ st); [|reflexivity].
  exfalso. apply Hcheck. eexists. reflexivity.
Qed.

Lemma delete_space_Ok ctx space force st u st' :
  delete_space ctx space force st = (Ok u, st') → ∃ j, st' = delete j st.
Proof.
  intros H. unfold delete_space in H. peel H.
  unfold cosmos_delete in H. destruct (list_find _ st) as [[j d]|]; [|discriminate].
  injection H as _ <-. eauto.
Qed.

(** ** C8: sibling blocks never overlap *)

Lemma replaces_inv st st' target new :
  replaces st st' target new →
  ∃ j d, list_find (fun s => s_id s = s_id target) st = Some (j, d)
         ∧ st' = <[j := new]> st.
Proof. intros (_ & _ & H). exact (cosmos_replace_Ok_inv _ _ _ _ _ H). Qed.

Lemma replaces_Forall (P : Space → Prop) st st' target new :
  replaces st st' target new → Forall P st → P new → Forall P st'.
Proof.
  intros Hr Hst Hnew. destruct (replaces_inv _ _ _ _ Hr) as (j & d & _ & ->).
  apply Forall_insert; assumption.
Qed.

Lemma replaces_target (P : Space → Prop) st st' target new :
  replaces st st' target new → Forall P st → P target.
Proof.
  intros (Hin & _) Hst. exact (proj1 (Forall_forall _ _) Hst target Hin).
Qed.

(** The successful run behind a request that [handle] accepts. *)
Lemma forget_Ok {A} (c : M A) st st' :
  match c st with
  | (inl e, s) => (inl e, s)
  | (inr _, s) => (inr tt, s)
  end = (Ok tt, st') → ∃ x, c st = (Ok x, st').
Proof. destruct (c st) as [[e|x] s]; [discriminate|]. intros [= <-]. eauto. Qed.

(** C8. A successful [create_block] adds a block whose range is
    disjoint from the range of every block the space already has; and
    every mutating request that succeeds on a store whose sibling blocks
    are pairwise disjoint leaves a store whose sibling blocks are
    pairwise disjoint. The CIDRs are well-formed IPv4 networks, in the
    store and in the request, and they stay so. *)
Theorem sibling_blocks_never_overlap ctx r st st' :
  blocks_wf st → request_wf r → blocks_disjoint st →
  handle ctx r st = (Ok tt, st') →
  (∀ space block target,
     r = CreateBlock space block → head (spaces_named space st) = Some target →
     Forall (netaddr.disjoint (BlockReq.cidr block)) (map b_cidr (s_blocks target)))
  ∧ blocks_disjoint st' ∧ blocks_wf st'.
Proof.
  intros Hwf Hreq Hdis Hrun.
  assert (Hsame : ∀ target new,
            replaces st st' target new ∧ same_ranges target new →
            blocks_disjoint st' ∧ blocks_wf st').
  { intros target new [Hr [_ Hc]]. split.
    - apply (replaces_Forall _ _ _ _ _ Hr Hdis). cbv beta. rewrite Hc.
      exact (replaces_target _ _ _ _ _ Hr Hdis).
    - apply (replaces_Forall _ _ _ _ _ Hr Hwf). cbv beta. rewrite Hc.
      exact (replaces_target _ _ _ _ _ Hr Hwf). }
  destruct r; cbn [handle] in Hrun; apply forget_Ok in Hrun; destruct Hrun as [x Hrun];
    try (split; [solve [intros sp blk tg [=]]|]).
  - (* create_space *)
    apply create_space_Ok in Hrun. destruct Hrun as (-> & _ & Hup).
    unfold cosmos_upsert in Hup. destruct (list_find _ st) as [[j d]|];
      injection Hup as <-; split;
      try (apply Forall_insert; [assumption|]); try (apply Forall_app; split; [assumption|]);
      repeat constructor.
  - (* update_space *)
    apply update_space_Ok in Hrun. destruct Hrun as (target & new & Hr & Hb). split.
    + apply (replaces_Forall _ _ _ _ _ Hr Hdis). cbv beta. rewrite Hb.
      exact (replaces_target _ _ _ _ _ Hr Hdis).
    + apply (replaces_Forall _ _ _ _ _ Hr Hwf). cbv beta. rewrite Hb.
      exact (replaces_target _ _ _ _ _ Hr Hwf).
  - (* delete_space *)
    apply delete_space_Ok in Hrun. destruct Hrun as [j ->].
    split; apply Forall_delete; assumption.
  - (* create_block *)
    apply create_block_Ok in Hrun. destruct Hrun as (target & Hno & Hhead & -> & Hr).
    cbn [request_wf] in Hreq.
    pose proof (replaces_target _ _ _ _ _ Hr Hwf) as Hwt.
    pose proof (replaces_target _ _ _ _ _ Hr Hdis) as Hdt. cbv beta in Hwt, Hdt.
    assert (Hnew : Forall (netaddr.disjoint (BlockReq.cidr block))
                     (map b_cidr (s_blocks target))).
    { apply Forall_forall. intros c Hc.
      apply (no_overlap_disjoint [BlockReq.cidr block] (map b_cidr (s_blocks target)));
        [constructor; [exact Hreq|constructor]|exact Hwt|exact Hno|left|exact Hc]. }
    split; [|split].
    + intros sp blk tg [= <- <-] Htg. rewrite Hhead in Htg. injection Htg as <-.
      exact Hnew.
    + apply (replaces_Forall _ _ _ _ _ Hr Hdis). cbn [set_s_blocks s_blocks].
      rewrite map_app. apply pairwise_disjoint_snoc; assumption.
    + apply (replaces_Forall _ _ _ _ _ Hr Hwf). cbn [set_s_blocks s_blocks].
      rewrite map_app. apply Forall_app. split; [exact Hwt|].
      constructor; [exact Hreq|constructor].
  - (* create_multi_block_reservation *)
    apply create_multi_block_reservation_Ok in Hrun.
    destruct Hrun as (target & new & Hr). exact (Hsame _ _ Hr).
  - (* delete_block *)
    apply delete_block_Ok in Hrun. destruct Hrun as (target & j & Hr).
    pose proof (replaces_target _ _ _ _ _ Hr Hwf) as Hwt.
    pose proof (replaces_target _ _ _ _ _ Hr Hdis) as Hdt. cbv beta in Hwt, Hdt.
    split.
    + apply (replaces_Forall _ _ _ _ _ Hr Hdis). cbn [set_s_blocks s_blocks].
      change (map b_cidr (delete j (s_blocks target)))
        with (b_cidr <$> delete j (s_blocks target)).
      rewrite list_fmap_delete. apply pairwise_disjoint_delete. exact Hdt.
    + apply (replaces_Forall _ _ _ _ _ Hr Hwf). cbn [set_s_blocks s_blocks].
      change (map b_cidr (delete j (s_blocks target)))
        with (b_cidr <$> delete j (s_blocks target)).
      rewrite list_fmap_delete. apply Forall_delete. exact Hwt.
  - (* create_block_vnet *)
    apply create_block_vnet_Ok in Hrun.
    destruct Hrun as (target & i & tb & tv & tc & _ & _ & _ & _ & _ & Hr).
    apply (Hsame _ _ (conj Hr (same_ranges_alter (set_b_vnets _) _ _ (fun _ => eq_refl)))).
  - (* update_block_vnets *)
    apply update_block_vnets_Ok in Hrun.
    destruct Hrun as (target & new & Hr). exact (Hsame _ _ Hr).
  - (* delete_block_vnets *)
    apply delete_block_vnets_Ok in Hrun.
    destruct Hrun as (target & new & Hr). exact (Hsame _ _ Hr).
  - (* create_block_reservation *)
    apply create_block_reservation_Ok in Hrun.
    destruct Hrun as (target & new & Hr). exact (Hsame _ _ Hr).
  - (* delete_block_reservations *)
    apply delete_block_reservations_Ok in Hrun.
    destruct Hrun as (target & new & Hr). exact (Hsame _ _ Hr).
Qed.

(** An admin adds [edge = 10.0.1.0/24] to the space that holds
    [core = 10.0.0.0/24]. *)
Lemma sibling_blocks_never_overlap_witness :
  Forall (netaddr.disjoint (cidr 10 0 1 0 24)) [cidr 10 0 0 0 24]
  ∧ blocks_disjoint grown_store.
Proof.
  pose proof (sibling_blocks_never_overlap admin_ctx
                (CreateBlock "prod" (BlockReq.mk "edge" (cidr 10 0 1 0 24)))
                (one_block_store []) grown_store) as H.
  destruct H as (Hnew & Hdis & _).
  - repeat constructor; by_compute.
  - by_compute.
  - repeat constructor.
  - vm_compute; reflexivity.
  - split; [|exact Hdis].
    apply (Hnew "prod" (BlockReq.mk "edge" (cidr 10 0 1 0 24)) (prod_space []) eq_refl).
    vm_compute; reflexivity.
Defined.

(** ** C7: names *)

Lemma NoDup_insert_fresh {A} (l : list A) j x :
  NoDup l → x ∉ l → NoDup (<[j := x]> l).
Proof.
  intros Hl. revert j. induction Hl as [|y l Hy Hl IH]; intros j Hx; [constructor|].
  apply not_elem_of_cons in Hx. destruct Hx as [Hxy Hxl].
  destruct j as [|j].
  - change (NoDup (x :: l)). constructor; assumption.
  - change (NoDup (y :: <[j := x]> l)). constructor; [|apply IH; exact Hxl].
    intros Hin. apply list_elem_of_lookup in Hin. destruct Hin as [k Hk].
    destruct (decide (k = j)) as [->|Hne].
    + destruct (lookup_lt_is_Some_2 l j) as [z Hz];
        [apply lookup_lt_Some in Hk; rewrite length_insert in Hk; exact Hk|].
      rewrite list_lookup_insert_eq in Hk by (eapply lookup_lt_Some; exact Hz).
      congruence.
    + rewrite list_lookup_insert_ne in Hk by congruence.
      apply Hy. eapply list_elem_of_lookup_2. exact Hk.
Qed.

Lemma NoDup_delete {A} (l : list A) j : NoDup l → NoDup (delete j l).
Proof. intros H. exact (sublist_NoDup _ _ H (sublist_delete l j)). Qed.

(** With unique ids, the write of a handler replaces the very document
    it fetched. *)
Lemma replaces_same_doc st st' target new :
  ids_unique st → replaces st st' target new →
  ∃ j, st !! j = Some target ∧ st' = <[j := new]> st.
Proof.
  intros Hid Hr. destruct (replaces_inv _ _ _ _ Hr) as (j & d & Hf & ->).
  destruct Hr as (Hin & _). apply list_find_Some in Hf. destruct Hf as (Hj & Hd & _).
  apply list_elem_of_lookup in Hin. destruct Hin as [k Hk].
  assert (j = k) as ->.
  { apply (NoDup_lookup (map s_id st) j k (s_id target) Hid).
    - change (map s_id st) with (s_id <$> st). rewrite list_lookup_fmap, Hj. cbn.
      f_equal. exact Hd.
    - change (map s_id st) with (s_id <$> st). rewrite list_lookup_fmap, Hk. reflexivity. }
  exists k. auto.
Qed.

Lemma replaces_keeps {B} (f : Space → B) st st' target new :
  ids_unique st → replaces st st' target new → f new = f target →
  map f st' = map f st.
Proof.
  intros Hid Hr Hf. destruct (replaces_same_doc _ _ _ _ Hid Hr) as (j & Hj & ->).
  change (f <$> <[j := new]> st = f <$> st). rewrite list_fmap_insert.
  apply list_insert_id. rewrite list_lookup_fmap, Hj, Hf. reflexivity.
Qed.

(** C7, as the code has it. Every mutating request other than
    [update_space] that succeeds on a store whose space names are
    unique, whatever the case, leaves a store whose space names are
    unique: [create_space] rejects a name that is taken, and the other
    handlers write a space back under the name it had. Document ids are
    unique in the store, and stay so. *)
Theorem space_names_stay_unique ctx r st st' :
  ids_unique st → space_names_unique st →
  (∀ space updates, r ≠ UpdateSpace space updates) →
  handle ctx r st = (Ok tt, st') →
  space_names_unique st' ∧ ids_unique st'.
Proof.
  intros Hid Hnames Hr Hrun. unfold space_names_unique, ids_unique in *.
  assert (Hkeep : ∀ target new,
            replaces st st' target new → s_name new = s_name target →
            NoDup (map (fun s => lower (s_name s)) st') ∧ NoDup (map s_id st')).
  { intros target new Hrep Hn.
    rewrite (replaces_keeps (fun s => lower (s_name s)) _ _ _ _ Hid Hrep)
      by (cbv beta; rewrite Hn; reflexivity).
    rewrite (replaces_keeps s_id _ _ _ _ Hid Hrep) by (apply Hrep).
    auto. }
  destruct r; cbn [handle] in Hrun; apply forget_Ok in Hrun; destruct Hrun as [x Hrun].
  - (* create_space *)
    apply create_space_Ok in Hrun. destruct Hrun as (-> & Hfresh & Hup).
    set (new := mkSpace _ _ _ _ _) in *.
    assert (Hn : lower (s_name new) ∉ map (fun s => lower (s_name s)) st).
    { intros Hin. apply list_elem_of_fmap in Hin. destruct Hin as (s & Hs & Hin).
      exact (proj1 (Forall_forall _ _) Hfresh s Hin (eq_sym Hs)). }
    unfold cosmos_upsert in Hup.
    destruct (list_find _ st) as [[j d]|] eqn:Ef; injection Hup as <-.
    + apply list_find_Some in Ef. destruct Ef as (Hj & Hd & _). split.
      * change (NoDup ((fun s => lower (s_name s)) <$> <[j := new]> st)).
        rewrite list_fmap_insert. apply NoDup_insert_fresh; assumption.
      * change (NoDup (s_id <$> <[j := new]> st)). rewrite list_fmap_insert.
        rewrite list_insert_id; [exact Hid|].
        rewrite list_lookup_fmap, Hj. cbn. f_equal. exact Hd.
    + rewrite !map_app. split; apply NoDup_app; (split; [assumption|]);
        (split; [|apply NoDup_singleton]); intros y Hy Hy';
        apply list_elem_of_singleton in Hy'; subst y.
      * exact (Hn Hy).
      * apply list_elem_of_fmap in Hy. destruct Hy as (s & Hs & Hin).
        apply (list_find_None (fun s => s_id s = s_id new)) in Ef.
        exact (proj1 (Forall_forall _ _) Ef s Hin (eq_sym Hs)).
  - (* update_space *)
    exfalso. exact (Hr _ _ eq_refl).
  - (* delete_space *)
    apply delete_space_Ok in Hrun. destruct Hrun as [j ->]. split.
    + change (NoDup ((fun s => lower (s_name s)) <$> delete j st)).
      rewrite list_fmap_delete. apply NoDup_delete. exact Hnames.
    + change (NoDup (s_id <$> delete j st)).
      rewrite list_fmap_delete. apply NoDup_delete. exact Hid.
  - apply create_block_Ok in Hrun. destruct Hrun as (target & _ & _ & _ & Hrep).
    exact (Hkeep _ _ Hrep eq_refl).
  - apply create_multi_block_reservation_Ok in Hrun.
    destruct Hrun as (target & new & Hrep & Hn & _). exact (Hkeep _ _ Hrep Hn).
  - apply delete_block_Ok in Hrun. destruct Hrun as (target & j & Hrep).
    exact (Hkeep _ _ Hrep eq_refl).
  - apply create_block_vnet_Ok in Hrun.
    destruct Hrun as (target & i & tb & tv & tc & _ & _ & _ & _ & _ & Hrep).
    exact (Hkeep _ _ Hrep eq_refl).
  - apply update_block_vnets_Ok in Hrun.
    destruct Hrun as (target & new & Hrep & Hn & _). exact (Hkeep _ _ Hrep Hn).
  - apply delete_block_vnets_Ok in Hrun.
    destruct Hrun as (target & new & Hrep & Hn & _). exact (Hkeep _ _ Hrep Hn).
  - apply create_block_reservation_Ok in Hrun.
    destruct Hrun as (target & new & Hrep & Hn & _). exact (Hkeep _ _ Hrep Hn).
  - apply delete_block_reservations_Ok in Hrun.
    destruct Hrun as (target & new & Hrep & Hn & _). exact (Hkeep _ _ Hrep Hn).
Qed.

(** An admin creates the space [Test2] next to [prod] and [test]. *)
Lemma space_names_stay_unique_witness :
  space_names_unique
    (two_space_store ++ [mkSpace "res9" "t1" "Test2" "second" []]).
Proof.
  refine (proj1 (space_names_stay_unique admin_ctx
                   (CreateSpace (SpaceReq.mk "Test2" "second")) two_space_store _
                   _ _ _ _)).
  - vm_compute. repeat constructor; rewrite ?list_elem_of_In; cbn; intuition discriminate.
  - vm_compute. repeat constructor; rewrite ?list_elem_of_In; cbn; intuition discriminate.
  - discriminate.
  - vm_compute; reflexivity.
Defined.

(** C7 as stated fails twice over. [create_block] checks the range of
    the new block and not its name: a second block named [CORE] is
    accepted next to [core]. [update_space] applies a rename without
    looking at the other spaces: [test] is renamed to [PROD] next to
    [prod]. *)
Lemma names_not_kept_unique :
  (Forall block_names_unique (one_block_store [])
   ∧ ∃ st', handle admin_ctx (CreateBlock "prod" (BlockReq.mk "CORE" (cidr 10 0 1 0 24)))
              (one_block_store []) = (Ok tt, st')
            ∧ ¬ Forall block_names_unique st')
  ∧ (space_names_unique two_space_store
     ∧ ∃ st', handle admin_ctx
                (UpdateSpace "test" [PatchOp.mk "replace" "/name" "PROD"])
                two_space_store = (Ok tt, st')
              ∧ ¬ space_names_unique st').
Proof.
  split; split.
  - vm_compute. repeat constructor; rewrite ?list_elem_of_In; cbn; intuition discriminate.
  - eexists. split; [vm_compute; reflexivity|].
    intros H. apply Forall_cons_1 in H. destruct H as [H _]. vm_compute in H.
    apply NoDup_cons_1_1 in H. apply H. left.
  - vm_compute. repeat constructor; rewrite ?list_elem_of_In; cbn; intuition discriminate.
  - eexists. split; [vm_compute; reflexivity|].
    intros H. vm_compute in H. apply NoDup_cons_1_1 in H. apply H. left.
Qed.

(** ** C9: attaching a network *)

Lemma find_vnet_elem vnets id v : find_vnet vnets id = Some v → v ∈ vnets.
Proof.
  unfold find_vnet. destruct (list_find _ vnets) as [[j w]|] eqn:E; [|discriminate].
  intros [= <-]. apply list_find_Some in E. destruct E as (Hj & _).
  eapply list_elem_of_lookup_2. exact Hj.
Qed.

Lemma prefixes_in_elem block_cidr prefixes p :
  p ∈ prefixes_in block_cidr prefixes → p ∈ prefixes.
Proof. unfold prefixes_in. intros H. apply list_elem_of_filter in H. tauto. Qed.

(** C9, as the code has it. A successful [create_block_vnet] has
    checked one prefix of the new network, the first that lies within
    the block's range: that prefix is disjoint from every clipped prefix
    of every network already attached to the block. The prefixes of the
    directory are well-formed IPv4 networks. *)
Theorem create_block_vnet_first_prefix
    ctx space block vnet st b st' target i target_block target_vnet :
  Forall (fun v => Forall netaddr.wf_net (vi_prefixes v)) (vnet_list ctx) →
  head (spaces_named space st) = Some target →
  find_block (s_blocks target) block = Some (i, target_block) →
  find_vnet (vnet_list ctx) (v_id vnet) = Some target_vnet →
  create_block_vnet ctx space block vnet st = (Ok b, st') →
  ∃ target_cidr,
    head (prefixes_in (b_cidr target_block) (vi_prefixes target_vnet)) = Some target_cidr
    ∧ ∀ v attached p,
        v ∈ b_vnets target_block →
        find_vnet (vnet_list ctx) (v_id v) = Some attached →
        p ∈ prefixes_in (b_cidr target_block) (vi_prefixes attached) →
        netaddr.disjoint target_cidr p.
Proof.
  intros Hwf Hsp Hblk Hv Hrun. apply create_block_vnet_Ok in Hrun.
  destruct Hrun as (t & j & tb & tv & tc & Hsp' & Hblk' & Hv' & Hc & Hno & _).
  rewrite Hsp in Hsp'. injection Hsp' as <-.
  rewrite Hblk in Hblk'. injection Hblk' as <- <-.
  rewrite Hv in Hv'. injection Hv' as <-.
  exists tc. split; [exact Hc|]. intros v attached p Hin Hfa Hp.
  assert (Hdir : ∀ w q, w ∈ vnet_list ctx → q ∈ vi_prefixes w → netaddr.wf_net q).
  { intros w q Hw Hq.
    exact (proj1 (Forall_forall _ _) (proj1 (Forall_forall _ _) Hwf w Hw) q Hq). }
  apply disjoint_sym.
  eapply (no_overlap_disjoint _ [tc] p tc); [| |exact Hno| |left].
  - apply Forall_forall. intros q Hq. apply list_elem_of_In, in_flat_map in Hq.
    destruct Hq as (w & _ & Hq).
    destruct (find_vnet (vnet_list ctx) (v_id w)) as [tw|] eqn:Ew; [|inversion Hq].
    apply list_elem_of_In in Hq.
    exact (Hdir tw q (find_vnet_elem _ _ _ Ew) (prefixes_in_elem _ _ _ Hq)).
  - constructor; [|constructor].
    apply head_Some_elem_of in Hc.
    exact (Hdir target_vnet tc (find_vnet_elem _ _ _ Hv) (prefixes_in_elem _ _ _ Hc)).
  - apply list_elem_of_In, in_flat_map. exists v.
    split; [apply list_elem_of_In; exact Hin|]. rewrite Hfa.
    apply list_elem_of_In. exact Hp.
Qed.

(** An admin attaches [vnet3], whose prefix [10.0.2.0/24] is clear of
    the prefix [10.0.1.0/24] of [vnet1]. *)
Lemma create_block_vnet_first_prefix_witness :
  netaddr.disjoint (cidr 10 0 2 0 24) (cidr 10 0 1 0 24).
Proof.
  destruct (create_block_vnet_first_prefix vnet_ctx "prod" "wide" (mkVNet "vnet3" false)
              wide_store
              (set_b_vnets (fun l => l ++ [mkVNet "vnet3" true]) wide_block)
              [mkSpace "id1" "t1" "prod" "production"
                 [set_b_vnets (fun l => l ++ [mkVNet "vnet3" true]) wide_block]]
              (mkSpace "id1" "t1" "prod" "production" [wide_block]) 0 wide_block
              vnet3_info) as (tc & Hc & Hall).
  - repeat constructor; by_compute.
  - vm_compute; reflexivity.
  - vm_compute; reflexivity.
  - vm_compute; reflexivity.
  - vm_compute; reflexivity.
  - vm_compute in Hc. injection Hc as <-.
    apply (Hall (mkVNet "vnet1" true) vnet1_info (cidr 10 0 1 0 24)).
    + left.
    + vm_compute; reflexivity.
    + vm_compute. left.
Defined.

(** C9 as stated fails: [vnet2] has two prefixes within the block,
    [10.0.0.0/24] and [10.0.1.0/24]. The handler checks the first one
    only and attaches the network, though the second is the prefix of
    [vnet1], attached already. *)
Lemma second_prefix_overlaps :
  (∃ b st', create_block_vnet vnet_ctx "prod" "wide" (mkVNet "vnet2" false) wide_store
            = (Ok b, st'))
  ∧ cidr 10 0 1 0 24 ∈ prefixes_in (b_cidr wide_block) (vi_prefixes vnet2_info)
  ∧ cidr 10 0 1 0 24 ∈ prefixes_in (b_cidr wide_block) (vi_prefixes vnet1_info)
  ∧ ¬ netaddr.disjoint (cidr 10 0 1 0 24) (cidr 10 0 1 0 24).
Proof.
  split; [eexists _, _; vm_compute; reflexivity|].
  split; [vm_compute; right; left|]. split; [vm_compute; left|].
  vm_compute. intros [H|H]; discriminate H.
Qed.

(** ** C10: deleting a block by a name in another case *)

(** C10, as the code has it. [delete_block] looks the block up by its
    name whatever the case, then computes the index to delete by exact
    comparison. When the given name matches a stored block up to case
    and no block of the space bears it exactly, the lookup finds the
    block, the index is [None], and [del] faults with [TypeError];
    unless an earlier guard has already refused the request (the caller
    is no admin, or the block is not empty and [force] is unset). In
    every case the handler ends with an exception and the store is as
    it was: no block is removed. *)
Theorem delete_block_case_mismatch ctx space block force st target i target_block :
  head (spaces_named space st) = Some target →
  find_block (s_blocks target) block = Some (i, target_block) →
  (∀ b, b ∈ s_blocks target → b_name b ≠ block) →
  delete_block ctx space block force st
  = (Raise
       (if negb (is_admin ctx)
        then HTTPException 403 "This API is admin restricted."
        else if negb force && ((0 <? length (b_vnets target_block))%nat
                               || (0 <? length (b_resv target_block))%nat)
        then HTTPException 400
               "Cannot delete block while it contains vNets or reservations."
        else TypeError), st).
Proof.
  intros Hsp Hblk Hexact.
  assert (Hidx : list_find (fun item => b_name item = block) (s_blocks target) = None).
  { apply list_find_None, Forall_forall. exact Hexact. }
  unfold delete_block, bind, admin_only, raise_if, cosmos_query, first_space,
    target_block_of.
  destruct (negb (is_admin ctx)); [reflexivity|].
  cbv beta iota delta [ret Ok].
  destruct (spaces_named space st) as [|s rest]; [discriminate|].
  injection Hsp as ->. cbv beta iota. rewrite Hblk. cbv beta iota delta [snd].
  destruct (negb force && _); [reflexivity|].
  cbv beta iota. rewrite Hidx. reflexivity.
Qed.

(** An admin asks to delete the empty block [core] under the name
    [CORE]. *)
Lemma delete_block_case_mismatch_witness :
  delete_block admin_ctx "prod" "CORE" false (one_block_store [])
  = (Raise TypeError, one_block_store []).
Proof.
  apply (delete_block_case_mismatch admin_ctx "prod" "CORE" false (one_block_store [])
           (prod_space []) 0 (core_block [])).
  - vm_compute; reflexivity.
  - vm_compute; reflexivity.
  - intros b Hb. apply list_elem_of_singleton in Hb. subst b. discriminate.
Defined.

(** C10 as stated fails: the space has the blocks [CORE] and [core],
    and an admin asks to delete [core]. The name matches the stored
    [CORE] up to case and not exactly, and [CORE] is the block the
    lookup finds; yet the index computed by exact comparison is that of
    [core], so the request succeeds and the block [core] is removed. *)
Lemma delete_block_exact_sibling_removed :
  (∃ b, b ∈ [upper_block; core_block []]
        ∧ lower (b_name b) = lower "core" ∧ b_name b ≠ "core")
  ∧ find_block [upper_block; core_block []] "core" = Some (0%nat, upper_block)
  ∧ delete_block admin_ctx "prod" "core" false twin_store
    = (Ok tt, [mkSpace "id1" "t1" "prod" "production" [upper_block]]).
Proof.
  split; [|split].
  - exists upper_block. split; [left|]. split; [vm_compute; reflexivity|discriminate].
  - vm_compute; reflexivity.
  - vm_compute; reflexivity.
Qed.

(** * Further properties of the handlers *)

(** ** A handler that raises has written nothing *)

Lemma reads_ret {A} (a : A) : reads (ret a).
Proof. intros st r st' [= _ <-]. reflexivity. Qed.

Lemma reads_raise {A} (e : exn) : reads (@raise A e).
Proof. intros st r st' [= _ <-]. reflexivity. Qed.

Lemma reads_lift {A} (r : result A) : reads (lift r).
Proof. intros st r' st' [= _ <-]. reflexivity. Qed.

Lemma reads_raise_if cond e : reads (raise_if cond e).
Proof. destruct cond; [apply reads_raise|apply reads_ret]. Qed.

Lemma reads_admin_only ctx detail : reads (admin_only ctx detail).
Proof. apply reads_raise_if. Qed.

Lemma reads_cosmos_query space : reads (cosmos_query space).
Proof. intros st r st' [= _ <-]. reflexivity. Qed.

Lemma reads_cosmos_query_all : reads cosmos_query_all.
Proof. intros st r st' [= _ <-]. reflexivity. Qed.

Lemma reads_first_space space_query : reads (first_space space_query).
Proof. destruct space_query; [apply reads_raise|apply reads_ret]. Qed.

Lemma reads_target_block_of target_space block :
  reads (target_block_of target_space block).
Proof.
  unfold target_block_of. destruct (find_block _ _); [apply reads_ret|apply reads_raise].
Qed.

Lemma total_ret {A} (a : A) : total (ret a).
Proof. intros st e st'. discriminate. Qed.

Lemma fails_clean_reads {A} (c : M A) : reads c → fails_clean c.
Proof. intros H st e st' Hc. exact (H _ _ _ Hc). Qed.

Lemma fails_clean_bind {A B} (c : M A) (k : A → M B) :
  reads c → (∀ a, fails_clean (k a)) → fails_clean (bind c k).
Proof.
  intros Hc Hk st e st'. unfold bind.
  destruct (c st) as [[e1|a] st1] eqn:E; pose proof (Hc _ _ _ E) as ->.
  - intros [= _ <-]. reflexivity.
  - apply Hk.
Qed.

(** A write followed by steps that cannot raise. *)
Lemma fails_clean_write {A B} (c : M A) (k : A → M B) :
  fails_clean c → (∀ a, total (k a)) → fails_clean (bind c k).
Proof.
  intros Hc Hk st e st'. unfold bind.
  destruct (c st) as [[e1|a] st1] eqn:E.
  - intros [= _ <-]. exact (Hc _ _ _ E).
  - intros H. exfalso. exact (Hk a _ _ _ H).
Qed.

Lemma fails_clean_cosmos_replace old new : fails_clean (cosmos_replace old new).
Proof.
  intros st e st'. unfold cosmos_replace.
  destruct (list_find _ st) as [[j d]|]; [discriminate|]. intros [= _ <-]. reflexivity.
Qed.

Lemma fails_clean_cosmos_upsert new : fails_clean (cosmos_upsert new).
Proof.
  intros st e st'. unfold cosmos_upsert.
  destruct (list_find _ st) as [[j d]|]; discriminate.
Qed.

Lemma fails_clean_cosmos_delete old : fails_clean (cosmos_delete old).
Proof.
  intros st e st'. unfold cosmos_delete.
  destruct (list_find _ st) as [[j d]|]; [discriminate|]. intros [= _ <-]. reflexivity.
Qed.

(** Walks down a handler: reading steps, then one write. *)
Ltac clean_steps :=
  repeat first
    [ apply fails_clean_bind;
      [ first [ apply reads_admin_only | apply reads_cosmos_query
              | apply reads_cosmos_query_all | apply reads_first_space
              | apply reads_target_block_of | apply reads_raise_if
              | apply reads_lift ]
      | intros ? ]
    | apply fails_clean_write;
      [ first [ apply fails_clean_cosmos_replace | apply fails_clean_cosmos_upsert
              | apply fails_clean_cosmos_delete ]
      | intros ?; apply total_ret ]
    | apply fails_clean_cosmos_replace
    | apply fails_clean_cosmos_delete
    | apply fails_clean_reads; apply reads_raise
    | match goal with
      | |- fails_clean (let '(_, _) := ?p in _) => destruct p
      | |- fails_clean (match ?x with _ => _ end) => destruct x
      end ].

(** X1. A mutating request that ends with an exception leaves the store
    exactly as it was: each handler validates on what it fetched and
    writes once, at its end. *)
Theorem failed_request_writes_nothing ctx r st e st' :
  handle ctx r st = (Raise e, st') → st' = st.
Proof.
  assert (Hforget : ∀ A (c : M A), fails_clean c →
            match c st with
            | (inl e0, s) => (inl e0, s)
            | (inr _, s) => (inr tt, s)
            end = (@Raise unit e, st') → st' = st).
  { intros A c Hc. destruct (c st) as [[e0|x] s] eqn:E; [|discriminate].
    intros [= _ <-]. exact (Hc _ _ _ E). }
  destruct r; cbn [handle]; apply Hforget.
  - unfold create_space. clean_steps.
  - unfold update_space. clean_steps.
  - unfold delete_space. clean_steps.
  - unfold create_block. clean_steps.
  - unfold create_multi_block_reservation. clean_steps.
  - unfold delete_block. clean_steps.
  - unfold create_block_vnet. clean_steps.
  - unfold update_block_vnets. clean_steps.
  - unfold delete_block_vnets. clean_steps.
  - unfold create_block_reservation. clean_steps.
  - unfold delete_block_reservations. clean_steps.
Qed.

(** ** The allocator: when it succeeds and what it picks *)

Lemma fold_left_max_spec xs : ∀ a,
  (fold_left Z.max xs a = a ∨ fold_left Z.max xs a ∈ xs)
  ∧ a <= fold_left Z.max xs a
  ∧ ∀ x, x ∈ xs → x <= fold_left Z.max xs a.
Proof.
  induction xs as [|y xs IH]; intros a; cbn [fold_left].
  - split; [left; reflexivity|]. split; [lia|]. intros x Hx. inversion Hx.
  - destruct (IH (Z.max a y)) as (Hin & Hle & Hall). split; [|split].
    + destruct Hin as [Hin|Hin]; [|right; right; exact Hin].
      rewrite Hin. destruct (Z.max_spec a y) as [[_ ->]|[_ ->]]; [right; left|left; reflexivity].
    + lia.
    + intros x Hx. apply elem_of_cons in Hx. destruct Hx as [->|Hx]; [lia|auto].
Qed.

(** [max] of a sequence: one of its members, and no member is larger. *)
Lemma py_max_Ok xs m : py_max xs = Ok m → m ∈ xs ∧ ∀ x, x ∈ xs → x <= m.
Proof.
  destruct xs as [|a xs]; [discriminate|]. intros [= <-].
  destruct (fold_left_max_spec xs a) as (Hin & Hle & Hall). split.
  - destruct Hin as [->|Hin]; [left|right; exact Hin].
  - intros x Hx. apply elem_of_cons in Hx. destruct Hx as [->|Hx]; [exact Hle|auto].
Qed.

Lemma py_max_nonempty xs x : x ∈ xs → ∃ m, py_max xs = Ok m.
Proof. destruct xs; [inversion 1|]. intros _. eexists. reflexivity. Qed.

Lemma head_nonempty {A} (l : list A) x : x ∈ l → ∃ y, head l = Some y.
Proof. destruct l; [inversion 1|]. intros _. eexists. reflexivity. Qed.

Lemma last_nonempty {A} (l : list A) x : x ∈ l → ∃ y, last l = Some y.
Proof.
  intros Hx. destruct (last l) eqn:E; [eauto|].
  apply last_None in E. subst l. inversion Hx.
Qed.

(** The choice of the free block succeeds as soon as one maximal free
    block is large enough, whatever the flags. *)
Lemma find_available_block_complete size reverse_search smallest_cidr available n :
  n ∈ netaddr.iter_cidrs available → netaddr.prefixlen n <= size →
  ∃ net, find_available_block size reverse_search smallest_cidr available = Ok (Some net).
Proof.
  intros Hn Hle. unfold find_available_block. cbv zeta.
  set (cidr_list := filter (fun x => netaddr.prefixlen x <= size)
                      (available_slicer reverse_search (netaddr.iter_cidrs available))).
  assert (Hin : n ∈ cidr_list).
  { apply list_elem_of_filter. split; [exact Hle|]. apply available_slicer_elem. exact Hn. }
  destruct smallest_cidr.
  - destruct (py_max_nonempty (map netaddr.prefixlen cidr_list) (netaddr.prefixlen n))
      as [m Hm]; [apply list_elem_of_fmap; eauto|].
    rewrite Hm. cbv beta iota delta [rbind Ok]. destruct (py_max_Ok _ _ Hm) as [Hmem _].
    apply list_elem_of_fmap in Hmem. destruct Hmem as (x & Hx & Hxin).
    destruct (head_nonempty (filter (fun network => netaddr.prefixlen network = m) cidr_list) x)
      as [y ->]; [apply list_elem_of_filter; auto|].
    eauto.
  - destruct (head_nonempty cidr_list n Hin) as [y Hy]. fold cidr_list. rewrite Hy. eauto.
Qed.

(** The subnets of a block, when the requested length is at least the
    block's and at most 32: there is one at least, the first starts
    where the block starts, the last ends where the block ends. *)
Lemma next_cidr_complete net size reverse_search :
  0 <= netaddr.prefixlen net <= size → size <= netaddr.width →
  ∃ r, next_cidr net size reverse_search = Ok r
       ∧ (reverse_search = false → netaddr.first r = netaddr.first net)
       ∧ (reverse_search = true → netaddr.last r = netaddr.last net).
Proof.
  intros Hp Hs. unfold next_cidr, netaddr.subnet, netaddr.width in *.
  destruct (Z.leb_spec (netaddr.prefixlen net) size) as [_|]; [|lia]. cbn [negb].
  destruct (Z.ltb_spec 32 size) as [|_]; [lia|]. cbv zeta.
  set (S := 2 ^ (32 - size)).
  assert (HS : 0 < S) by (apply Z.pow_pos_nonneg; lia).
  assert (Hsplit : 2 ^ (32 - netaddr.prefixlen net)
                   = 2 ^ (size - netaddr.prefixlen net) * S).
  { subst S. rewrite <- Z.pow_add_r by lia. f_equal. lia. }
  assert (Hc : 0 < 2 ^ (size - netaddr.prefixlen net)) by (apply Z.pow_pos_nonneg; lia).
  rewrite Hsplit, Z.div_mul by lia.
  set (count := Z.to_nat (2 ^ (size - netaddr.prefixlen net))).
  assert (Hcount : (0 < count)%nat) by (subst count; lia).
  set (f := fun i => netaddr.mkNet (netaddr.first net + S * Z.of_nat i) size).
  assert (Hfirst : ∀ i, netaddr.first (f i) = netaddr.first net + S * Z.of_nat i).
  { intros i. unfold netaddr.first at 1, f. cbn [netaddr.value].
    change (netaddr.size (netaddr.mkNet _ size)) with S.
    unfold netaddr.first, netaddr.size, netaddr.width. rewrite Hsplit.
    replace (netaddr.value net / (2 ^ (size - netaddr.prefixlen net) * S)
             * (2 ^ (size - netaddr.prefixlen net) * S) + S * Z.of_nat i)
      with ((netaddr.value net / (2 ^ (size - netaddr.prefixlen net) * S)
             * 2 ^ (size - netaddr.prefixlen net) + Z.of_nat i) * S) by lia.
    rewrite Z.div_mul by lia. reflexivity. }
  cbv beta iota delta [rbind Ok]. fold f. unfold next_selector. destruct reverse_search.
  - assert (Hl : last (map f (seq 0 count)) = Some (f (count - 1)%nat)).
    { destruct count as [|c]; [lia|].
      rewrite seq_S, map_app. cbn [map]. rewrite last_snoc. do 2 f_equal. lia. }
    rewrite Hl. eexists. split; [reflexivity|]. split; [discriminate|]. intros _.
    unfold netaddr.last. rewrite Hfirst.
    change (netaddr.size (f _)) with S.
    unfold netaddr.size, netaddr.width. rewrite Hsplit.
    subst count. rewrite Nat2Z.inj_sub, Z2Nat.id by lia. change (Z.of_nat 1) with 1. lia.
  - assert (Hh : head (map f (seq 0 count)) = Some (f 0%nat)).
    { destruct count as [|c]; [lia|]. reflexivity. }
    rewrite Hh. eexists. split; [reflexivity|]. split; [|discriminate]. intros _.
    rewrite Hfirst. change (Z.of_nat 0) with 0. lia.
Qed.

Lemma head_filter_sorted {A} (R : relation A) (P : A → Prop) `{∀ x, Decision (P x)}
    (l : list A) x :
  StronglySorted R l → head (filter P l) = Some x →
  ∀ y, y ∈ l → P y → y = x ∨ R x y.
Proof.
  induction 1 as [|a l Hs IH Ha]; intros Hh y Hy Py; [inversion Hy|].
  rewrite filter_cons in Hh. destruct (decide (P a)) as [Pa|Pa].
  - injection Hh as <-. apply elem_of_cons in Hy. destruct Hy as [->|Hy]; [left; reflexivity|].
    right. exact (proj1 (Forall_forall _ _) Ha y Hy).
  - apply elem_of_cons in Hy. destruct Hy as [->|Hy]; [contradiction|]. auto.
Qed.

Lemma StronglySorted_rev {A} (R : relation A) (l : list A) :
  StronglySorted R l → StronglySorted (flip R) (rev l).
Proof.
  induction 1 as [|a l Hs IH Ha]; [constructor|]. cbn [rev].
  apply StronglySorted_app_2; [|exact IH|repeat constructor].
  intros x1 x2 H1 H2. apply list_elem_of_singleton in H2. subst x2.
  apply list_elem_of_In, in_rev, list_elem_of_In in H1.
  exact (proj1 (Forall_forall _ _) Ha x1 H1).
Qed.

Lemma available_set_valid target_block all_cidrs :
  netaddr.wf_net (b_cidr target_block) → Forall netaddr.wf_net all_cidrs →
  netaddr.valid (available_set target_block all_cidrs).
Proof.
  intros Hb Hwf. apply netaddr_facts.valid_xor; apply netaddr_facts.valid_mkIPSet;
    [constructor; [exact Hb|constructor]|exact Hwf].
Qed.

(** What a successful [create_block_reservation] allocated. *)
Lemma create_block_reservation_allocates
    ctx space block req st target_space i target_block out st' :
  head (spaces_named space st) = Some target_space →
  find_block (s_blocks target_space) block = Some (i, target_block) →
  create_block_reservation ctx space block req st = (Ok out, st') →
  allocate (vnet_list ctx) target_block (BlockCIDRReq.size req)
    (BlockCIDRReq.reverse_search req) (BlockCIDRReq.smallest_cidr req)
  = Ok (r_cidr (o_resv out)).
Proof.
  intros Hsp Hblk Hrun.
  pose proof (create_block_reservation_run ctx space block req st _ _ _ Hsp Hblk) as H.
  destruct (allocate _ _ _ _ _) as [e|c].
  - rewrite H in Hrun. discriminate.
  - destruct H as [st1 H]. rewrite H in Hrun. injection Hrun as <- _. reflexivity.
Qed.

(** X2. [create_block_reservation] succeeds whenever the block exists,
    the requested length is at most 32, and one maximal block of the
    free set is at least as large as the request; whatever the flags.
    The CIDRs are well-formed IPv4 networks. *)
Theorem create_block_reservation_complete
    ctx space block req st target_space i target_block n :
  head (spaces_named space st) = Some target_space →
  find_block (s_blocks target_space) block = Some (i, target_block) →
  netaddr.wf_net (b_cidr target_block) →
  Forall netaddr.wf_net (block_all_cidrs (vnet_list ctx) target_block) →
  n ∈ netaddr.iter_cidrs
        (available_set target_block (block_all_cidrs (vnet_list ctx) target_block)) →
  netaddr.prefixlen n <= BlockCIDRReq.size req <= netaddr.width →
  ∃ out st', create_block_reservation ctx space block req st = (Ok out, st').
Proof.
  intros Hsp Hblk Hb Hwf Hn [Hle Hw].
  pose proof (create_block_reservation_run ctx space block req st _ _ _ Hsp Hblk) as H.
  destruct (find_available_block_complete (BlockCIDRReq.size req)
              (BlockCIDRReq.reverse_search req) (BlockCIDRReq.smallest_cidr req)
              _ n Hn Hle) as [net Hnet].
  pose proof (find_available_block_Some _ _ _ _ _ Hnet) as [Hin Hfit].
  destruct (netaddr_facts.iter_cidrs_sound _ net (available_set_valid _ _ Hb Hwf) Hin)
    as ([_ Hp] & _).
  destruct (next_cidr_complete net (BlockCIDRReq.size req)
              (BlockCIDRReq.reverse_search req)) as (r & Hr & _); [lia|lia|].
  unfold allocate in H. unfold Ok in Hnet. rewrite Hnet in H.
  cbv beta iota delta [rbind] in H. unfold Ok in Hr. rewrite Hr in H.
  destruct H as [st' H]. eauto.
Qed.

(** A request of length 28 on the block [10.0.0.0/24] where
    [10.0.0.0/26] is reserved. *)
Lemma create_block_reservation_complete_witness :
  ∃ out st', create_block_reservation alice_ctx "prod" "core"
               (BlockCIDRReq.mk 28 true true) (one_block_store [resv_quarter])
             = (Ok out, st').
Proof.
  apply (create_block_reservation_complete alice_ctx "prod" "core"
           (BlockCIDRReq.mk 28 true true) (one_block_store [resv_quarter])
           (prod_space [resv_quarter]) 0 (core_block [resv_quarter])
           (cidr 10 0 0 64 26)).
  - vm_compute; reflexivity.
  - vm_compute; reflexivity.
  - by_compute.
  - repeat constructor; by_compute.
  - vm_compute. left.
  - by_compute.
Defined.

(** X3. Without [smallest_cidr], the reservation sits as close to an
    end of the block as the free space allows: with [reverse_search]
    unset it starts at or before the start of every maximal free block
    that fits the request; with [reverse_search] set it ends at or
    after the end of every such block. *)
Theorem create_block_reservation_position
    ctx space block req st target_space i target_block out st' n :
  head (spaces_named space st) = Some target_space →
  find_block (s_blocks target_space) block = Some (i, target_block) →
  netaddr.wf_net (b_cidr target_block) →
  Forall netaddr.wf_net (block_all_cidrs (vnet_list ctx) target_block) →
  BlockCIDRReq.smallest_cidr req = false →
  create_block_reservation ctx space block req st = (Ok out, st') →
  n ∈ netaddr.iter_cidrs
        (available_set target_block (block_all_cidrs (vnet_list ctx) target_block)) →
  netaddr.prefixlen n <= BlockCIDRReq.size req →
  if BlockCIDRReq.reverse_search req
  then netaddr.last n <= netaddr.last (r_cidr (o_resv out))
  else netaddr.first (r_cidr (o_resv out)) <= netaddr.first n.
Proof.
  intros Hsp Hblk Hb Hwf Hsm Hrun Hn Hfit.
  pose proof (create_block_reservation_allocates _ _ _ _ _ _ _ _ _ _ Hsp Hblk Hrun) as Ha.
  pose proof (available_set_valid _ _ Hb Hwf) as Hv.
  pose proof (netaddr_facts.iter_cidrs_ascending _ Hv) as Hsorted.
  unfold allocate in Ha. cbv zeta in Ha. rewrite Hsm in Ha.
  revert Ha Hn Hv Hsorted.
  generalize (r_cidr (o_resv out)).
  generalize (available_set target_block
                (block_all_cidrs (vnet_list ctx) target_block)).
  intros available r Ha Hn Hv Hsorted.
  destruct (find_available_block _ _ false available) as [e|[net|]] eqn:Ef;
    cbn [rbind] in Ha; [discriminate| |discriminate].
  pose proof (find_available_block_Some _ _ _ _ _ Ef) as [Hin Hle].
  destruct (netaddr_facts.iter_cidrs_sound _ net Hv Hin) as ([_ Hp] & _).
  destruct (netaddr_facts.iter_cidrs_sound _ n Hv Hn) as ([_ Hpn] & _).
  pose proof (netaddr_facts.first_le_last net Hp) as Hnet.
  pose proof (netaddr_facts.first_le_last n Hpn) as Hnn.
  destruct (next_cidr_spec net _ _ r Hp Ha) as (_ & [_ Hw] & _).
  destruct (next_cidr_complete net (BlockCIDRReq.size req)
              (BlockCIDRReq.reverse_search req)) as (r' & Hr' & Hfwd & Hrev); [lia|lia|].
  rewrite Ha in Hr'. injection Hr' as <-.
  unfold find_available_block in Ef. injection Ef as Ef.
  destruct (BlockCIDRReq.reverse_search req); cbn [available_slicer] in Ef.
  - rewrite (Hrev eq_refl).
    destruct (head_filter_sorted (flip (fun m n => netaddr.last m < netaddr.first n))
                (fun x => netaddr.prefixlen x <= BlockCIDRReq.size req)
                (rev (netaddr.iter_cidrs available)) net
                (StronglySorted_rev _ _ Hsorted) Ef n)
      as [->|Hlt];
      [exact (proj2 (available_slicer_elem true _ n) Hn)|exact Hfit|lia|].
    unfold flip in Hlt. lia.
  - rewrite (Hfwd eq_refl).
    destruct (head_filter_sorted (fun m n => netaddr.last m < netaddr.first n)
                (fun x => netaddr.prefixlen x <= BlockCIDRReq.size req)
                (netaddr.iter_cidrs available) net Hsorted Ef n Hn Hfit) as [->|Hlt]; lia.
Qed.

(** Forward search on [10.0.0.0/24] with [10.0.0.0/26] reserved: the
    [/27] starts before the free block [10.0.0.128/25]. *)
Lemma create_block_reservation_position_witness :
  netaddr.first (cidr 10 0 0 64 27) <= netaddr.first (cidr 10 0 0 128 25).
Proof.
  apply (create_block_reservation_position alice_ctx "prod" "core"
           (BlockCIDRReq.mk 27 false false) (one_block_store [resv_quarter])
           (prod_space [resv_quarter]) 0 (core_block [resv_quarter])
           (mkReservationOut (new_cidr alice_ctx (cidr 10 0 0 64 27)) "prod" "core")
           (one_block_store [resv_quarter; new_cidr alice_ctx (cidr 10 0 0 64 27)])
           (cidr 10 0 0 128 25)).
  - vm_compute; reflexivity.
  - vm_compute; reflexivity.
  - by_compute.
  - repeat constructor; by_compute.
  - reflexivity.
  - vm_compute; reflexivity.
  - vm_compute. right. left.
  - by_compute.
Defined.

(** X4. With [smallest_cidr], the reservation is carved out of a
    maximal free block that fits the request and is the smallest such
    block: no maximal free block that fits has a longer prefix. *)
Theorem create_block_reservation_tightest_fit
    ctx space block req st target_space i target_block out st' :
  head (spaces_named space st) = Some target_space →
  find_block (s_blocks target_space) block = Some (i, target_block) →
  netaddr.wf_net (b_cidr target_block) →
  Forall netaddr.wf_net (block_all_cidrs (vnet_list ctx) target_block) →
  BlockCIDRReq.smallest_cidr req = true →
  create_block_reservation ctx space block req st = (Ok out, st') →
  ∃ net,
    net ∈ netaddr.iter_cidrs
            (available_set target_block (block_all_cidrs (vnet_list ctx) target_block))
    ∧ netaddr.subset_of (r_cidr (o_resv out)) net
    ∧ netaddr.prefixlen net <= BlockCIDRReq.size req
    ∧ ∀ n, n ∈ netaddr.iter_cidrs
                 (available_set target_block
                    (block_all_cidrs (vnet_list ctx) target_block)) →
           netaddr.prefixlen n <= BlockCIDRReq.size req →
           netaddr.prefixlen n <= netaddr.prefixlen net.
Proof.
  intros Hsp Hblk Hb Hwf Hsm Hrun.
  pose proof (create_block_reservation_allocates _ _ _ _ _ _ _ _ _ _ Hsp Hblk Hrun) as Ha.
  pose proof (available_set_valid _ _ Hb Hwf) as Hv.
  unfold allocate in Ha. cbv zeta in Ha. rewrite Hsm in Ha.
  revert Ha Hv. generalize (r_cidr (o_resv out)).
  generalize (available_set target_block (block_all_cidrs (vnet_list ctx) target_block)).
  intros available r Ha Hv.
  destruct (find_available_block _ _ true available) as [e|[net|]] eqn:Ef;
    cbn [rbind] in Ha; [discriminate| |discriminate].
  pose proof (find_available_block_Some _ _ _ _ _ Ef) as [Hin Hle].
  destruct (netaddr_facts.iter_cidrs_sound _ net Hv Hin) as ([_ Hp] & _).
  destruct (next_cidr_spec net _ _ r Hp Ha) as (_ & _ & _ & Hf & Hl).
  exists net. split; [exact Hin|]. split; [split; assumption|]. split; [exact Hle|].
  intros n Hn Hfit. unfold find_available_block in Ef.
  destruct (py_max _) as [e|m] eqn:Em; cbn [rbind] in Ef; [discriminate|].
  injection Ef as Ef. apply head_Some_elem_of, list_elem_of_filter in Ef.
  destruct Ef as [-> _]. apply (proj2 (py_max_Ok _ _ Em)).
  apply list_elem_of_fmap. exists n. split; [reflexivity|].
  apply list_elem_of_filter. split; [exact Hfit|]. apply available_slicer_elem. exact Hn.
Qed.

(** Tightest fit on [10.0.0.0/24] with [10.0.0.0/26] reserved: the
    [/27] comes out of [10.0.0.64/26], not out of [10.0.0.128/25]. *)
Lemma create_block_reservation_tightest_fit_witness :
  ∃ net, net ∈ [cidr 10 0 0 64 26; cidr 10 0 0 128 25]
         ∧ netaddr.subset_of (cidr 10 0 0 64 27) net
         ∧ netaddr.prefixlen net <= 27
         ∧ ∀ n, n ∈ [cidr 10 0 0 64 26; cidr 10 0 0 128 25] →
                netaddr.prefixlen n <= 27 → netaddr.prefixlen n <= netaddr.prefixlen net.
Proof.
  apply (create_block_reservation_tightest_fit alice_ctx "prod" "core"
           (BlockCIDRReq.mk 27 false true) (one_block_store [resv_quarter])
           (prod_space [resv_quarter]) 0 (core_block [resv_quarter])
           (mkReservationOut (new_cidr alice_ctx (cidr 10 0 0 64 27)) "prod" "core")
           (one_block_store [resv_quarter; new_cidr alice_ctx (cidr 10 0 0 64 27)])).
  - vm_compute; reflexivity.
  - vm_compute; reflexivity.
  - by_compute.
  - repeat constructor; by_compute.
  - reflexivity.
  - vm_compute; reflexivity.
Defined.

(** ** Reservations stay disjoint *)

Lemma wf_net_range n : netaddr.wf_net n → 0 <= netaddr.first n ∧ netaddr.last n < 2 ^ 32.
Proof.
  intros [Hv Hp]. unfold netaddr.last, netaddr.first, netaddr.width in *.
  pose proof (netaddr_facts.size_pos n Hp) as Hs.
  assert (Hsplit : 2 ^ 32 = 2 ^ netaddr.prefixlen n * netaddr.size n).
  { unfold netaddr.size, netaddr.width. rewrite <- Z.pow_add_r by lia. f_equal. lia. }
  assert (Hq : 0 <= netaddr.value n / netaddr.size n < 2 ^ netaddr.prefixlen n).
  { split; [apply Z.div_pos; lia|]. apply Z.div_lt_upper_bound; lia. }
  split; nia.
Qed.

Lemma block_all_cidrs_snoc vnets b r :
  block_all_cidrs vnets (set_b_resv (fun l => l ++ [r]) b)
  = block_all_cidrs vnets b ++ [r_cidr r].
Proof.
  unfold block_all_cidrs. cbn [set_b_resv b_vnets b_cidr b_resv].
  rewrite map_app, app_assoc. reflexivity.
Qed.

(** The CIDR an allocation returns is a well-formed network. *)
Lemma allocate_wf vnets target_block size reverse_search smallest_cidr r :
  netaddr.wf_net (b_cidr target_block) →
  Forall netaddr.wf_net (block_all_cidrs vnets target_block) →
  Forall (fun c => netaddr.subset_of c (b_cidr target_block))
         (block_all_cidrs vnets target_block) →
  allocate vnets target_block size reverse_search smallest_cidr = Ok r →
  netaddr.wf_net r.
Proof.
  intros Hb Hwf Hsub Ha.
  destruct (allocate_sound _ _ _ _ _ _ Hb Hwf Hsub Ha) as (Hp & [Hf Hl] & _).
  pose proof (available_set_valid _ _ Hb Hwf) as Hv.
  unfold allocate in Ha. cbv zeta in Ha. revert Ha Hv.
  generalize (available_set target_block (block_all_cidrs vnets target_block)).
  intros available Ha Hv.
  destruct (find_available_block _ _ _ available) as [e|[net|]] eqn:Ef;
    cbn [rbind] in Ha; [discriminate| |discriminate].
  pose proof (find_available_block_Some _ _ _ _ _ Ef) as [Hin Hle].
  destruct (netaddr_facts.iter_cidrs_sound _ net Hv Hin) as ([_ Hpn] & _).
  destruct (next_cidr_spec net _ _ r Hpn Ha) as (_ & Hw & Hfr & _).
  destruct (wf_net_range _ Hb) as [H0 H1].
  assert (Hpr : 0 <= netaddr.prefixlen r <= netaddr.width) by lia.
  pose proof (netaddr_facts.first_le_last r Hpr).
  split; [|exact Hpr]. unfold netaddr.width. lia.
Qed.

(** X5. A successful [create_block_reservation] keeps the block
    consistent: when the consumed set of the block is made of
    well-formed networks inside the block, no two of which overlap, the
    same holds of the block with the new reservation, which is the block
    the handler writes back in place of the old one. *)
Theorem create_block_reservation_keeps_consistent
    ctx space block req st target_space i target_block out st' :
  head (spaces_named space st) = Some target_space →
  find_block (s_blocks target_space) block = Some (i, target_block) →
  block_consistent (vnet_list ctx) target_block →
  create_block_reservation ctx space block req st = (Ok out, st') →
  replaces st st' target_space
    (set_s_blocks (alter (set_b_resv (fun l => l ++ [o_resv out])) i) target_space)
  ∧ block_consistent (vnet_list ctx)
      (set_b_resv (fun l => l ++ [o_resv out]) target_block).
Proof.
  intros Hsp Hblk (Hb & Hwf & Hsub & Hdis) Hrun.
  pose proof (create_block_reservation_allocates _ _ _ _ _ _ _ _ _ _ Hsp Hblk Hrun) as Ha.
  destruct (allocate_sound _ _ _ _ _ _ Hb Hwf Hsub Ha) as (_ & Hin & Hnew).
  pose proof (allocate_wf _ _ _ _ _ _ Hb Hwf Hsub Ha) as Hr.
  split.
  - unfold create_block_reservation in Hrun. peel Hrun.
    unfold ret in Hrun. injection Hrun as <- <-. cbn [o_resv].
    rewrite Hsp in Hhead. injection Hhead as <-.
    rewrite Hblk in Hfind. injection Hfind as <- <-.
    refine (replaces_intro _ _ _ _ _ _ Hsp _ Hstep). reflexivity.
  - unfold block_consistent. rewrite block_all_cidrs_snoc.
    split; [exact Hb|]. split; [|split].
    + apply Forall_app. split; [exact Hwf|]. constructor; [exact Hr|constructor].
    + apply Forall_app. split; [exact Hsub|]. constructor; [exact Hin|constructor].
    + apply pairwise_disjoint_snoc; assumption.
Qed.

(** The block [10.0.0.0/24] with [10.0.0.0/26] reserved takes
    [10.0.0.64/27]. *)
Lemma create_block_reservation_keeps_consistent_witness :
  block_consistent []
    (core_block [resv_quarter; new_cidr alice_ctx (cidr 10 0 0 64 27)]).
Proof.
  refine (proj2 (create_block_reservation_keeps_consistent alice_ctx "prod" "core"
           (BlockCIDRReq.mk 27 false true) (one_block_store [resv_quarter])
           (prod_space [resv_quarter]) 0 (core_block [resv_quarter])
           (mkReservationOut (new_cidr alice_ctx (cidr 10 0 0 64 27)) "prod" "core")
           (one_block_store [resv_quarter; new_cidr alice_ctx (cidr 10 0 0 64 27)])
           _ _ _ _)).
  - vm_compute; reflexivity.
  - vm_compute; reflexivity.
  - repeat split; repeat constructor; by_compute.
  - vm_compute; reflexivity.
Defined.

(** ** One request after another *)

(** The fetch by name after a write that keeps the name: what was
    written is what is found. *)
Lemma spaces_named_insert space st j target new :
  ids_unique st → head (spaces_named space st) = Some target →
  st !! j = Some target → s_id new = s_id target → s_name new = s_name target →
  head (spaces_named space (<[j := new]> st)) = Some new.
Proof.
  unfold ids_unique, spaces_named. intros Hid Hh Hj Hi Hn.
  assert (Hp : lower (s_name target) = lower space).
  { apply head_Some_elem_of, list_elem_of_filter in Hh. tauto. }
  revert j Hid Hh Hj. induction st as [|a st IH]; intros j Hid Hh Hj; [discriminate|].
  cbn [map] in Hid. apply NoDup_cons in Hid. destruct Hid as [Ha Hid].
  rewrite filter_cons in Hh.
  destruct (decide (lower (s_name a) = lower space)) as [Hpa|Hpa].
  - cbn [head] in Hh. injection Hh as ->. destruct j as [|j].
    + change (<[0%nat := new]> (target :: st)) with (new :: st).
      rewrite filter_cons, decide_True by congruence. reflexivity.
    + cbn in Hj. exfalso. apply Ha. apply list_elem_of_fmap. exists target.
      split; [reflexivity|]. apply list_elem_of_lookup. eauto.
  - destruct j as [|j].
    + cbn in Hj. injection Hj as ->. contradiction.
    + cbn in Hj. change (<[S j := new]> (a :: st)) with (a :: <[j := new]> st).
      rewrite filter_cons, decide_False by exact Hpa. apply IH; assumption.
Qed.

(** The block found by name is found again, at the same place, after
    an update that keeps its name. *)
Lemma find_block_alter (f : Block → Block) blocks block i b :
  (∀ x, b_name (f x) = b_name x) →
  find_block blocks block = Some (i, b) →
  find_block (alter f i blocks) block = Some (i, f b).
Proof.
  unfold find_block. intros Hf H. apply list_find_Some in H. destruct H as (Hi & Hp & Hlt).
  apply list_find_Some. split; [|split].
  - rewrite list_lookup_alter, decide_True by reflexivity. rewrite Hi. reflexivity.
  - rewrite Hf. exact Hp.
  - intros k y Hk Hki. rewrite list_lookup_alter_ne in Hk by lia. eauto.
Qed.

(** What a successful [create_block_reservation] writes. *)
Lemma create_block_reservation_writes
    ctx space block req st target_space i target_block out st' :
  head (spaces_named space st) = Some target_space →
  find_block (s_blocks target_space) block = Some (i, target_block) →
  create_block_reservation ctx space block req st = (Ok out, st') →
  replaces st st' target_space
    (set_s_blocks (alter (set_b_resv (fun l => l ++ [o_resv out])) i) target_space).
Proof.
  intros Hsp Hblk Hrun.
  unfold create_block_reservation in Hrun. peel Hrun.
  unfold ret in Hrun. injection Hrun as <- <-. cbn [o_resv].
  rewrite Hsp in Hhead. injection Hhead as <-.
  rewrite Hblk in Hfind. injection Hfind as <- <-.
  refine (replaces_intro _ _ _ _ _ _ Hsp _ Hstep). reflexivity.
Qed.

(** X6. Two reservations made one after the other in the same block,
    by whichever callers, do not overlap: the second call finds the
    block with the first reservation in it. The block is consistent in
    the network list of each caller, and document ids are unique. *)
Theorem successive_reservations_disjoint
    ctx1 ctx2 space block req1 req2 st st1 st2 target_space i target_block out1 out2 :
  ids_unique st →
  head (spaces_named space st) = Some target_space →
  find_block (s_blocks target_space) block = Some (i, target_block) →
  block_consistent (vnet_list ctx1) target_block →
  block_consistent (vnet_list ctx2) target_block →
  create_block_reservation ctx1 space block req1 st = (Ok out1, st1) →
  create_block_reservation ctx2 space block req2 st1 = (Ok out2, st2) →
  netaddr.disjoint (r_cidr (o_resv out2)) (r_cidr (o_resv out1)).
Proof.
  intros Hid Hsp Hblk Hc1 Hc2 Hrun1 Hrun2.
  pose proof (create_block_reservation_writes _ _ _ _ _ _ _ _ _ _ Hsp Hblk Hrun1) as Hrep.
  pose proof (create_block_reservation_allocates _ _ _ _ _ _ _ _ _ _ Hsp Hblk Hrun1)
    as Ha1.
  destruct Hc1 as (Hb1 & Hwf & Hsub & _).
  pose proof (allocate_wf _ _ _ _ _ _ Hb1 Hwf Hsub Ha1) as Hwf1.
  destruct (allocate_sound _ _ _ _ _ _ Hb1 Hwf Hsub Ha1) as (_ & Hsub1 & _).
  clear Hwf Hsub Ha1.
  destruct (replaces_same_doc _ _ _ _ Hid Hrep) as (j & Hj & ->).
  set (f := set_b_resv (fun l => l ++ [o_resv out1])) in *.
  assert (Hsp1 : head (spaces_named space
                         (<[j := set_s_blocks (alter f i) target_space]> st))
                 = Some (set_s_blocks (alter f i) target_space)).
  { apply (spaces_named_insert _ _ _ target_space); auto. }
  assert (Hblk1 : find_block (s_blocks (set_s_blocks (alter f i) target_space)) block
                  = Some (i, f target_block)).
  { cbn [set_s_blocks s_blocks]. apply find_block_alter; [reflexivity|exact Hblk]. }
  pose proof (create_block_reservation_allocates _ _ _ _ _ _ _ _ _ _ Hsp1 Hblk1 Hrun2)
    as Ha.
  destruct Hc2 as (Hb & Hwf2 & Hsub2 & _).
  subst f.
  assert (Hw : Forall netaddr.wf_net
                 (block_all_cidrs (vnet_list ctx2)
                    (set_b_resv (fun l => l ++ [o_resv out1]) target_block))).
  { rewrite block_all_cidrs_snoc. apply Forall_app.
    split; [assumption|]. constructor; [assumption|constructor]. }
  assert (Hs : Forall (fun c => netaddr.subset_of c (b_cidr target_block))
                 (block_all_cidrs (vnet_list ctx2)
                    (set_b_resv (fun l => l ++ [o_resv out1]) target_block))).
  { rewrite block_all_cidrs_snoc. apply Forall_app.
    split; [assumption|]. constructor; [assumption|constructor]. }
  destruct (allocate_sound (vnet_list ctx2)
              (set_b_resv (fun l => l ++ [o_resv out1]) target_block) _ _ _ _
              Hb Hw Hs Ha) as (_ & _ & Hnew).
  rewrite block_all_cidrs_snoc in Hnew. apply Forall_app in Hnew.
  destruct Hnew as [_ Hnew]. inversion Hnew; assumption.
Qed.

(** Alice takes [10.0.0.64/27] of the block [10.0.0.0/24] with
    [10.0.0.0/26] reserved, and the administrator then takes
    [10.0.0.128/25]. *)
Lemma successive_reservations_disjoint_witness :
  netaddr.disjoint (cidr 10 0 0 128 25) (cidr 10 0 0 64 27).
Proof.
  refine (successive_reservations_disjoint alice_ctx admin_ctx "prod" "core"
           (BlockCIDRReq.mk 27 false true) (BlockCIDRReq.mk 25 false false)
           (one_block_store [resv_quarter])
           (one_block_store [resv_quarter; new_cidr alice_ctx (cidr 10 0 0 64 27)])
           (one_block_store [resv_quarter; new_cidr alice_ctx (cidr 10 0 0 64 27);
                             new_cidr admin_ctx (cidr 10 0 0 128 25)])
           (prod_space [resv_quarter]) 0 (core_block [resv_quarter])
           (mkReservationOut (new_cidr alice_ctx (cidr 10 0 0 64 27)) "prod" "core")
           (mkReservationOut (new_cidr admin_ctx (cidr 10 0 0 128 25)) "prod" "core")
           _ _ _ _ _ _ _).
  - unfold ids_unique. vm_compute. repeat constructor. intros H; inversion H.
  - vm_compute; reflexivity.
  - vm_compute; reflexivity.
  - repeat split; repeat constructor; by_compute.
  - repeat split; repeat constructor; by_compute.
  - vm_compute; reflexivity.
  - vm_compute; reflexivity.
Defined.

(** ** The multi-block allocator *)

(** Where the loop of [create_multi_block_reservation] stopped: at a
    block of the list, found in the space by that name, whose free set
    gave [available_block]; the name and the block the loop keeps are
    those of that block. *)
Lemma multi_loop_inv ctx target req net blocks :
  ∀ st0 st,
    ms_available_block st0 = None →
    multi_loop ctx target req st0 blocks = Ok st →
    ms_available_block st = Some net →
    ∃ name i tb,
      name ∈ blocks
      ∧ ms_available_block_name st = Some name
      ∧ ms_target_block st = Some (i, tb)
      ∧ find_block (s_blocks target) name = Some (i, tb)
      ∧ find_available_block (SpaceCIDRReq.size req) (SpaceCIDRReq.reverse_search req)
          (SpaceCIDRReq.smallest_cidr req)
          (available_set tb (block_all_cidrs (vnet_list ctx) tb)) = Ok (Some net).
Proof.
  induction blocks as [|b blocks IH]; intros st0 st H0 Hloop Hnet.
  - cbn [multi_loop] in Hloop. injection Hloop as <-. congruence.
  - cbn [multi_loop] in Hloop. unfold multi_step in Hloop. rewrite H0 in Hloop.
    destruct (find_block (s_blocks target) b) as [[i tb]|] eqn:Hb;
      [|cbn [rbind] in Hloop; discriminate].
    cbv zeta in Hloop.
    destruct (find_available_block _ _ _ _) as [e|[net'|]] eqn:Hf;
      cbv beta iota delta [rbind Ok] in Hloop; [discriminate| |].
    + fold (@Ok MultiState) in Hloop.
      rewrite (multi_loop_done _ _ _ _ net') in Hloop by reflexivity.
      injection Hloop as <-. cbn in Hnet. injection Hnet as ->.
      exists b, i, tb. split; [left|]. repeat split; [exact Hb|exact Hf].
    + fold (@Ok MultiState) in Hloop.
      destruct (IH (mkMultiState None None (Some (i, tb))) st eq_refl Hloop Hnet)
        as (name & i' & tb' & Hin & Hrest).
      exists name, i', tb'. split; [right; exact Hin|exact Hrest].
Qed.

(** The block found for a name that a block of the space bears is the
    block of that name, when the names of the blocks are unique up to
    case. *)
Lemma find_block_exact target block i target_block :
  block_names_unique target →
  block ∈ map b_name (s_blocks target) →
  find_block (s_blocks target) block = Some (i, target_block) →
  b_name target_block = block.
Proof.
  unfold block_names_unique, find_block. intros Hu Hin Hf.
  apply list_find_Some in Hf. destruct Hf as (Hi & Hl & _).
  apply list_elem_of_fmap in Hin. destruct Hin as (b & Hb & Hbin).
  apply list_elem_of_lookup in Hbin. destruct Hbin as [k Hk].
  assert (i = k) as ->.
  { apply (NoDup_lookup _ i k (lower block) Hu).
    - change (map (fun b => lower (b_name b)) (s_blocks target))
        with ((fun b => lower (b_name b)) <$> s_blocks target).
      rewrite list_lookup_fmap, Hi. cbn. f_equal. exact Hl.
    - change (map (fun b => lower (b_name b)) (s_blocks target))
        with ((fun b => lower (b_name b)) <$> s_blocks target).
      rewrite list_lookup_fmap, Hk. cbn. f_equal. rewrite <- Hb. reflexivity. }
  rewrite Hi in Hk. injection Hk as ->. symmetry. exact Hb.
Qed.

(** The names that pass the check of the block list are names of
    blocks of the space, as they are written. *)
Lemma valid_blocks_named (space_blocks blocks : list string) name :
  negb (bool_decide (filter (fun b => b ∉ space_blocks) blocks = [])) = false →
  name ∈ blocks → name ∈ space_blocks.
Proof.
  intros H Hin. apply negb_false_iff, bool_decide_eq_true in H.
  destruct (decide (name ∈ space_blocks)) as [Hy|Hn]; [exact Hy|].
  exfalso. assert (Hf : name ∈ filter (fun b => b ∉ space_blocks) blocks)
    by (apply list_elem_of_filter; split; assumption).
  rewrite H in Hf. inversion Hf.
Qed.

(** X7. The reservation of a successful
    [create_multi_block_reservation] is sound. The block name of the
    response is one of the requested names and, as it is written, the
    name of a block of the space. The block the reservation is made in
    is the one the handler resolves that name to, the first block of
    the space whose name matches it up to case: the CIDR has the
    requested prefix length, lies inside that block and overlaps no
    network prefix or reservation consumed there, and the reservation
    is appended to that block in the document written back. That block
    bears the name of the response when the names of the blocks of the
    space are unique up to case; two blocks whose names differ in case
    only are both resolved to the first. The consumed set of every
    block of the space is made of well-formed networks inside the
    block. *)
Theorem create_multi_block_reservation_sound ctx space req st target_space out st' :
  head (spaces_named space st) = Some target_space →
  Forall (consumed_in_block (vnet_list ctx)) (s_blocks target_space) →
  create_multi_block_reservation ctx space req st = (Ok out, st') →
  ∃ i target_block,
    o_block out ∈ SpaceCIDRReq.blocks req
    ∧ find_block (s_blocks target_space) (o_block out) = Some (i, target_block)
    ∧ netaddr.prefixlen (r_cidr (o_resv out)) = SpaceCIDRReq.size req
    ∧ netaddr.subset_of (r_cidr (o_resv out)) (b_cidr target_block)
    ∧ Forall (netaddr.disjoint (r_cidr (o_resv out)))
        (block_all_cidrs (vnet_list ctx) target_block)
    ∧ replaces st st' target_space
        (set_s_blocks (alter (set_b_resv (fun l => l ++ [o_resv out])) i) target_space)
    ∧ o_block out ∈ map b_name (s_blocks target_space)
    ∧ (block_names_unique target_space → b_name target_block = o_block out).
Proof.
  intros Hsp Hall H. unfold create_multi_block_reservation in H. peel H.
  rewrite Hsp in Hhead. injection Hhead as <-.
  destruct (ms_available_block a1) as [net|] eqn:Hnet; [|discriminate H].
  destruct (multi_loop_inv _ _ _ _ _ (mkMultiState None None None) _ eq_refl Hpure Hnet)
    as (name & i & tb & Hin & Hname & Htb & Hfind & Hfit).
  rewrite Htb, Hname in H. peel H. unfold ret in H. injection H as <- <-.
  cbn [o_block o_resv r_cidr new_cidr].
  assert (Hc : consumed_in_block (vnet_list ctx) tb).
  { apply (proj1 (Forall_forall _ _) Hall). unfold find_block in Hfind.
    apply list_find_Some in Hfind. destruct Hfind as (Hi & _).
    apply list_elem_of_lookup. eauto. }
  destruct Hc as (Hb & Hwf & Hsub).
  lazymatch goal with
  | Hn : next_cidr net _ _ = _ ?c, Hr : cosmos_replace _ _ _ = (_ ?u, _) |- _ =>
      assert (Ha : allocate (vnet_list ctx) tb (SpaceCIDRReq.size req)
                     (SpaceCIDRReq.reverse_search req) (SpaceCIDRReq.smallest_cidr req)
                   = Ok c)
        by (unfold allocate; cbv zeta; rewrite Hfit; cbn [rbind]; exact Hn);
      destruct u; rename Hr into Hrep
  end.
  destruct (allocate_sound _ _ _ _ _ _ Hb Hwf Hsub Ha) as (Hp & Hs & Hd).
  pose proof (valid_blocks_named _ _ name Hcheck Hin) as Hnamed.
  exists i, tb.
  split; [exact Hin|]. split; [exact Hfind|]. split; [exact Hp|].
  split; [exact Hs|]. split; [exact Hd|].
  split; [split; [exact (head_spaces_named_elem _ _ _ Hsp)|split; [reflexivity|exact Hrep]]|].
  split; [exact Hnamed|].
  intros Hu. exact (find_block_exact _ _ _ _ Hu Hnamed Hfind).
Qed.

(** The reservation of alice over the blocks [core; edge], of which
    [core] is wholly reserved, is a [/26] of [edge], inside that
    block. *)
Lemma create_multi_block_reservation_sound_witness :
  ∃ i target_block,
    find_block [core_block [resv_whole]; edge_block] "edge" = Some (i, target_block)
    ∧ netaddr.subset_of (cidr 10 0 1 0 26) (b_cidr target_block).
Proof.
  destruct (create_multi_block_reservation_sound alice_ctx "prod"
              (SpaceCIDRReq.mk ["core"; "edge"] 26 false false) two_block_store
              (mkSpace "id1" "t1" "prod" "production" [core_block [resv_whole]; edge_block])
              (mkReservationOut (new_cidr alice_ctx (cidr 10 0 1 0 26)) "prod" "edge")
              [mkSpace "id1" "t1" "prod" "production"
                 [core_block [resv_whole];
                  set_b_resv (fun l => l ++ [new_cidr alice_ctx (cidr 10 0 1 0 26)])
                    edge_block]])
    as (i & tb & _ & Hf & _ & Hs & _).
  - vm_compute; reflexivity.
  - repeat constructor; by_compute.
  - vm_compute; reflexivity.
  - exists i, tb. split; [exact Hf|exact Hs].
Defined.

(** A block none of whose free CIDRs is large enough has no candidate,
    when the smallest fit is not asked for. *)
Lemma find_available_block_exhausted size reverse_search available :
  (∀ n, n ∈ netaddr.iter_cidrs available → size < netaddr.prefixlen n) →
  find_available_block size reverse_search false available = Ok None.
Proof.
  intros Hnone. unfold find_available_block. rewrite filter_none; [reflexivity|].
  intros n Hn. apply available_slicer_elem in Hn. apply Hnone in Hn. lia.
Qed.

Lemma allocate_Ok_inv vnets target_block size reverse_search smallest_cidr c :
  allocate vnets target_block size reverse_search smallest_cidr = Ok c →
  ∃ net,
    find_available_block size reverse_search smallest_cidr
      (available_set target_block (block_all_cidrs vnets target_block)) = Ok (Some net)
    ∧ next_cidr net size reverse_search = Ok c.
Proof.
  unfold allocate. cbv zeta.
  destruct (find_available_block _ _ _ _) as [e|[net|]];
    cbv beta iota delta [rbind Ok]; intros H; try discriminate H.
  exists net. split; [reflexivity|exact H].
Qed.

(** X8. First fit across blocks, without [smallest_cidr]. Every name
    of the request is, as it is written, the name of a block of the
    space, and each name is resolved to the first block of the space
    whose name matches it up to case. When the blocks the names before
    [name] are resolved to have no free CIDR large enough, and the
    single-block allocation in the block [name] is resolved to gives
    [c], the multi-block handler reserves that same [c], gives [name]
    as the block of its response, and appends the reservation to the
    block [name] is resolved to. That block bears the name [name] when
    the names of the blocks of the space are unique up to case. *)
Theorem create_multi_block_reservation_first_with_room
    ctx space req st target_space pre name post i target_block c :
  head (spaces_named space st) = Some target_space →
  (∀ b, b ∈ SpaceCIDRReq.blocks req → b ∈ map b_name (s_blocks target_space)) →
  SpaceCIDRReq.blocks req = pre ++ name :: post →
  SpaceCIDRReq.smallest_cidr req = false →
  Forall (fun b => ∃ j tb,
            find_block (s_blocks target_space) b = Some (j, tb)
            ∧ ∀ n, n ∈ netaddr.iter_cidrs
                         (available_set tb (block_all_cidrs (vnet_list ctx) tb)) →
                   SpaceCIDRReq.size req < netaddr.prefixlen n) pre →
  find_block (s_blocks target_space) name = Some (i, target_block) →
  allocate (vnet_list ctx) target_block (SpaceCIDRReq.size req)
    (SpaceCIDRReq.reverse_search req) false = Ok c →
  ∃ st',
    create_multi_block_reservation ctx space req st
    = (Ok (mkReservationOut (new_cidr ctx c) (s_name target_space) name), st')
    ∧ replaces st st' target_space
        (set_s_blocks
           (alter (set_b_resv (fun l => l ++ [new_cidr ctx c])) i) target_space)
    ∧ (block_names_unique target_space → b_name target_block = name).
Proof.
  intros Hsp Hvalid Hblocks Hsm Hpre Hblk Ha.
  destruct (allocate_Ok_inv _ _ _ _ _ _ Ha) as (net & Hfit & Hnext).
  assert (Hnamed : name ∈ map b_name (s_blocks target_space)).
  { apply Hvalid. rewrite Hblocks. apply elem_of_app. right. left. }
  destruct (create_multi_block_reservation_first_fit ctx space req st target_space
              pre name post i target_block net c) as (st' & Hrun & Hrep);
    try assumption.
  - eapply Forall_impl; [exact Hpre|]. cbv beta. intros b (j & tb & Hb & Hnone).
    exists j, tb. split; [exact Hb|]. apply find_available_block_exhausted. exact Hnone.
  - exists st'. split; [exact Hrun|]. split; [exact Hrep|].
    intros Hu. exact (find_block_exact _ _ _ _ Hu Hnamed Hblk).
Qed.

(** The request of alice over [core; edge], with [core] wholly
    reserved: the reservation is the first [/26] of [edge]. *)
Lemma create_multi_block_reservation_first_with_room_witness :
  ∃ st',
    create_multi_block_reservation alice_ctx "prod"
      (SpaceCIDRReq.mk ["core"; "edge"] 26 false false) two_block_store
    = (Ok (mkReservationOut (new_cidr alice_ctx (cidr 10 0 1 0 26)) "prod" "edge"), st').
Proof.
  destruct (create_multi_block_reservation_first_with_room alice_ctx "prod"
              (SpaceCIDRReq.mk ["core"; "edge"] 26 false false) two_block_store
              (mkSpace "id1" "t1" "prod" "production" [core_block [resv_whole]; edge_block])
              ["core"] "edge" [] 1%nat edge_block (cidr 10 0 1 0 26))
    as (st' & Hrun & _).
  - vm_compute; reflexivity.
  - intros b Hb. vm_compute in Hb |- *.
    apply list_elem_of_In in Hb. apply list_elem_of_In. exact Hb.
  - reflexivity.
  - reflexivity.
  - constructor; [|constructor]. exists 0%nat, (core_block [resv_whole]).
    split; [vm_compute; reflexivity|]. intros n Hn. vm_compute in Hn. inversion Hn.
  - vm_compute; reflexivity.
  - vm_compute; reflexivity.
  - exists st'. exact Hrun.
Defined.




(** A reservation of a [/24] in the block [10.0.0.0/24] of which a
    quarter is taken: the request fails and the store is as it was. *)
Lemma failed_request_writes_nothing_witness :
  snd (handle alice_ctx
         (CreateBlockReservation "prod" "core" (BlockCIDRReq.mk 24 false false))
         (one_block_store [resv_quarter]))
  = one_block_store [resv_quarter].
Proof.
  apply (failed_request_writes_nothing alice_ctx
           (CreateBlockReservation "prod" "core" (BlockCIDRReq.mk 24 false false))
           (one_block_store [resv_quarter])
           (HTTPException 500 "Network of requested size unavailable in target block.")).
  vm_compute; reflexivity.
Defined.

(** ** Deleting by id *)

Lemma filter_all {A} (P : A → Prop) `{∀ x, Decision (P x)} (l : list A) :
  (∀ x, x ∈ l → P x) → filter P l = l.
Proof.
  induction l as [|x l IH]; intros Hl; [reflexivity|].
  rewrite filter_cons. destruct (decide (P x)) as [_|Hn].
  - f_equal. apply IH. intros y Hy. apply Hl. right. exact Hy.
  - exfalso. apply Hn, Hl. left.
Qed.

(** With unique keys, the removal of the first item of a key leaves
    the items of the other keys, in their order. *)
Lemma delete_found_filter {A} (key : A → string) id (l : list A) i x :
  NoDup (map key l) →
  list_find (fun item => key item = id) l = Some (i, x) →
  delete i l = filter (fun item => key item ≠ id) l.
Proof.
  revert i. induction l as [|a l IH]; intros i Hnd Hf; [discriminate|].
  cbn [map] in Hnd. apply NoDup_cons in Hnd. destruct Hnd as [Ha Hnd].
  cbn [list_find] in Hf. rewrite filter_cons.
  destruct (decide (key a = id)) as [Hk|Hk].
  - injection Hf as <- <-. rewrite decide_False by (intros Hn; exact (Hn Hk)).
    cbn [delete list_delete]. symmetry. apply filter_all. intros y Hy Hyk.
    apply Ha. rewrite Hk, <- Hyk. apply list_elem_of_fmap. eauto.
  - rewrite decide_True by exact Hk.
    destruct (list_find _ l) as [[k y]|] eqn:Hl; [|discriminate].
    cbn in Hf. injection Hf as <- <-. cbn [delete list_delete].
    f_equal. apply (IH k); [exact Hnd|reflexivity].
Qed.

Lemma NoDup_map_delete {A B} (f : A → B) (l : list A) i :
  NoDup (map f l) → NoDup (map f (delete i l)).
Proof.
  intros H. change (NoDup (f <$> delete i l)). rewrite list_fmap_delete.
  apply NoDup_delete. exact H.
Qed.

(** What the loop of deletions leaves, when the keys of the list are
    unique: the items whose key is not in the request, in their
    order. *)
Lemma del_each_filter {A} (key : A → string) req :
  ∀ l l', NoDup (map key l) → del_each key req l = Ok l' →
          l' = filter (fun item => key item ∉ req) l.
Proof.
  induction req as [|id req IH]; intros l l' Hnd H; cbn [del_each] in H.
  - injection H as <-. symmetry. apply filter_all. intros x _ Hx. inversion Hx.
  - destruct (list_find (fun item => key item = id) l) as [[i x]|] eqn:Hf;
      cbn [del_index rbind] in H; [|discriminate].
    cbv beta iota delta [rbind Ok] in H. fold (@Ok (list A)) in H.
    rewrite (IH _ _ (NoDup_map_delete key l i Hnd) H).
    rewrite (delete_found_filter key id l i x Hnd Hf).
    rewrite list_filter_filter. apply list_filter_iff. intros y.
    rewrite not_elem_of_cons. tauto.
Qed.

(** The loop of deletions goes through when every requested key is in
    the list and no key is requested twice. *)
Lemma del_each_complete {A} (key : A → string) req :
  ∀ l, NoDup req → (∀ id, id ∈ req → id ∈ map key l) →
       ∃ l', del_each key req l = Ok l'.
Proof.
  induction req as [|id req IH]; intros l Hnd Hall; cbn [del_each].
  - eauto.
  - apply NoDup_cons in Hnd. destruct Hnd as [Hid Hnd].
    assert (Hin : id ∈ map key l) by (apply Hall; left).
    apply list_elem_of_fmap in Hin. destruct Hin as (x & Hx & Hxin).
    destruct (list_find_elem_of (fun item => key item = id) l x Hxin (eq_sym Hx))
      as [[i y] Hf].
    rewrite Hf. cbn [del_index]. cbv beta iota delta [rbind Ok].
    apply (IH (delete i l) Hnd). intros id' Hid'.
    assert (Hin' : id' ∈ map key l) by (apply Hall; right; exact Hid').
    apply list_elem_of_fmap in Hin'. destruct Hin' as (z & Hz & Hzin).
    apply list_elem_of_fmap. exists z. split; [exact Hz|].
    apply list_find_Some in Hf. destruct Hf as (Hi & Hy & _).
    apply list_elem_of_lookup in Hzin. destruct Hzin as [k Hk].
    assert (Hne : k ≠ i).
    { intros ->. rewrite Hi in Hk. injection Hk as ->. apply Hid.
      rewrite <- Hy, <- Hz. exact Hid'. }
    apply list_elem_of_lookup.
    destruct (decide (k < i)%nat) as [Hlt|Hge].
    + exists k. rewrite list_lookup_delete_lt by exact Hlt. exact Hk.
    + exists (pred k). rewrite list_lookup_delete_ge by lia.
      replace (S (pred k)) with k by lia. exact Hk.
Qed.

(** The run of [delete_block_reservations] past its checks. *)
Lemma delete_block_reservations_run
    ctx space block req st target_space i target_block resv' :
  head (spaces_named space st) = Some target_space →
  find_block (s_blocks target_space) block = Some (i, target_block) →
  NoDup req →
  (∀ id, id ∈ req → id ∈ map r_id (b_resv target_block)) →
  (is_admin ctx = true
   ∨ ∀ r, r ∈ b_resv target_block → r_id r ∈ req → r_userId r = user_name ctx) →
  del_each r_id req (b_resv target_block) = Ok resv' →
  delete_block_reservations ctx space block req st
  = cosmos_replace target_space
      (set_s_blocks (alter (set_b_resv (fun _ => resv')) i) target_space) st.
Proof.
  intros Hsp Hblk Hnd Hall Hown Hdel.
  unfold delete_block_reservations, bind, cosmos_query, first_space, target_block_of.
  destruct (spaces_named space st) as [|s rest]; [discriminate|].
  injection Hsp as ->. cbv beta iota delta [Ok ret]. rewrite Hblk.
  cbv beta iota delta [ret]. rewrite (unique_ids_NoDup req Hnd).
  change (negb true) with false. cbv beta iota delta [raise_if ret]. cbv zeta.
  rewrite (ids_exist_all _ req Hall).
  change (negb true) with false. cbv beta iota delta [raise_if ret].
  assert (Hcheck : (negb (is_admin ctx)
                    && (0 <? length
                          (filter (fun x => r_id x ∈ req ∧ r_userId x ≠ user_name ctx)
                                  (b_resv target_block)))%nat) = false).
  { destruct Hown as [-> | Hown]; [reflexivity|].
    rewrite filter_none; [apply andb_false_r|].
    intros r Hr [Hin Hne]. exact (Hne (Hown r Hr Hin)). }
  rewrite Hcheck. cbv beta iota delta [raise_if ret lift].
  unfold Ok in Hdel. rewrite Hdel. reflexivity.
Qed.

(** X10. [delete_block_reservations] removes exactly what is asked:
    called by an administrator, or by the owner of every listed
    reservation, with a list of distinct ids that all name reservations
    of the block, it succeeds, and the document written back has, in
    that block, the reservations whose id is not listed, in their
    order. Reservation ids are unique in the block. *)
Theorem delete_block_reservations_removes
    ctx space block req st target_space i target_block :
  head (spaces_named space st) = Some target_space →
  find_block (s_blocks target_space) block = Some (i, target_block) →
  NoDup (map r_id (b_resv target_block)) →
  NoDup req →
  (∀ id, id ∈ req → id ∈ map r_id (b_resv target_block)) →
  (is_admin ctx = true
   ∨ ∀ r, r ∈ b_resv target_block → r_id r ∈ req → r_userId r = user_name ctx) →
  ∃ st',
    delete_block_reservations ctx space block req st = (Ok tt, st')
    ∧ replaces st st' target_space
        (set_s_blocks
           (alter (set_b_resv
                     (fun _ => filter (fun r => r_id r ∉ req) (b_resv target_block))) i)
           target_space).
Proof.
  intros Hsp Hblk Hids Hnd Hall Hown.
  destruct (del_each_complete r_id req (b_resv target_block) Hnd Hall) as [resv' Hdel].
  pose proof (del_each_filter r_id req _ _ Hids Hdel) as ->.
  rewrite (delete_block_reservations_run _ _ _ _ _ _ _ _ _ Hsp Hblk Hnd Hall Hown Hdel).
  pose proof (head_spaces_named_elem _ _ _ Hsp) as Hin.
  destruct (cosmos_replace_Ok target_space
              (set_s_blocks
                 (alter (set_b_resv
                           (fun _ => filter (fun r => r_id r ∉ req) (b_resv target_block)))
                        i) target_space) st Hin) as [j Hrep].
  eexists. split; [exact Hrep|].
  split; [exact Hin|]. split; [reflexivity|exact Hrep].
Qed.

(** Alice deletes her reservation [resA] of the block that also holds
    [resB] of bob: [resB] is what is left. *)
Lemma delete_block_reservations_removes_witness :
  ∃ st',
    delete_block_reservations alice_ctx "prod" "core" ["resA"] shared_store = (Ok tt, st')
    ∧ replaces shared_store st' (prod_space [resv_alice; resv_bob])
        (set_s_blocks
           (alter (set_b_resv
                     (fun _ => filter (fun r => r_id r ∉ ["resA"]) [resv_alice; resv_bob]))
                  0%nat)
           (prod_space [resv_alice; resv_bob])).
Proof.
  apply (delete_block_reservations_removes alice_ctx "prod" "core" ["resA"] shared_store
           (prod_space [resv_alice; resv_bob]) 0%nat (core_block [resv_alice; resv_bob])).
  - vm_compute; reflexivity.
  - vm_compute; reflexivity.
  - cbn. repeat constructor; rewrite ?elem_of_cons, ?elem_of_nil; intros H;
      repeat destruct H as [H|H]; try discriminate H; exact H.
  - repeat constructor. intros H. inversion H.
  - intros id Hid. apply list_elem_of_singleton in Hid. subst id. cbn. left.
  - right. intros r Hr Hid. apply list_elem_of_singleton in Hid.
    cbn in Hr. rewrite !elem_of_cons, elem_of_nil in Hr.
    destruct Hr as [->|[->|[]]]; [reflexivity|discriminate Hid].
Defined.

(** The run of [delete_block_vnets] past its checks. *)
Lemma delete_block_vnets_run
    ctx space block req st target_space i target_block vnets' :
  is_admin ctx = true →
  head (spaces_named space st) = Some target_space →
  find_block (s_blocks target_space) block = Some (i, target_block) →
  NoDup req →
  (∀ id, id ∈ req → id ∈ map v_id (b_vnets target_block)) →
  del_each v_id req (b_vnets target_block) = Ok vnets' →
  delete_block_vnets ctx space block req st
  = cosmos_replace target_space
      (set_s_blocks (alter (set_b_vnets (fun _ => vnets')) i) target_space) st.
Proof.
  intros Hadm Hsp Hblk Hnd Hall Hdel.
  unfold delete_block_vnets, bind, admin_only, cosmos_query, first_space, target_block_of.
  rewrite Hadm. change (negb true) with false. cbv beta iota delta [raise_if ret].
  destruct (spaces_named space st) as [|s rest]; [discriminate|].
  injection Hsp as ->. cbv beta iota delta [Ok ret]. rewrite Hblk.
  cbv beta iota delta [ret]. rewrite (unique_ids_NoDup req Hnd).
  change (negb true) with false. cbv beta iota delta [raise_if ret]. cbv zeta.
  rewrite (ids_exist_all _ req Hall).
  change (negb true) with false. cbv beta iota delta [raise_if ret lift].
  unfold Ok in Hdel. rewrite Hdel. reflexivity.
Qed.

(** X11. [delete_block_vnets] detaches exactly what is asked: called
    by an administrator with a list of distinct ids that all name
    networks attached to the block, it succeeds, and the document
    written back has, in that block, the attached networks whose id is
    not listed, in their order. Ids are compared as they are written,
    and are unique among the networks attached to the block. *)
Theorem delete_block_vnets_removes
    ctx space block req st target_space i target_block :
  is_admin ctx = true →
  head (spaces_named space st) = Some target_space →
  find_block (s_blocks target_space) block = Some (i, target_block) →
  NoDup (map v_id (b_vnets target_block)) →
  NoDup req →
  (∀ id, id ∈ req → id ∈ map v_id (b_vnets target_block)) →
  ∃ st',
    delete_block_vnets ctx space block req st = (Ok tt, st')
    ∧ replaces st st' target_space
        (set_s_blocks
           (alter (set_b_vnets
                     (fun _ => filter (fun v => v_id v ∉ req) (b_vnets target_block))) i)
           target_space).
Proof.
  intros Hadm Hsp Hblk Hids Hnd Hall.
  destruct (del_each_complete v_id req (b_vnets target_block) Hnd Hall) as [vnets' Hdel].
  pose proof (del_each_filter v_id req _ _ Hids Hdel) as ->.
  rewrite (delete_block_vnets_run _ _ _ _ _ _ _ _ _ Hadm Hsp Hblk Hnd Hall Hdel).
  pose proof (head_spaces_named_elem _ _ _ Hsp) as Hin.
  destruct (cosmos_replace_Ok target_space
              (set_s_blocks
                 (alter (set_b_vnets
                           (fun _ => filter (fun v => v_id v ∉ req) (b_vnets target_block)))
                        i) target_space) st Hin) as [j Hrep].
  eexists. split; [exact Hrep|].
  split; [exact Hin|]. split; [reflexivity|exact Hrep].
Qed.

(** The administrator detaches [vnet1] from the block [wide]: no
    network is left attached. *)
Lemma delete_block_vnets_removes_witness :
  ∃ st',
    delete_block_vnets vnet_ctx "prod" "wide" ["vnet1"] wide_store = (Ok tt, st')
    ∧ replaces wide_store st' (mkSpace "id1" "t1" "prod" "production" [wide_block])
        (set_s_blocks
           (alter (set_b_vnets
                     (fun _ => filter (fun v => v_id v ∉ ["vnet1"]) [mkVNet "vnet1" true]))
                  0%nat)
           (mkSpace "id1" "t1" "prod" "production" [wide_block])).
Proof.
  apply (delete_block_vnets_removes vnet_ctx "prod" "wide" ["vnet1"] wide_store
           (mkSpace "id1" "t1" "prod" "production" [wide_block]) 0%nat wide_block).
  - reflexivity.
  - vm_compute; reflexivity.
  - vm_compute; reflexivity.
  - cbn. repeat constructor. intros H. inversion H.
  - repeat constructor. intros H. inversion H.
  - intros id Hid. apply list_elem_of_singleton in Hid. subst id. cbn. left.
Defined.

(** ** A reservation made and deleted *)

Lemma alter_at {A} (f : A → A) (l : list A) i x :
  l !! i = Some x → f x = x → alter f i l = l.
Proof.
  revert i. induction l as [|a l IH]; intros [|i] Hi Hf; cbn in *; try reflexivity.
  - injection Hi as ->. rewrite Hf. reflexivity.
  - f_equal. exact (IH i Hi Hf).
Qed.

(** With unique ids, the replace of a document lands where the
    document of that id is. *)
Lemma cosmos_replace_at old new st j d :
  ids_unique st → st !! j = Some d → s_id d = s_id old →
  cosmos_replace old new st = (Ok tt, <[j := new]> st).
Proof.
  intros Hid Hj Hd. unfold cosmos_replace.
  assert (Hin : d ∈ st) by (apply list_elem_of_lookup; eauto).
  destruct (list_find_elem_of (fun s => s_id s = s_id old) st d Hin Hd) as [[k d'] Hf].
  rewrite Hf. apply list_find_Some in Hf. destruct Hf as (Hk & Hd' & _).
  assert (k = j) as ->; [|reflexivity].
  apply (NoDup_lookup (map s_id st) k j (s_id old) Hid).
  - change (map s_id st) with (s_id <$> st). rewrite list_lookup_fmap, Hk. cbn.
    f_equal. exact Hd'.
  - change (map s_id st) with (s_id <$> st). rewrite list_lookup_fmap, Hj. cbn.
    f_equal. exact Hd.
Qed.

(** The last item is the one a fresh key finds. *)
Lemma del_each_last {A} (key : A → string) (l : list A) x :
  key x ∉ map key l → del_each key [key x] (l ++ [x]) = Ok l.
Proof.
  intros Hfresh. cbn [del_each].
  assert (Hf : list_find (fun item => key item = key x) (l ++ [x])
               = Some (length l, x)).
  { apply list_find_Some. split; [|split].
    - rewrite lookup_app_r by lia. rewrite Nat.sub_diag. reflexivity.
    - reflexivity.
    - intros k y Hk Hlt Hy. apply Hfresh. rewrite <- Hy.
      rewrite lookup_app_l in Hk by exact Hlt.
      apply list_elem_of_fmap. exists y. split; [reflexivity|].
      apply list_elem_of_lookup. eauto. }
  rewrite Hf. cbn [del_index]. cbv beta iota delta [rbind Ok].
  f_equal. clear. induction l as [|a l IH]; [reflexivity|].
  cbn [length app]. change (delete (S (length l)) (a :: (l ++ [x])))
    with (a :: delete (length l) (l ++ [x])). rewrite IH. reflexivity.
Qed.

(** X12. A reservation made and then deleted leaves the store as it
    was: after a successful [create_block_reservation], the call of
    [delete_block_reservations] with the id of the new reservation, by
    an administrator or by the caller who made it, succeeds and gives
    back the store from before the creation. Document ids are unique,
    and the id drawn for the reservation is not that of a reservation
    of the block. *)
Theorem reservation_create_delete_round_trip
    ctx ctx' space block req st target_space i target_block out st1 :
  ids_unique st →
  head (spaces_named space st) = Some target_space →
  find_block (s_blocks target_space) block = Some (i, target_block) →
  fresh_id ctx ∉ map r_id (b_resv target_block) →
  (is_admin ctx' = true ∨ user_name ctx' = creator_id ctx) →
  create_block_reservation ctx space block req st = (Ok out, st1) →
  delete_block_reservations ctx' space block [r_id (o_resv out)] st1 = (Ok tt, st).
Proof.
  intros Hid Hsp Hblk Hfresh Hown Hrun.
  pose proof (create_block_reservation_writes _ _ _ _ _ _ _ _ _ _ Hsp Hblk Hrun) as Hrep.
  pose proof (create_block_reservation_allocates _ _ _ _ _ _ _ _ _ _ Hsp Hblk Hrun) as Ha.
  pose proof (create_block_reservation_run ctx space block req st target_space i
                target_block Hsp Hblk) as Hshape.
  rewrite Ha in Hshape. destruct Hshape as [st1' Hshape].
  rewrite Hrun in Hshape. injection Hshape as Hout _.
  assert (Hrid : r_id (o_resv out) = fresh_id ctx) by (rewrite Hout; reflexivity).
  assert (Huid : r_userId (o_resv out) = creator_id ctx) by (rewrite Hout; reflexivity).
  destruct (replaces_same_doc _ _ _ _ Hid Hrep) as (j & Hj & ->).
  set (f := set_b_resv (fun l => l ++ [o_resv out])) in *.
  set (target' := set_s_blocks (alter f i) target_space) in *.
  assert (Hsp1 : head (spaces_named space (<[j := target']> st)) = Some target').
  { apply (spaces_named_insert _ _ _ target_space); auto. }
  assert (Hblk1 : find_block (s_blocks target') block = Some (i, f target_block)).
  { cbn [target' set_s_blocks s_blocks]. apply find_block_alter; [reflexivity|exact Hblk]. }
  assert (Hdel : del_each r_id [r_id (o_resv out)] (b_resv (f target_block))
                 = Ok (b_resv target_block)).
  { cbn [f set_b_resv b_resv]. apply del_each_last. rewrite Hrid. exact Hfresh. }
  rewrite (delete_block_reservations_run ctx' space block [r_id (o_resv out)]
             (<[j := target']> st) target' i (f target_block) (b_resv target_block)
             Hsp1 Hblk1).
  - assert (Hback : set_s_blocks
                      (alter (set_b_resv (fun _ => b_resv target_block)) i) target'
                    = target_space).
    { unfold target'. destruct target_space as [id tn nm ds blocks].
      unfold set_s_blocks. cbn [s_blocks s_id s_tenant_id s_name s_desc] in *. f_equal.
      rewrite list_alter_alter_eq. unfold find_block in Hblk.
      apply list_find_Some in Hblk. destruct Hblk as (Hi & _).
      apply (alter_at _ _ _ target_block Hi). destruct target_block. reflexivity. }
    rewrite Hback.
    assert (Hid1 : ids_unique (<[j := target']> st)).
    { unfold ids_unique. change (NoDup (s_id <$> <[j := target']> st)).
      rewrite list_fmap_insert, list_insert_id; [exact Hid|].
      rewrite list_lookup_fmap, Hj. reflexivity. }
    rewrite (cosmos_replace_at target' target_space (<[j := target']> st) j target' Hid1).
    + rewrite list_insert_insert_eq, list_insert_id by exact Hj. reflexivity.
    + apply list_lookup_insert_eq. apply lookup_lt_Some in Hj. exact Hj.
    + reflexivity.
  - repeat constructor. intros H. inversion H.
  - intros id Hin. apply list_elem_of_singleton in Hin. subst id.
    cbn [f set_b_resv b_resv]. rewrite map_app. apply elem_of_app. right. left.
  - destruct Hown as [Hadm|Hu]; [left; exact Hadm|right].
    intros r Hr Hin. apply list_elem_of_singleton in Hin.
    cbn [f set_b_resv b_resv] in Hr. apply elem_of_app in Hr.
    destruct Hr as [Hr|Hr].
    + exfalso. apply Hfresh. rewrite <- Hrid, <- Hin. apply list_elem_of_fmap. eauto.
    + apply list_elem_of_singleton in Hr. subst r. rewrite Huid, Hu. reflexivity.
  - exact Hdel.
Qed.

(** Alice reserves [10.0.0.64/27] and deletes it again. *)
Lemma reservation_create_delete_round_trip_witness :
  delete_block_reservations alice_ctx "prod" "core" ["res9"]
    (one_block_store [resv_quarter; new_cidr alice_ctx (cidr 10 0 0 64 27)])
  = (Ok tt, one_block_store [resv_quarter]).
Proof.
  apply (reservation_create_delete_round_trip alice_ctx alice_ctx "prod" "core"
           (BlockCIDRReq.mk 27 false true) (one_block_store [resv_quarter])
           (prod_space [resv_quarter]) 0%nat (core_block [resv_quarter])
           (mkReservationOut (new_cidr alice_ctx (cidr 10 0 0 64 27)) "prod" "core")).
  - unfold ids_unique. vm_compute. repeat constructor. intros H; inversion H.
  - vm_compute; reflexivity.
  - vm_compute; reflexivity.
  - cbn. rewrite elem_of_cons, elem_of_nil. intros [H|[]]. discriminate H.
  - right. reflexivity.
  - vm_compute; reflexivity.
Defined.

(** ** Admin checks and lookups of the handlers *)

(** X13. A caller who is not an administrator is turned away with a
    403 by every handler of spaces, blocks and block networks that
    changes the store, whatever the request carries and whatever the
    store holds, and the store is as it was. *)
Theorem admin_restricted_forbidden ctx r st :
  is_admin ctx = false → admin_restricted r = true →
  ∃ detail, handle ctx r st = (Raise (HTTPException 403 detail), st).
Proof.
  intros Hadm Hr. destruct r; try discriminate Hr; cbn [handle];
    unfold create_space, update_space, delete_space, create_block, delete_block,
      create_block_vnet, update_block_vnets, delete_block_vnets, bind, admin_only;
    rewrite Hadm; eexists; reflexivity.
Qed.

(** Alice asks for the deletion of the space [prod]. *)
Lemma admin_restricted_forbidden_witness :
  ∃ detail,
    handle alice_ctx (DeleteSpace "prod" true) (one_block_store [])
    = (Raise (HTTPException 403 detail), one_block_store []).
Proof.
  apply (admin_restricted_forbidden alice_ctx (DeleteSpace "prod" true)); reflexivity.
Defined.

(** X14. A request on a space name that no space of the store bears,
    whatever the case, ends with the 400 of an invalid space name and
    leaves the store as it was; the name is looked up before the body
    of the request is. The caller passes the admin check of the
    handler. *)
Theorem unknown_space_rejected ctx r st space :
  request_space r = Some space →
  spaces_named space st = [] →
  is_admin ctx = true ∨ admin_restricted r = false →
  handle ctx r st = (Raise (HTTPException 400 "Invalid space name."), st).
Proof.
  intros Hr Hsp Hpass.
  destruct r; try discriminate Hr; injection Hr as ->; cbn [handle];
    unfold update_space, delete_space, create_block, create_multi_block_reservation,
      delete_block, create_block_vnet, update_block_vnets, delete_block_vnets,
      create_block_reservation, delete_block_reservations,
      bind, admin_only, cosmos_query;
    try (destruct Hpass as [-> | Hpass]; [|discriminate Hpass]);
    cbv beta iota delta [raise_if negb ret Ok]; rewrite Hsp; reflexivity.
Qed.

(** Alice asks for a reservation in the space [lab] of a store that
    has the space [prod] alone. *)
Lemma unknown_space_rejected_witness :
  handle alice_ctx (CreateBlockReservation "lab" "core" (BlockCIDRReq.mk 26 false false))
    (one_block_store [])
  = (Raise (HTTPException 400 "Invalid space name."), one_block_store []).
Proof.
  apply (unknown_space_rejected alice_ctx
           (CreateBlockReservation "lab" "core" (BlockCIDRReq.mk 26 false false))
           (one_block_store []) "lab").
  - reflexivity.
  - vm_compute; reflexivity.
  - right. reflexivity.
Defined.

(** X15. A request on a block name that no block of the space bears,
    whatever the case, ends with the 400 of an invalid block name and
    leaves the store as it was; the name is looked up before the body
    of the request is. The name of the request and the names of the
    blocks of the space are ASCII, so that the comparison up to case
    is the one the program makes. The space exists and the caller
    passes the admin check of the handler. *)
Theorem unknown_block_rejected ctx r st space block target_space :
  request_space r = Some space →
  request_block r = Some block →
  head (spaces_named space st) = Some target_space →
  is_ascii block = true →
  Forall (fun b => is_ascii (b_name b) = true) (s_blocks target_space) →
  find_block (s_blocks target_space) block = None →
  is_admin ctx = true ∨ admin_restricted r = false →
  handle ctx r st = (Raise (HTTPException 400 "Invalid block name."), st).
Proof.
  intros Hr Hb Hsp _ _ Hblk Hpass.
  destruct r; try discriminate Hb; injection Hr as ->; injection Hb as ->; cbn [handle];
    unfold delete_block, create_block_vnet, update_block_vnets, delete_block_vnets,
      create_block_reservation, delete_block_reservations,
      bind, admin_only, cosmos_query, first_space, target_block_of;
    try (destruct Hpass as [-> | Hpass]; [|discriminate Hpass]);
    cbv beta iota delta [raise_if negb ret Ok];
    (destruct (spaces_named space st) as [|s rest]; [discriminate Hsp|]);
    injection Hsp as ->; rewrite Hblk; reflexivity.
Qed.

(** The administrator asks for the deletion of the block [edge] of a
    space that has the block [core] alone. *)
Lemma unknown_block_rejected_witness :
  handle admin_ctx (DeleteBlock "prod" "edge" true) (one_block_store [])
  = (Raise (HTTPException 400 "Invalid block name."), one_block_store []).
Proof.
  apply (unknown_block_rejected admin_ctx (DeleteBlock "prod" "edge" true)
           (one_block_store []) "prod" "edge" (prod_space [])).
  - reflexivity.
  - reflexivity.
  - vm_compute; reflexivity.
  - reflexivity.
  - repeat constructor.
  - vm_compute; reflexivity.
  - left. reflexivity.
Defined.

(** ** Spaces made, found and deleted *)

Lemma filter_snoc_only {A} (P : A → Prop) `{∀ x, Decision (P x)} (l : list A) x :
  Forall (fun y => ¬ P y) l → P x → filter P (l ++ [x]) = [x].
Proof.
  intros Hl Hx. rewrite filter_app, filter_none.
  - cbn [app]. rewrite filter_cons, decide_True by exact Hx. reflexivity.
  - intros y Hy. exact (proj1 (Forall_forall _ _) Hl y Hy).
Qed.

Lemma filter_insert_only {A} (P : A → Prop) `{∀ x, Decision (P x)} (l : list A) x :
  ∀ i, Forall (fun y => ¬ P y) l → (i < length l)%nat → P x →
       filter P (<[i := x]> l) = [x].
Proof.
  induction l as [|a l IH]; intros i Hl Hi Hx; [cbn in Hi; lia|].
  apply Forall_cons in Hl. destruct Hl as [Ha Hl]. destruct i as [|i].
  - change (<[0%nat := x]> (a :: l)) with (x :: l).
    rewrite filter_cons, decide_True by exact Hx. f_equal.
    apply filter_none. intros y Hy. exact (proj1 (Forall_forall _ _) Hl y Hy).
  - change (<[S i := x]> (a :: l)) with (a :: <[i := x]> l).
    rewrite filter_cons, decide_False by exact Ha.
    apply IH; [exact Hl|cbn in Hi; lia|exact Hx].
Qed.

(** X16. A space that [create_space] made is found by its name,
    written in any case, and is the only space found: in the store the
    handler leaves, the query by a name equal to the new name up to
    case gives the new space alone. *)
Theorem create_space_then_found ctx space st s st' name :
  create_space ctx space st = (Ok s, st') →
  lower name = lower (SpaceReq.name space) →
  spaces_named name st' = [s].
Proof.
  intros Hrun Hname. destruct (create_space_Ok _ _ _ _ _ Hrun) as (Hs & Hnone & Hup).
  assert (Hp : lower (s_name s) = lower name) by (rewrite Hs, Hname; reflexivity).
  assert (Hl : Forall (fun y => ¬ lower (s_name y) = lower name) st).
  { rewrite Hname. exact Hnone. }
  unfold cosmos_upsert in Hup. unfold spaces_named.
  destruct (list_find _ st) as [[i d]|] eqn:Hf; injection Hup as <-.
  - apply list_find_Some in Hf. destruct Hf as (Hi & _).
    apply filter_insert_only; [exact Hl| |exact Hp].
    apply lookup_lt_Some in Hi. exact Hi.
  - apply filter_snoc_only; assumption.
Qed.

(** The administrator makes the space [Lab], found as [LAB]. *)
Lemma create_space_then_found_witness :
  spaces_named "LAB" (one_block_store [] ++ [mkSpace "res9" "t1" "Lab" "laboratory" []])
  = [mkSpace "res9" "t1" "Lab" "laboratory" []].
Proof.
  apply (create_space_then_found admin_ctx (SpaceReq.mk "Lab" "laboratory")
           (one_block_store [])).
  - vm_compute; reflexivity.
  - vm_compute; reflexivity.
Defined.

Lemma list_find_snoc_fresh {A} (P : A → Prop) `{∀ x, Decision (P x)} (l : list A) x :
  Forall (fun y => ¬ P y) l → P x → list_find P (l ++ [x]) = Some (length l, x).
Proof.
  intros Hl Hx. apply list_find_Some. split; [|split].
  - rewrite lookup_app_r by lia. rewrite Nat.sub_diag. reflexivity.
  - exact Hx.
  - intros k y Hk Hlt. rewrite lookup_app_l in Hk by exact Hlt.
    apply (proj1 (Forall_forall _ _) Hl y). apply list_elem_of_lookup. eauto.
Qed.

Lemma delete_snoc {A} (l : list A) x : delete (length l) (l ++ [x]) = l.
Proof. rewrite delete_middle. apply app_nil_r. Qed.

(** X17. A space made and then deleted leaves the store as it was:
    after a successful [create_space], [delete_space] called by an
    administrator with the name of the new space, with or without
    [force], succeeds and gives back the store from before the
    creation. The id drawn for the space is not that of a stored
    document. *)
Theorem space_create_delete_round_trip ctx ctx' space force st s st1 :
  fresh_id ctx ∉ map s_id st →
  is_admin ctx' = true →
  create_space ctx space st = (Ok s, st1) →
  delete_space ctx' (SpaceReq.name space) force st1 = (Ok tt, st).
Proof.
  intros Hfresh Hadm Hrun.
  destruct (create_space_Ok _ _ _ _ _ Hrun) as (Hs & Hnone & Hup).
  assert (Hq : spaces_named (SpaceReq.name space) (st ++ [s]) = [s]).
  { apply filter_snoc_only; [exact Hnone|]. rewrite Hs. reflexivity. }
  assert (Hids : Forall (fun y => ¬ s_id y = s_id s) st).
  { apply Forall_forall. intros y Hy Hid. apply Hfresh. rewrite Hs in Hid. cbn in Hid.
    rewrite <- Hid. apply list_elem_of_fmap. eauto. }
  unfold cosmos_upsert in Hup.
  rewrite (proj2 (list_find_None _ _) Hids) in Hup. injection Hup as <-.
  unfold delete_space, bind, admin_only, cosmos_query. rewrite Hadm.
  cbv beta iota delta [raise_if negb ret Ok]. rewrite Hq.
  cbv beta iota delta [first_space ret Ok].
  assert (Hb : s_blocks s = []) by (rewrite Hs; reflexivity).
  rewrite Hb. cbn [length Nat.ltb Nat.leb]. rewrite andb_false_r.
  unfold cosmos_delete. rewrite (list_find_snoc_fresh _ st s Hids eq_refl).
  rewrite delete_snoc. reflexivity.
Qed.

(** The administrator makes the space [Lab] and deletes it as [Lab]. *)
Lemma space_create_delete_round_trip_witness :
  delete_space admin_ctx "Lab" false
    (one_block_store [] ++ [mkSpace "res9" "t1" "Lab" "laboratory" []])
  = (Ok tt, one_block_store []).
Proof.
  apply (space_create_delete_round_trip admin_ctx admin_ctx
           (SpaceReq.mk "Lab" "laboratory") false (one_block_store [])
           (mkSpace "res9" "t1" "Lab" "laboratory" [])).
  - cbn. rewrite elem_of_cons, elem_of_nil. intros [H|[]]. discriminate H.
  - reflexivity.
  - vm_compute; reflexivity.
Defined.

(** ** Deleting a block *)

(** X18. [delete_block] removes the block it is asked to: called by
    an administrator with the name of a block as it is stored, the
    first block of that name up to case, it succeeds when [force] is
    set or the block holds no network and no reservation, and the
    document written back is the space without that block. *)
Theorem delete_block_removes ctx space block force st target_space i target_block :
  is_admin ctx = true →
  head (spaces_named space st) = Some target_space →
  find_block (s_blocks target_space) block = Some (i, target_block) →
  b_name target_block = block →
  force = true ∨ (b_vnets target_block = [] ∧ b_resv target_block = []) →
  ∃ st',
    delete_block ctx space block force st = (Ok tt, st')
    ∧ replaces st st' target_space
        (set_s_blocks (fun _ => delete i (s_blocks target_space)) target_space).
Proof.
  intros Hadm Hsp Hblk Hname Hempty.
  pose proof (head_spaces_named_elem _ _ _ Hsp) as Hin.
  assert (Hexact : list_find (fun item => b_name item = block) (s_blocks target_space)
                   = Some (i, target_block)).
  { unfold find_block in Hblk. apply list_find_Some in Hblk.
    destruct Hblk as (Hi & _ & Hlt). apply list_find_Some.
    split; [exact Hi|]. split; [exact Hname|].
    intros j y Hj Hji Hy. apply (Hlt j y Hj Hji). rewrite Hy. reflexivity. }
  destruct (cosmos_replace_Ok target_space
              (set_s_blocks (fun _ => delete i (s_blocks target_space)) target_space)
              st Hin) as [j Hrep].
  exists (<[j := set_s_blocks (fun _ => delete i (s_blocks target_space)) target_space]> st).
  split; [|split; [exact Hin|split; [reflexivity|exact Hrep]]].
  unfold delete_block, bind, admin_only, cosmos_query, first_space, target_block_of.
  rewrite Hadm. cbv beta iota delta [raise_if negb ret Ok].
  destruct (spaces_named space st) as [|s rest]; [discriminate Hsp|].
  injection Hsp as ->. rewrite Hblk. cbv beta iota zeta delta [ret snd].
  assert (Hcheck : (negb force
                    && ((0 <? length (b_vnets target_block))%nat
                        || (0 <? length (b_resv target_block))%nat)) = false).
  { destruct Hempty as [-> | [-> ->]]; [reflexivity|]. apply andb_false_r. }
  change (if force then false else true) with (negb force). rewrite Hcheck.
  cbv beta iota delta [lift]. rewrite Hexact. cbn [del_index].
  cbv beta iota delta [Ok]. exact Hrep.
Qed.

(** The administrator deletes the empty block [edge]. *)
Lemma delete_block_removes_witness :
  ∃ st',
    delete_block admin_ctx "prod" "edge" false grown_store = (Ok tt, st')
    ∧ replaces grown_store st'
        (mkSpace "id1" "t1" "prod" "production" [core_block []; edge_block])
        (set_s_blocks (fun _ => delete 1%nat [core_block []; edge_block])
           (mkSpace "id1" "t1" "prod" "production" [core_block []; edge_block])).
Proof.
  apply (delete_block_removes admin_ctx "prod" "edge" false grown_store
           (mkSpace "id1" "t1" "prod" "production" [core_block []; edge_block])
           1%nat edge_block).
  - reflexivity.
  - vm_compute; reflexivity.
  - vm_compute; reflexivity.
  - reflexivity.
  - right. split; reflexivity.
Defined.



(** ** Updating a space *)

(** What [scrub_space_patch] lets through: replacements of the name
    by a value that matches the pattern of names, and of the
    description by a value that matches the pattern of descriptions. *)
Lemma scrub_space_patch_Ok patch : ∀ scrubbed,
  scrub_space_patch patch = Ok scrubbed →
  Forall (fun item =>
            (PatchOp.path item = "/name" ∧ valid_name (PatchOp.value item) = true)
            ∨ (PatchOp.path item = "/desc" ∧ valid_desc (PatchOp.value item) = true))
         scrubbed.
Proof.
  induction patch as [|item patch IH]; intros scrubbed H; cbn [scrub_space_patch] in H.
  - injection H as <-. constructor.
  - destruct (decide (PatchOp.op item = "replace" ∧ PatchOp.path item = "/name"))
      as [[_ Hp]|_].
    + destruct (valid_name (PatchOp.value item)) eqn:Hv; [|discriminate H].
      destruct (scrub_space_patch patch) as [e|rest]; cbv beta iota delta [rbind Ok] in H;
        [discriminate H|]. injection H as <-.
      constructor; [left; split; assumption|apply IH; reflexivity].
    + destruct (decide (PatchOp.op item = "replace" ∧ PatchOp.path item = "/desc"))
        as [[_ Hp]|_]; [|apply IH; exact H].
      destruct (valid_desc (PatchOp.value item)) eqn:Hv; [|discriminate H].
      destruct (scrub_space_patch patch) as [e|rest]; cbv beta iota delta [rbind Ok] in H;
        [discriminate H|]. injection H as <-.
      constructor; [right; split; assumption|apply IH; reflexivity].
Qed.

Lemma apply_patch_fields patch : ∀ s,
  Forall (fun item =>
            (PatchOp.path item = "/name" ∧ valid_name (PatchOp.value item) = true)
            ∨ (PatchOp.path item = "/desc" ∧ valid_desc (PatchOp.value item) = true))
         patch →
  s_tenant_id (apply_patch patch s) = s_tenant_id s
  ∧ (s_name (apply_patch patch s) = s_name s
     ∨ valid_name (s_name (apply_patch patch s)) = true)
  ∧ (s_desc (apply_patch patch s) = s_desc s
     ∨ valid_desc (s_desc (apply_patch patch s)) = true).
Proof.
  unfold apply_patch. induction patch as [|item patch IH]; intros s Hall; cbn [fold_left].
  - auto.
  - apply Forall_cons in Hall. destruct Hall as [Hitem Hall].
    destruct (IH (apply_op s item) Hall) as (Ht & Hn & Hd). unfold apply_op in *.
    destruct (decide (PatchOp.path item = "/name")) as [Hp|Hp].
    + cbn [set_s_name s_tenant_id s_name s_desc] in *.
      destruct Hitem as [[_ Hv]|[Hq _]]; [|rewrite Hp in Hq; discriminate Hq].
      split; [exact Ht|]. split; [|exact Hd].
      destruct Hn as [Hn|Hn]; [right; rewrite Hn; exact Hv|right; exact Hn].
    + destruct (decide (PatchOp.path item = "/desc")) as [Hq|Hq].
      * cbn [set_s_desc s_tenant_id s_name s_desc] in *.
        destruct Hitem as [[Hr _]|[_ Hv]]; [contradiction|].
        split; [exact Ht|]. split; [exact Hn|].
        destruct Hd as [Hd|Hd]; [right; rewrite Hd; exact Hv|right; exact Hd].
      * destruct Hitem as [[Hr _]|[Hr _]]; contradiction.
Qed.

(** X20. What [update_space] can change: the document it returns is
    the one it writes in place of the space found by name; it has the
    id, the tenant and the blocks of that space; its name is the old
    one or a value that matches the pattern of names, and its
    description the old one or a value that matches the pattern of
    descriptions. *)
Theorem update_space_changes ctx space updates st s st' :
  update_space ctx space updates st = (Ok s, st') →
  ∃ target_space,
    head (spaces_named space st) = Some target_space
    ∧ replaces st st' target_space s
    ∧ s_id s = s_id target_space
    ∧ s_tenant_id s = s_tenant_id target_space
    ∧ s_blocks s = s_blocks target_space
    ∧ (s_name s = s_name target_space ∨ valid_name (s_name s) = true)
    ∧ (s_desc s = s_desc target_space ∨ valid_desc (s_desc s) = true).
Proof.
  intros H. unfold update_space in H. peel H.
  unfold ret in H. injection H as <- <-.
  lazymatch goal with
  | Hs : scrub_space_patch updates = _ ?p, Hh : head _ = Some ?t |- _ =>
      pose proof (scrub_space_patch_Ok _ _ Hs) as Hall;
      destruct (apply_patch_fields p t Hall) as (Ht & Hn & Hd);
      destruct (apply_patch_keeps p t) as [Hi Hb];
      exists t; split; [exact Hh|]; split;
        [refine (replaces_intro _ _ _ _ _ _ Hh _ Hstep); exact Hi|];
      repeat split; assumption
  end.
Qed.

(** The administrator renames the space [prod] to [live]. *)
Lemma update_space_changes_witness :
  ∃ target_space,
    head (spaces_named "prod" (one_block_store [])) = Some target_space
    ∧ s_blocks (mkSpace "id1" "t1" "live" "production" [core_block []])
      = s_blocks target_space.
Proof.
  destruct (update_space_changes admin_ctx "prod" [PatchOp.mk "replace" "/name" "live"]
              (one_block_store [])
              (mkSpace "id1" "t1" "live" "production" [core_block []])
              [mkSpace "id1" "t1" "live" "production" [core_block []]])
    as (t & Hh & _ & _ & _ & Hb & _).
  - vm_compute; reflexivity.
  - exists t. split; [exact Hh|exact Hb].
Defined.

(** ** Overlap checks, the other way round *)

(** A set no address belongs to lists no CIDR. *)
Lemma nonempty_false_intro s :
  netaddr.valid s → (∀ a, netaddr.contains s a = false) → netaddr.nonempty s = false.
Proof.
  intros Hv Hnone. unfold netaddr.nonempty.
  destruct (netaddr.iter_cidrs s) as [|n l] eqn:E; [reflexivity|].
  exfalso. assert (Hin : n ∈ netaddr.iter_cidrs s) by (rewrite E; left).
  destruct (netaddr_facts.iter_cidrs_sound s n Hv Hin) as ([_ Hp] & _ & Hm).
  pose proof (netaddr_facts.first_le_last n Hp) as Hfl.
  specialize (Hm (netaddr.first n)). rewrite Hnone in Hm.
  assert (Ht : netaddr.net_mem n (netaddr.first n) = true)
    by (apply netaddr_facts.net_mem_iff; lia).
  specialize (Hm Ht). discriminate Hm.
Qed.

(** Two networks with no address in common are disjoint ranges. *)
Lemma no_common_disjoint x y :
  netaddr.wf_net x → netaddr.wf_net y →
  (∀ a, netaddr.net_mem x a = true → netaddr.net_mem y a = false) →
  netaddr.disjoint x y.
Proof.
  intros [_ Hpx] [_ Hpy] Hno.
  pose proof (netaddr_facts.first_le_last x Hpx) as Hxx.
  pose proof (netaddr_facts.first_le_last y Hpy) as Hyy.
  unfold netaddr.disjoint.
  destruct (Z_lt_dec (netaddr.last x) (netaddr.first y)) as [|Hn1]; [left; assumption|].
  destruct (Z_lt_dec (netaddr.last y) (netaddr.first x)) as [|Hn2]; [right; assumption|].
  exfalso. set (a := Z.max (netaddr.first x) (netaddr.first y)).
  assert (Hx : netaddr.net_mem x a = true)
    by (apply netaddr_facts.net_mem_iff; subst a; lia).
  assert (Hy : netaddr.net_mem y a = true)
    by (apply netaddr_facts.net_mem_iff; subst a; lia).
  rewrite (Hno a Hx) in Hy. discriminate Hy.
Qed.

Lemma disjoint_no_common x y a :
  netaddr.disjoint x y → netaddr.net_mem x a = true → netaddr.net_mem y a = false.
Proof.
  intros Hd Hx. apply netaddr_facts.net_mem_iff in Hx.
  destruct (netaddr.net_mem y a) eqn:Hy; [|reflexivity].
  apply netaddr_facts.net_mem_iff in Hy. unfold netaddr.disjoint in Hd. lia.
Qed.

(** Networks that are disjoint from one another make sets that do not
    meet. *)
Lemma disjoint_no_overlap l1 l2 :
  Forall netaddr.wf_net l1 → Forall netaddr.wf_net l2 →
  (∀ x y, x ∈ l1 → y ∈ l2 → netaddr.disjoint x y) →
  netaddr.nonempty (netaddr.inter (netaddr.mkIPSet l1) (netaddr.mkIPSet l2)) = false.
Proof.
  intros H1 H2 Hd.
  pose proof (netaddr_facts.valid_mkIPSet _ H1) as V1.
  pose proof (netaddr_facts.valid_mkIPSet _ H2) as V2.
  apply nonempty_false_intro; [apply netaddr_facts.valid_inter; assumption|].
  intros a. rewrite (netaddr_facts.contains_inter _ _ a V1 V2).
  rewrite (netaddr_facts.contains_mkIPSet _ a H1).
  rewrite (netaddr_facts.contains_mkIPSet _ a H2).
  destruct (existsb (fun n => netaddr.net_mem n a) l1) eqn:E1; [|reflexivity].
  apply existsb_exists in E1. destruct E1 as (x & Hx & Hxa).
  cbn [andb]. destruct (existsb (fun n => netaddr.net_mem n a) l2) eqn:E2; [|reflexivity].
  apply existsb_exists in E2. destruct E2 as (y & Hy & Hya).
  apply list_elem_of_In in Hx. apply list_elem_of_In in Hy.
  rewrite (disjoint_no_common x y a (Hd x y Hx Hy) Hxa) in Hya. discriminate Hya.
Qed.

(** X21. [create_block] accepts every block that fits: called by an
    administrator on a space that exists, with a well-formed CIDR that
    is disjoint from the CIDR of every block of the space, it succeeds,
    returns the new block, empty, and writes the space back with that
    block at the end of its list. No check is made of the name. *)
Theorem create_block_complete ctx space block st target_space :
  is_admin ctx = true →
  head (spaces_named space st) = Some target_space →
  netaddr.wf_net (BlockReq.cidr block) →
  Forall netaddr.wf_net (map b_cidr (s_blocks target_space)) →
  Forall (netaddr.disjoint (BlockReq.cidr block)) (map b_cidr (s_blocks target_space)) →
  ∃ st',
    create_block ctx space block st
    = (Ok (mkBlock (BlockReq.name block) (BlockReq.cidr block) [] []), st')
    ∧ replaces st st' target_space
        (set_s_blocks
           (fun l => l ++ [mkBlock (BlockReq.name block) (BlockReq.cidr block) [] []])
           target_space).
Proof.
  intros Hadm Hsp Hwf Hall Hdis.
  pose proof (head_spaces_named_elem _ _ _ Hsp) as Hin.
  assert (Hno : netaddr.nonempty
                  (netaddr.inter (netaddr.mkIPSet [BlockReq.cidr block])
                     (netaddr.mkIPSet (map b_cidr (s_blocks target_space)))) = false).
  { apply disjoint_no_overlap; [constructor; [exact Hwf|constructor]|exact Hall|].
    intros x y Hx Hy. apply list_elem_of_singleton in Hx. subst x.
    exact (proj1 (Forall_forall _ _) Hdis y Hy). }
  destruct (cosmos_replace_Ok target_space
              (set_s_blocks
                 (fun l => l ++ [mkBlock (BlockReq.name block) (BlockReq.cidr block) [] []])
                 target_space) st Hin) as [j Hrep].
  eexists. split; [|split; [exact Hin|split; [reflexivity|exact Hrep]]].
  unfold create_block, bind, admin_only, cosmos_query, first_space.
  rewrite Hadm. cbv beta iota delta [raise_if negb ret Ok].
  destruct (spaces_named space st) as [|s rest]; [discriminate Hsp|].
  injection Hsp as ->. cbv zeta. rewrite Hno. cbv beta iota delta [raise_if ret].
  rewrite Hrep. reflexivity.
Qed.

(** The administrator adds the block [edge], [10.0.1.0/24], to the
    space whose block [core] is [10.0.0.0/24]. *)
Lemma create_block_complete_witness :
  ∃ st',
    create_block admin_ctx "prod" (BlockReq.mk "edge" (cidr 10 0 1 0 24))
      (one_block_store [])
    = (Ok (mkBlock "edge" (cidr 10 0 1 0 24) [] []), st')
    ∧ replaces (one_block_store []) st' (prod_space [])
        (set_s_blocks (fun l => l ++ [mkBlock "edge" (cidr 10 0 1 0 24) [] []])
           (prod_space [])).
Proof.
  apply (create_block_complete admin_ctx "prod" (BlockReq.mk "edge" (cidr 10 0 1 0 24))
           (one_block_store []) (prod_space [])).
  - reflexivity.
  - vm_compute; reflexivity.
  - by_compute.
  - repeat constructor; by_compute.
  - constructor; [right; vm_compute; reflexivity|constructor].
Defined.

(** ** Replacing the networks of a block *)

(** What the loop of [update_block_vnets] has flagged stays
    flagged. *)
Lemma vnets_fold_flags ctx target_block vnets : ∀ acc,
  (vnet_overlap acc = true →
   vnet_overlap (fold_left (vnets_step ctx target_block) vnets acc) = true)
  ∧ (invalid_vnets acc ≠ [] →
     invalid_vnets (fold_left (vnets_step ctx target_block) vnets acc) ≠ [])
  ∧ (outside_block_cidr acc ≠ [] →
     outside_block_cidr (fold_left (vnets_step ctx target_block) vnets acc) ≠ []).
Proof.
  induction vnets as [|v vnets IH]; intros acc; cbn [fold_left]; [auto|].
  destruct (IH (vnets_step ctx target_block acc v)) as (Ho & Hi & Hb).
  unfold vnets_step in *.
  destruct (find_vnet (vnet_list ctx) v) as [tv|].
  - destruct (head (prefixes_in (b_cidr target_block) (vi_prefixes tv))) as [c|].
    + destruct (netaddr.nonempty _); cbn [vnet_overlap invalid_vnets outside_block_cidr vnet_ipset] in *; auto.
    + cbn [vnet_overlap invalid_vnets outside_block_cidr vnet_ipset] in *. repeat split; auto. intros Hne. apply Hb. intros Hnil.
      apply app_eq_nil in Hnil. destruct Hnil as [_ Hnil]. discriminate Hnil.
  - cbn [vnet_overlap invalid_vnets outside_block_cidr vnet_ipset] in *. repeat split; auto. intros Hne. apply Hi. intros Hnil.
    apply app_eq_nil in Hnil. destruct Hnil as [_ Hnil]. discriminate Hnil.
Qed.

(** A loop that ends with nothing flagged has found, for every id of
    the list, a first prefix in the block, and those prefixes are
    well-formed, disjoint from one another and from the set the loop
    started with. *)
Lemma vnets_fold_clean ctx target_block vnets :
  Forall (fun vi => Forall netaddr.wf_net (vi_prefixes vi)) (vnet_list ctx) →
  ∀ acc,
    netaddr.valid (vnet_ipset acc) →
    vnet_overlap (fold_left (vnets_step ctx target_block) vnets acc) = false →
    invalid_vnets (fold_left (vnets_step ctx target_block) vnets acc) = [] →
    outside_block_cidr (fold_left (vnets_step ctx target_block) vnets acc) = [] →
    ∃ cs,
      Forall2 (fun v c => target_cidr_of ctx target_block v = Some c) vnets cs
      ∧ Forall netaddr.wf_net cs
      ∧ pairwise_disjoint cs
      ∧ ∀ c a, c ∈ cs → netaddr.net_mem c a = true →
               netaddr.contains (vnet_ipset acc) a = false.
Proof.
  intros Hdir. induction vnets as [|v vnets IH]; intros acc Hv Ho Hi Hb; cbn [fold_left] in *.
  - exists []. repeat split; try constructor. intros c a Hc. inversion Hc.
  - destruct (vnets_fold_flags ctx target_block vnets (vnets_step ctx target_block acc v))
      as (Fo & Fi & Fb).
    specialize (IH (vnets_step ctx target_block acc v)).
    assert (Ht : ∃ tv c,
               find_vnet (vnet_list ctx) v = Some tv
               ∧ head (prefixes_in (b_cidr target_block) (vi_prefixes tv)) = Some c
               ∧ netaddr.nonempty
                   (netaddr.inter (vnet_ipset acc) (netaddr.mkIPSet [c])) = false).
    { unfold vnets_step in Fo, Fi, Fb, Ho, Hi, Hb.
      destruct (find_vnet (vnet_list ctx) v) as [tv|] eqn:Hfv.
      - destruct (head (prefixes_in (b_cidr target_block) (vi_prefixes tv))) as [c|]
          eqn:Hhd.
        + destruct (netaddr.nonempty _) eqn:Hne;
            [|exists tv, c; split; [reflexivity|split; [exact Hhd|exact Hne]]].
          cbn [vnet_overlap invalid_vnets outside_block_cidr vnet_ipset] in Fo. rewrite (Fo eq_refl) in Ho. discriminate Ho.
        + exfalso. refine (Fb _ Hb). cbn [vnet_overlap invalid_vnets outside_block_cidr vnet_ipset]. intros Hnil. apply app_eq_nil in Hnil.
          destruct Hnil as [_ Hnil]. discriminate Hnil.
      - exfalso. refine (Fi _ Hi). cbn [vnet_overlap invalid_vnets outside_block_cidr vnet_ipset]. intros Hnil. apply app_eq_nil in Hnil.
        destruct Hnil as [_ Hnil]. discriminate Hnil. }
    destruct Ht as (tv & c & Hfind & Hhead & Hno).
    assert (Hstep : vnets_step ctx target_block acc v
                    = mkVNetsAcc (invalid_vnets acc) (outside_block_cidr acc)
                        (netaddr.union (vnet_ipset acc) (netaddr.of_net c))
                        (vnet_overlap acc)).
    { unfold vnets_step. rewrite Hfind, Hhead, Hno. reflexivity. }
    rewrite Hstep in IH, Ho, Hi, Hb. cbn [vnet_ipset] in IH.
    assert (Hwc : netaddr.wf_net c).
    { apply head_Some_elem_of, prefixes_in_elem in Hhead.
      apply find_vnet_elem in Hfind.
      exact (proj1 (Forall_forall _ _)
               (proj1 (Forall_forall _ _) Hdir tv Hfind) c Hhead). }
    pose proof (netaddr_facts.valid_of_net c) as Hvc.
    destruct (IH (netaddr_facts.valid_union _ _ Hv Hvc) Ho Hi Hb)
      as (cs & Hall & Hwf & Hpd & Hfree).
    assert (Hsplit : ∀ c' a, c' ∈ cs → netaddr.net_mem c' a = true →
                     netaddr.contains (vnet_ipset acc) a = false
                     ∧ netaddr.net_mem c a = false).
    { intros c' a Hc' Ha. pose proof (Hfree c' a Hc' Ha) as Hu.
      rewrite (netaddr_facts.contains_union _ _ a Hv Hvc) in Hu.
      rewrite (netaddr_facts.contains_of_net c a Hwc) in Hu.
      apply orb_false_elim in Hu. exact Hu. }
    exists (c :: cs). split; [|split; [|split]].
    + constructor; [|exact Hall]. unfold target_cidr_of. rewrite Hfind. exact Hhead.
    + constructor; assumption.
    + cbn [pairwise_disjoint]. split; [|exact Hpd].
      apply Forall_forall. intros c' Hc'. apply disjoint_sym.
      apply no_common_disjoint; [exact (proj1 (Forall_forall _ _) Hwf c' Hc')|exact Hwc|].
      intros a Ha. exact (proj2 (Hsplit c' a Hc' Ha)).
    + intros c' a Hc' Ha. apply elem_of_cons in Hc'. destruct Hc' as [->|Hc'].
      * pose proof (netaddr_facts.nonempty_false _ a Hno) as Hn.
        assert (Hw1 : Forall netaddr.wf_net [c]) by (constructor; [exact Hwc|constructor]).
        rewrite (netaddr_facts.contains_inter _ _ a Hv
                   (netaddr_facts.valid_mkIPSet _ Hw1)) in Hn.
        rewrite (netaddr_facts.contains_mkIPSet _ a Hw1) in Hn.
        cbn [existsb] in Hn. rewrite Ha in Hn. cbn [orb] in Hn.
        rewrite andb_true_r in Hn. exact Hn.
      * exact (proj1 (Hsplit c' a Hc' Ha)).
Qed.

(** X22. What a successful [update_block_vnets] has checked and
    written: the ids of the request are distinct; each one names an
    entry of the directory, whatever the case, that has a prefix in the
    block; the first such prefixes of the listed networks are disjoint
    from one another; and the block of the document written back has
    exactly the requested networks, all active, in the order of the
    request. The prefixes of the directory are well-formed IPv4
    networks. *)
Theorem update_block_vnets_checked ctx space block vnets st l st' :
  Forall (fun vi => Forall netaddr.wf_net (vi_prefixes vi)) (vnet_list ctx) →
  update_block_vnets ctx space block vnets st = (Ok l, st') →
  ∃ target_space i target_block cs,
    head (spaces_named space st) = Some target_space
    ∧ find_block (s_blocks target_space) block = Some (i, target_block)
    ∧ l = map (fun v => mkVNet v true) vnets
    ∧ NoDup vnets
    ∧ Forall2 (fun v c => target_cidr_of ctx target_block v = Some c) vnets cs
    ∧ pairwise_disjoint cs
    ∧ replaces st st' target_space
        (set_s_blocks (alter (set_b_vnets (fun _ => l)) i) target_space).
Proof.
  intros Hdir H. unfold update_block_vnets in H. peel H.
  unfold ret in H. injection H as <- <-.
  lazymatch goal with
  | Hh : head _ = Some ?t, Hf : find_block _ _ = Some (?i, ?tb),
    Hu : negb (unique_ids vnets) = false,
    Ho : vnet_overlap _ = false,
    Hb : (0 <? length (outside_block_cidr _))%nat = false,
    Hi : (0 <? length (invalid_vnets _))%nat = false |- _ =>
      apply negb_false_iff in Hu;
      destruct (vnets_fold_clean ctx tb vnets Hdir (mkVNetsAcc [] [] netaddr.Empty false)
                  netaddr_facts.valid_Empty Ho)
        as (cs & Hall & _ & Hpd & _);
      [ destruct (invalid_vnets _); [reflexivity|discriminate Hi]
      | destruct (outside_block_cidr _); [reflexivity|discriminate Hb]
      | exists t, i, tb, cs;
        repeat (split; [first [exact Hh | exact Hf | reflexivity
                              | exact (unique_ids_true _ Hu) | exact Hall | exact Hpd]|]);
        refine (replaces_intro _ _ _ _ _ _ Hh _ Hstep); reflexivity ]
  end.
Qed.

(** The administrator replaces the networks of the block [wide] by
    [vnet1] and [vnet3], whose first prefixes in the block are
    [10.0.1.0/24] and [10.0.2.0/24]. *)
Lemma update_block_vnets_checked_witness :
  ∃ cs,
    Forall2 (fun v c => target_cidr_of vnet_ctx wide_block v = Some c) ["vnet1"; "vnet3"] cs
    ∧ pairwise_disjoint cs.
Proof.
  destruct (update_block_vnets_checked vnet_ctx "prod" "wide" ["vnet1"; "vnet3"]
              wide_store [mkVNet "vnet1" true; mkVNet "vnet3" true]
              [mkSpace "id1" "t1" "prod" "production"
                 [mkBlock "wide" (cidr 10 0 0 0 16)
                    [mkVNet "vnet1" true; mkVNet "vnet3" true] []]])
    as (t & i & tb & cs & Hh & Hf & _ & _ & Hall & Hpd & _).
  - repeat constructor; by_compute.
  - vm_compute; reflexivity.
  - assert (tb = wide_block) as ->.
    { vm_compute in Hh. injection Hh as <-. vm_compute in Hf. injection Hf as _ <-.
      reflexivity. }
    exists cs. split; assumption.
Defined.

(** ** What the read handlers show *)

Lemma get_block_reservations_run ctx space block st target_space i target_block :
  head (spaces_named space st) = Some target_space →
  find_block (s_blocks target_space) block = Some (i, target_block) →
  get_block_reservations ctx space block st
  = (Ok (if is_admin ctx then b_resv target_block
         else filter (fun x => r_userId x = user_name ctx) (b_resv target_block)), st).
Proof.
  intros Hsp Hblk.
  unfold get_block_reservations, bind, cosmos_query, first_space, target_block_of.
  destruct (spaces_named space st) as [|s rest]; [discriminate Hsp|].
  injection Hsp as ->. cbv beta iota delta [Ok ret]. rewrite Hblk.
  cbv beta iota zeta delta [ret snd]. destruct (is_admin ctx); reflexivity.
Qed.

(** X23. Who sees a new reservation: after a successful
    [create_block_reservation], [get_block_reservations] on the same
    block succeeds and leaves the store as it is; for an administrator
    and for the caller who made the reservation it ends with the new
    reservation, and for any other caller the list holds no reservation
    with another user id than the caller's, so the new one is not in
    it. Document ids are unique. *)
Theorem new_reservation_visibility
    ctx ctx' space block req st target_space i target_block out st1 :
  ids_unique st →
  head (spaces_named space st) = Some target_space →
  find_block (s_blocks target_space) block = Some (i, target_block) →
  create_block_reservation ctx space block req st = (Ok out, st1) →
  ∃ l,
    get_block_reservations ctx' space block st1 = (Ok l, st1)
    ∧ (is_admin ctx' = true ∨ user_name ctx' = creator_id ctx →
       last l = Some (o_resv out))
    ∧ (is_admin ctx' = false →
       Forall (fun r => r_userId r = user_name ctx') l
       ∧ (user_name ctx' ≠ creator_id ctx → o_resv out ∉ l)).
Proof.
  intros Hid Hsp Hblk Hrun.
  pose proof (create_block_reservation_writes _ _ _ _ _ _ _ _ _ _ Hsp Hblk Hrun) as Hrep.
  pose proof (create_block_reservation_allocates _ _ _ _ _ _ _ _ _ _ Hsp Hblk Hrun) as Ha.
  pose proof (create_block_reservation_run ctx space block req st target_space i
                target_block Hsp Hblk) as Hshape.
  rewrite Ha in Hshape. destruct Hshape as [st1' Hshape].
  rewrite Hrun in Hshape. injection Hshape as Hout _.
  assert (Huid : r_userId (o_resv out) = creator_id ctx) by (rewrite Hout; reflexivity).
  destruct (replaces_same_doc _ _ _ _ Hid Hrep) as (j & Hj & ->).
  set (f := set_b_resv (fun l => l ++ [o_resv out])) in *.
  set (target' := set_s_blocks (alter f i) target_space) in *.
  assert (Hsp1 : head (spaces_named space (<[j := target']> st)) = Some target').
  { apply (spaces_named_insert _ _ _ target_space); auto. }
  assert (Hblk1 : find_block (s_blocks target') block = Some (i, f target_block)).
  { cbn [target' set_s_blocks s_blocks]. apply find_block_alter; [reflexivity|exact Hblk]. }
  rewrite (get_block_reservations_run ctx' space block _ target' i (f target_block)
             Hsp1 Hblk1).
  eexists. split; [reflexivity|]. cbn [f set_b_resv b_resv]. split.
  - intros Hsee. destruct (is_admin ctx') eqn:Hadm; [apply last_snoc|].
    destruct Hsee as [Hsee|Hsee]; [discriminate Hsee|].
    rewrite filter_app, filter_cons, decide_True by (rewrite Huid, Hsee; reflexivity).
    apply last_snoc.
  - intros ->. split.
    + apply Forall_forall. intros r Hr. apply list_elem_of_filter in Hr. tauto.
    + intros Hne Hin. apply list_elem_of_filter in Hin. destruct Hin as [Hu _].
      apply Hne. rewrite <- Hu. exact Huid.
Qed.

(** Alice takes [10.0.0.64/27] and sees it at the end of her list. *)
Lemma new_reservation_visibility_witness :
  ∃ l,
    get_block_reservations alice_ctx "prod" "core"
      (one_block_store [resv_quarter; new_cidr alice_ctx (cidr 10 0 0 64 27)])
    = (Ok l, one_block_store [resv_quarter; new_cidr alice_ctx (cidr 10 0 0 64 27)])
    ∧ last l = Some (new_cidr alice_ctx (cidr 10 0 0 64 27)).
Proof.
  destruct (new_reservation_visibility alice_ctx alice_ctx "prod" "core"
              (BlockCIDRReq.mk 27 false true) (one_block_store [resv_quarter])
              (prod_space [resv_quarter]) 0%nat (core_block [resv_quarter])
              (mkReservationOut (new_cidr alice_ctx (cidr 10 0 0 64 27)) "prod" "core")
              (one_block_store [resv_quarter; new_cidr alice_ctx (cidr 10 0 0 64 27)]))
    as (l & Hrun & Hlast & _).
  - unfold ids_unique. vm_compute. repeat constructor. intros H; inversion H.
  - vm_compute; reflexivity.
  - vm_compute; reflexivity.
  - vm_compute; reflexivity.
  - exists l. split; [exact Hrun|]. apply Hlast. right. reflexivity.
Defined.

(** ** The networks offered for a block *)

Lemma drop_assigned_step_keeps space block space_iter block_iter available vnet_iter :
  sublist (drop_assigned_step space block space_iter block_iter available vnet_iter)
          available
  ∧ head (drop_assigned_step space block space_iter block_iter available vnet_iter)
    = head available.
Proof.
  unfold drop_assigned_step. case_decide; [|split; reflexivity].
  destruct (list_find _ available) as [[[|k] x]|]; try (split; reflexivity).
  split; [apply sublist_delete|]. destruct available; reflexivity.
Qed.

Lemma drop_assigned_keeps space block space_query : ∀ available,
  sublist (drop_assigned space block space_query available) available
  ∧ head (drop_assigned space block space_query available) = head available.
Proof.
  unfold drop_assigned.
  induction space_query as [|s spaces IHs]; intros available; cbn [fold_left];
    [split; reflexivity|].
  assert (Hb : ∀ blocks available,
             sublist (fold_left (fun available block_iter =>
                        fold_left (drop_assigned_step space block s block_iter)
                                  (b_vnets block_iter) available) blocks available)
                     available
             ∧ head (fold_left (fun available block_iter =>
                        fold_left (drop_assigned_step space block s block_iter)
                                  (b_vnets block_iter) available) blocks available)
               = head available).
  { induction blocks as [|b blocks IHb]; intros avail; cbn [fold_left];
      [split; reflexivity|].
    assert (Hv : ∀ vnets avail,
               sublist (fold_left (drop_assigned_step space block s b) vnets avail) avail
               ∧ head (fold_left (drop_assigned_step space block s b) vnets avail)
                 = head avail).
    { induction vnets as [|v vnets IHv]; intros av; cbn [fold_left];
        [split; reflexivity|].
      destruct (IHv (drop_assigned_step space block s b av v)) as [S1 H1].
      destruct (drop_assigned_step_keeps space block s b av v) as [S2 H2].
      split; [etransitivity; eassumption|congruence]. }
    destruct (IHb (fold_left (drop_assigned_step space block s b) (b_vnets b) avail))
      as [S1 H1].
    destruct (Hv (b_vnets b) avail) as [S2 H2].
    split; [etransitivity; eassumption|congruence]. }
  destruct (IHs (fold_left (fun available block_iter =>
                   fold_left (drop_assigned_step space block s block_iter)
                             (b_vnets block_iter) available) (s_blocks s) available))
    as [S1 H1].
  destruct (Hb (s_blocks s) available) as [S2 H2].
  split; [etransitivity; eassumption|congruence].
Qed.

Lemma narrow_vnets_elem cidr vnet_list w :
  w ∈ narrow_vnets cidr vnet_list →
  ∃ vnet, vnet ∈ vnet_list ∧ vi_id w = vi_id vnet
          ∧ vi_prefixes w = prefixes_in cidr (vi_prefixes vnet)
          ∧ vi_prefixes w ≠ [].
Proof.
  unfold narrow_vnets. intros H. apply list_elem_of_omap in H.
  destruct H as (vnet & Hin & Hw). exists vnet. split; [exact Hin|].
  destruct (prefixes_in cidr (vi_prefixes vnet)) as [|p ps] eqn:E; [discriminate Hw|].
  injection Hw as <-. cbn [vi_id vi_prefixes]. repeat split. discriminate.
Qed.

(** X24. What the handler of [/available] offers for a block: a
    selection, in the order of the directory, of the directory entries
    that have a prefix in the block, each with just its prefixes that
    lie in the block; and the first such entry is always offered,
    whatever blocks it is attached to, since the removal of the entries
    attached elsewhere passes over the index [0]. The store is left as
    it is. *)
Theorem available_block_vnets_offer ctx space block expand st r st' :
  available_block_vnets ctx space block expand st = (Ok r, st') →
  ∃ i target_space j target_block available,
    list_find (fun x => lower (s_name x) = lower space) st = Some (i, target_space)
    ∧ find_block (s_blocks target_space) block = Some (j, target_block)
    ∧ st' = st
    ∧ r = (if expand then inl available else inr (map vi_id available))
    ∧ sublist available (narrow_vnets (b_cidr target_block) (vnet_list ctx))
    ∧ head available = head (narrow_vnets (b_cidr target_block) (vnet_list ctx))
    ∧ Forall (fun w => vi_prefixes w ≠ []
                       ∧ Forall (fun p => netaddr.net_in p (b_cidr target_block) = true)
                                (vi_prefixes w)) available.
Proof.
  intros H. unfold available_block_vnets in H. peel H.
  destruct (list_find _ st) as [[i target_space]|] eqn:Hfind0; [|discriminate H].
  peel H.
  lazymatch goal with
  | Hf : find_block _ _ = Some ?tb |- _ =>
      destruct tb as [j target_block]; cbn [snd] in H;
      destruct (drop_assigned_keeps space block st
                  (narrow_vnets (b_cidr target_block) (vnet_list ctx))) as [Hsub Hhead];
      exists i, target_space, j, target_block,
        (drop_assigned space block st
           (narrow_vnets (b_cidr target_block) (vnet_list ctx)));
      split; [reflexivity|]; split; [exact Hf|]
  end.
  split; [destruct expand; unfold ret in H; injection H as _ <-; reflexivity|].
  split; [destruct expand; unfold ret in H; injection H as <- _; reflexivity|].
  split; [exact Hsub|]. split; [exact Hhead|].
  apply Forall_forall. intros w Hw.
  assert (Hw' : w ∈ narrow_vnets (b_cidr target_block) (vnet_list ctx)).
  { exact (elem_of_sublist _ _ _ Hw Hsub). }
  destruct (narrow_vnets_elem _ _ _ Hw') as (vnet & _ & _ & Hp & Hne).
  split; [exact Hne|]. rewrite Hp. apply Forall_forall. intros p Hin.
  unfold prefixes_in in Hin. apply list_elem_of_filter in Hin. tauto.
Qed.

(** The directory of [vnet_ctx] offers [vnet1], [vnet2] and [vnet3]
    for the block [wide], and [vnet1] comes first. *)
Lemma available_block_vnets_offer_witness :
  ∃ available,
    @inr (list VNetInfo) (list string) ["vnet1"; "vnet2"; "vnet3"]
    = inr (map vi_id available)
    ∧ head available = head (narrow_vnets (cidr 10 0 0 0 16) (vnet_list vnet_ctx)).
Proof.
  destruct (available_block_vnets_offer vnet_ctx "prod" "wide" false wide_store
              (inr ["vnet1"; "vnet2"; "vnet3"]) wide_store)
    as (i & t & j & tb & available & Hs & Hb & _ & Hr & _ & Hh & _).
  - vm_compute; reflexivity.
  - assert (tb = wide_block) as ->.
    { vm_compute in Hs. injection Hs as _ <-. vm_compute in Hb. injection Hb as _ <-.
      reflexivity. }
    exists available. split; [exact Hr|exact Hh].
Defined.

(** * The admin router *)

Lemma admin_replace_head d new rest :
  admin.cosmos_replace d new (d :: rest) = (Ok tt, new :: rest).
Proof.
  unfold admin.cosmos_replace. cbn [list_find].
  rewrite decide_True by reflexivity. reflexivity.
Qed.

Lemma unique_admins_iff (admin_list : list admin.Admin) :
  bool_decide (length (remove_dups (map admin.a_id admin_list)) = length admin_list) = true
  ↔ NoDup (map admin.a_id admin_list).
Proof.
  rewrite <- (length_map admin.a_id admin_list). split.
  - apply unique_ids_true.
  - apply unique_ids_NoDup.
Qed.

(** X25. The list [update_admins] takes is the list [get_admins]
    gives: called by an administrator with admins of distinct object
    ids, [update_admins] succeeds, whether the tenant has an admin
    document or not, and [get_admins] then returns that list as it was
    given; a list with a repeated object id is refused with a 400 and
    the store is as it was. *)
Theorem update_admins_get_admins ctx ctx' admin_list st :
  admin.is_admin ctx = true → admin.is_admin ctx' = true →
  (NoDup (map admin.a_id admin_list) →
   ∃ st', admin.update_admins ctx admin_list st = (Ok tt, st')
          ∧ admin.get_admins ctx' st' = (Ok admin_list, st'))
  ∧ (¬ NoDup (map admin.a_id admin_list) →
     admin.update_admins ctx admin_list st
     = (Raise (HTTPException 400 "List contains one or more duplicate objectId's."), st)).
Proof.
  intros Hadm Hadm'. unfold admin.update_admins, admin.get_admins.
  rewrite Hadm, Hadm'. cbn [negb]. cbv zeta. split.
  - intros Hnd. rewrite (proj2 (unique_admins_iff admin_list) Hnd). cbn [negb].
    destruct st as [|d rest].
    + eexists. split; reflexivity.
    + rewrite admin_replace_head. eexists. split; reflexivity.
  - intros Hdup.
    destruct (bool_decide _) eqn:E; [|reflexivity].
    exfalso. apply Hdup. apply unique_admins_iff. exact E.
Qed.

(** The administrator makes [ben] and [ann] the admins. *)
Lemma update_admins_get_admins_witness :
  ∃ st', admin.update_admins registry_ctx [ben; ann] registry = (Ok tt, st')
         ∧ admin.get_admins registry_ctx st' = (Ok [ben; ann], st').
Proof.
  apply (update_admins_get_admins registry_ctx registry_ctx [ben; ann] registry
           eq_refl eq_refl).
  cbn. repeat constructor; rewrite ?elem_of_cons, ?elem_of_nil; intros H;
    repeat destruct H as [H|H]; try discriminate H; exact H.
Defined.

(** X26. The three ends of [delete_admin], called by an
    administrator: without an admin document it raises [IndexError],
    from [admin_query[0]], and not the 400 of its first test; with an
    object id that is not that of an admin of the first document it is
    refused with a 400; otherwise it succeeds and [get_admins] then
    returns the admins of another object id, in their order. In the
    first two cases the store is as it was. The object ids of the
    admins are distinct. *)
Theorem delete_admin_outcomes ctx ctx' objectId :
  admin.is_admin ctx = true → admin.is_admin ctx' = true →
  admin.delete_admin ctx objectId [] = (Raise IndexError, [])
  ∧ ∀ admin_data rest,
      (objectId ∉ map admin.a_id (admin.d_admins admin_data) →
       admin.delete_admin ctx objectId (admin_data :: rest)
       = (Raise (HTTPException 400 "Invalid admin objectId."), admin_data :: rest))
      ∧ (objectId ∈ map admin.a_id (admin.d_admins admin_data) →
         NoDup (map admin.a_id (admin.d_admins admin_data)) →
         ∃ st', admin.delete_admin ctx objectId (admin_data :: rest) = (Ok tt, st')
                ∧ admin.get_admins ctx' st'
                  = (Ok (filter (fun a => admin.a_id a ≠ objectId)
                                (admin.d_admins admin_data)), st')).
Proof.
  intros Hadm Hadm'. unfold admin.delete_admin, admin.get_admins.
  rewrite Hadm, Hadm'. cbn [negb]. split; [reflexivity|].
  intros admin_data rest. split.
  - intros Hnot.
    destruct (list_find _ (admin.d_admins admin_data)) as [[i a]|] eqn:Hf; [|reflexivity].
    exfalso. apply list_find_Some in Hf. destruct Hf as (Hi & Ha & _).
    apply Hnot. rewrite <- Ha. apply list_elem_of_fmap. exists a.
    split; [reflexivity|]. apply list_elem_of_lookup. eauto.
  - intros Hin Hnd. apply list_elem_of_fmap in Hin. destruct Hin as (a & Ha & Hain).
    destruct (list_find_elem_of (fun x => admin.a_id x = objectId)
                (admin.d_admins admin_data) a Hain (eq_sym Ha)) as [[i b] Hf].
    rewrite Hf, admin_replace_head. eexists. split; [reflexivity|].
    cbn [admin.set_d_admins admin.d_admins].
    rewrite (delete_found_filter admin.a_id objectId _ i b Hnd Hf). reflexivity.
Qed.

(** The administrator removes [ann] from the registry. *)
Lemma delete_admin_outcomes_witness :
  ∃ st', admin.delete_admin registry_ctx "oid-ann" registry = (Ok tt, st')
         ∧ admin.get_admins registry_ctx st'
           = (Ok (filter (fun a => admin.a_id a ≠ "oid-ann") [ann; ben]), st').
Proof.
  destruct (delete_admin_outcomes registry_ctx registry_ctx "oid-ann" eq_refl eq_refl)
    as [_ H].
  apply (proj2 (H (admin.mkAdminDoc "reg1" "t1" [ann; ben] ["sub1"]) [])).
  - cbn. left.
  - cbn. repeat constructor; rewrite ?elem_of_cons, ?elem_of_nil; intros H';
      repeat destruct H' as [H'|H']; try discriminate H'; exact H'.
Defined.

(** X27. The exclusions [update_exclusions] takes are the exclusions
    [get_exclusions] gives, each once: called by an administrator with
    subscriptions that [arg_query] all lists, [update_exclusions]
    succeeds, whether the tenant has an admin document or not, and
    [get_exclusions] then returns a list without duplicates whose
    members are those of the request; a request that names a
    subscription [arg_query] does not list is refused with a 400 and
    the store is as it was. The order of [list(set(l))] is any order
    of the members of [l]. *)
Theorem update_exclusions_get_exclusions ctx ctx' exclusions st :
  admin.set_order_ok ctx →
  admin.is_admin ctx = true → admin.is_admin ctx' = true →
  ((∀ x, x ∈ exclusions → x ∈ admin.subscription_list ctx) →
   ∃ st' l, admin.update_exclusions ctx exclusions st = (Ok tt, st')
            ∧ admin.get_exclusions ctx' st' = (Ok l, st')
            ∧ NoDup l ∧ ∀ x, x ∈ l ↔ x ∈ exclusions)
  ∧ ((∃ x, x ∈ exclusions ∧ x ∉ admin.subscription_list ctx) →
     admin.update_exclusions ctx exclusions st
     = (Raise (HTTPException 400 "One or more invalid subscriptions id's provided."), st)).
Proof.
  intros Hord Hadm Hadm'. unfold admin.update_exclusions, admin.get_exclusions.
  rewrite Hadm, Hadm'. cbn [negb]. cbv zeta.
  assert (Hl : NoDup (admin.list_of_set ctx exclusions)
               ∧ ∀ x, x ∈ admin.list_of_set ctx exclusions ↔ x ∈ exclusions).
  { split.
    - rewrite (Hord exclusions). apply NoDup_remove_dups.
    - intros x. rewrite (Hord exclusions). apply elem_of_remove_dups. }
  split.
  - intros Hall. rewrite filter_none by (intros x Hx Hn; exact (Hn (Hall x Hx))).
    destruct st as [|d rest].
    + exists [admin.mkAdminDoc (admin.fresh_id ctx) (admin.tenant_id ctx) []
                (admin.list_of_set ctx exclusions)], (admin.list_of_set ctx exclusions).
      split; [reflexivity|]. split; [reflexivity|exact Hl].
    + rewrite admin_replace_head.
      exists (admin.set_d_exclusions (fun _ => admin.list_of_set ctx exclusions) d :: rest),
        (admin.list_of_set ctx exclusions).
      split; [reflexivity|]. split; [reflexivity|exact Hl].
  - intros (x & Hx & Hn).
    destruct (filter (fun x => x ∉ admin.subscription_list ctx) exclusions) as [|y l] eqn:E;
      [|reflexivity].
    exfalso. assert (Hin : x ∈ filter (fun x => x ∉ admin.subscription_list ctx) exclusions)
      by (apply list_elem_of_filter; split; assumption).
    rewrite E in Hin. inversion Hin.
Qed.

(** The administrator excludes [sub2], named twice. *)
Lemma update_exclusions_get_exclusions_witness :
  ∃ st' l, admin.update_exclusions registry_ctx ["sub2"; "sub2"] registry = (Ok tt, st')
           ∧ admin.get_exclusions registry_ctx st' = (Ok l, st')
           ∧ NoDup l ∧ ∀ x, x ∈ l ↔ x ∈ ["sub2"; "sub2"].
Proof.
  apply (update_exclusions_get_exclusions registry_ctx registry_ctx ["sub2"; "sub2"]
           registry).
  - intros l. reflexivity.
  - reflexivity.
  - reflexivity.
  - intros x Hx. cbn. rewrite !elem_of_cons, elem_of_nil in Hx.
    destruct Hx as [->|[->|[]]]; right; left.
Defined.

(** X28. The ends of [remove_exclusion], called by an administrator:
    without an admin document, and with a subscription that the first
    document does not exclude, it is refused with a 400 and the store
    is as it was; otherwise it succeeds and [get_exclusions] then
    returns the other exclusions, in their order. No subscription is
    excluded twice. *)
Theorem remove_exclusion_outcomes ctx ctx' subscriptionId :
  admin.is_admin ctx = true → admin.is_admin ctx' = true →
  admin.remove_exclusion ctx subscriptionId []
  = (Raise (HTTPException 400 "Subscription id not found."), [])
  ∧ ∀ admin_data rest,
      (subscriptionId ∉ admin.d_exclusions admin_data →
       admin.remove_exclusion ctx subscriptionId (admin_data :: rest)
       = (Raise (HTTPException 400 "Invalid subscription id."), admin_data :: rest))
      ∧ (subscriptionId ∈ admin.d_exclusions admin_data →
         NoDup (admin.d_exclusions admin_data) →
         ∃ st', admin.remove_exclusion ctx subscriptionId (admin_data :: rest) = (Ok tt, st')
                ∧ admin.get_exclusions ctx' st'
                  = (Ok (filter (fun x => x ≠ subscriptionId)
                                (admin.d_exclusions admin_data)), st')).
Proof.
  intros Hadm Hadm'. unfold admin.remove_exclusion, admin.get_exclusions.
  rewrite Hadm, Hadm'. cbn [negb]. split; [reflexivity|].
  intros admin_data rest. split.
  - intros Hnot.
    destruct (list_find _ (admin.d_exclusions admin_data)) as [[i a]|] eqn:Hf;
      [|reflexivity].
    exfalso. apply list_find_Some in Hf. destruct Hf as (Hi & Ha & _).
    apply Hnot. rewrite <- Ha. apply list_elem_of_lookup. eauto.
  - intros Hin Hnd.
    destruct (list_find_elem_of (fun x => x = subscriptionId)
                (admin.d_exclusions admin_data) subscriptionId Hin eq_refl) as [[i b] Hf].
    rewrite Hf, admin_replace_head. eexists. split; [reflexivity|].
    cbn [admin.set_d_exclusions admin.d_exclusions].
    assert (Hnd' : NoDup (map (fun x : string => x) (admin.d_exclusions admin_data)))
      by (rewrite map_id; exact Hnd).
    rewrite (delete_found_filter (fun x : string => x) subscriptionId _ i b Hnd' Hf).
    reflexivity.
Qed.

(** The administrator lifts the exclusion of [sub1]. *)
Lemma remove_exclusion_outcomes_witness :
  ∃ st', admin.remove_exclusion registry_ctx "sub1" registry = (Ok tt, st')
         ∧ admin.get_exclusions registry_ctx st'
           = (Ok (filter (fun x => x ≠ "sub1") ["sub1"]), st').
Proof.
  destruct (remove_exclusion_outcomes registry_ctx registry_ctx "sub1" eq_refl eq_refl)
    as [_ H].
  apply (proj2 (H (admin.mkAdminDoc "reg1" "t1" [ann; ben] ["sub1"]) [])).
  - left.
  - repeat constructor. intros H'. inversion H'.
Defined.

(** ** The registry stays well-formed *)

Lemma admin_replace_inv old new st u st' :
  admin.cosmos_replace old new st = (Ok u, st') → ∃ i, st' = <[i := new]> st.
Proof.
  unfold admin.cosmos_replace. destruct (list_find _ st) as [[i d]|]; [|discriminate].
  intros [= <-]. eauto.
Qed.

Lemma admin_upsert_inv new st u st' :
  admin.cosmos_upsert new st = (Ok u, st') →
  (∃ i, st' = <[i := new]> st) ∨ st' = st ++ [new].
Proof.
  unfold admin.cosmos_upsert. destruct (list_find _ st) as [[i d]|]; intros [= <-]; eauto.
Qed.

(** X29. Each of [update_admins], [delete_admin], [update_exclusions]
    and [remove_exclusion] keeps the registry well-formed: if in every
    admin document the object ids of the admins are distinct and no
    subscription is excluded twice, the same holds of the store a
    successful run of any of the four leaves. The two other handlers
    of the admin router that write, [create_admin] and
    [add_exclusions], are not covered. The order of [list(set(l))] is
    any order of the members of [l]. *)
Theorem registry_stays_wf ctx st st' :
  admin.set_order_ok ctx → registry_wf st →
  (∀ admin_list, admin.update_admins ctx admin_list st = (Ok tt, st') → registry_wf st')
  ∧ (∀ objectId, admin.delete_admin ctx objectId st = (Ok tt, st') → registry_wf st')
  ∧ (∀ exclusions,
       admin.update_exclusions ctx exclusions st = (Ok tt, st') → registry_wf st')
  ∧ (∀ subscriptionId,
       admin.remove_exclusion ctx subscriptionId st = (Ok tt, st') → registry_wf st').
Proof.
  intros Hord Hwf. unfold registry_wf in *. split; [|split; [|split]].
  - intros admin_list Hrun. unfold admin.update_admins in Hrun.
    destruct (negb (admin.is_admin ctx)); [discriminate Hrun|]. cbv zeta in Hrun.
    destruct (bool_decide _) eqn:E; [|discriminate Hrun]. cbn [negb] in Hrun.
    apply unique_admins_iff in E. destruct st as [|d rest].
    + unfold admin.new_admin_db in Hrun. apply admin_upsert_inv in Hrun.
      destruct Hrun as [[i ->]| ->]; repeat constructor; assumption.
    + pose proof Hwf as Hall. apply Forall_cons in Hwf. destruct Hwf as [[_ Hd] Hrest].
      apply admin_replace_inv in Hrun. destruct Hrun as [i ->].
      apply Forall_insert; [exact Hall|].
      split; [exact E|exact Hd].
  - intros objectId Hrun. unfold admin.delete_admin in Hrun.
    destruct (negb (admin.is_admin ctx)); [discriminate Hrun|].
    destruct st as [|d rest]; [discriminate Hrun|].
    destruct (list_find _ (admin.d_admins d)) as [[i a]|]; [|discriminate Hrun].
    pose proof Hwf as Hall. apply Forall_cons in Hwf. destruct Hwf as [[Ha Hd] Hrest].
    apply admin_replace_inv in Hrun. destruct Hrun as [j ->].
    apply Forall_insert; [exact Hall|].
    split; [|exact Hd]. cbn [admin.set_d_admins admin.d_admins].
    apply NoDup_map_delete. exact Ha.
  - intros exclusions Hrun. unfold admin.update_exclusions in Hrun.
    destruct (negb (admin.is_admin ctx)); [discriminate Hrun|]. cbv zeta in Hrun.
    destruct (filter _ exclusions); [|discriminate Hrun].
    assert (Hl : NoDup (admin.list_of_set ctx exclusions)).
    { rewrite (Hord exclusions). apply NoDup_remove_dups. }
    destruct st as [|d rest].
    + unfold admin.new_admin_db in Hrun. apply admin_upsert_inv in Hrun.
      destruct Hrun as [[i ->]| ->]; repeat constructor; assumption.
    + pose proof Hwf as Hall. apply Forall_cons in Hwf. destruct Hwf as [[Ha _] Hrest].
      apply admin_replace_inv in Hrun. destruct Hrun as [i ->].
      apply Forall_insert; [exact Hall|]. split; [exact Ha|exact Hl].
  - intros subscriptionId Hrun. unfold admin.remove_exclusion in Hrun.
    destruct (negb (admin.is_admin ctx)); [discriminate Hrun|].
    destruct st as [|d rest]; [discriminate Hrun|].
    destruct (list_find _ (admin.d_exclusions d)) as [[i a]|]; [|discriminate Hrun].
    pose proof Hwf as Hall. apply Forall_cons in Hwf. destruct Hwf as [[Ha Hd] Hrest].
    apply admin_replace_inv in Hrun. destruct Hrun as [j ->].
    apply Forall_insert; [exact Hall|].
    split; [exact Ha|]. cbn [admin.set_d_exclusions admin.d_exclusions].
    apply NoDup_delete. exact Hd.
Qed.

(** The registry without [ann] is well-formed. *)
Lemma registry_stays_wf_witness :
  registry_wf [admin.mkAdminDoc "reg1" "t1" [ben] ["sub1"]].
Proof.
  refine (proj1 (proj2 (registry_stays_wf registry_ctx registry
                          [admin.mkAdminDoc "reg1" "t1" [ben] ["sub1"]] _ _))
            "oid-ann" _).
  - intros l. reflexivity.
  - repeat constructor; cbn; rewrite ?elem_of_cons, ?elem_of_nil; intros H;
      repeat destruct H as [H|H]; try discriminate H; exact H.
  - vm_compute; reflexivity.
Defined.

(** ** A network is attached to a block once *)

Lemma del_each_NoDup {A} (key : A → string) req : ∀ l l',
  NoDup (map key l) → del_each key req l = Ok l' → NoDup (map key l').
Proof.
  induction req as [|id req IH]; intros l l' Hnd H; cbn [del_each] in H.
  - injection H as <-. exact Hnd.
  - destruct (list_find (fun item => key item = id) l) as [[i x]|];
      cbn [del_index] in H; cbv beta iota delta [rbind Ok] in H; [|discriminate H].
    fold (@Ok (list A)) in H. exact (IH _ _ (NoDup_map_delete key l i Hnd) H).
Qed.

(** The block a handler updates in place keeps the property of its
    networks, when the update does. *)
Lemma alter_block_keeps (P : Block → Prop) (f : Block → Block) blocks block i target_block :
  find_block blocks block = Some (i, target_block) →
  (P target_block → P (f target_block)) →
  Forall P blocks → Forall P (alter f i blocks).
Proof.
  intros Hfind Hf Hall. unfold find_block in Hfind. apply list_find_Some in Hfind.
  destruct Hfind as (Hi & _). apply Forall_alter; [exact Hall|].
  intros x Hx. rewrite Hi in Hx. injection Hx as <-. exact Hf.
Qed.

(** What each handler that writes a space back does to the networks
    of its blocks. *)
Lemma handler_keeps_vnet_ids ctx r st x st' :
  (match r with
   | CreateSpace _ | DeleteSpace _ _ => False
   | _ => True
   end) →
  handle ctx r st = (Ok x, st') →
  ∃ target new,
    replaces st st' target new
    ∧ (Forall (fun b => NoDup (map v_id (b_vnets b))) (s_blocks target) →
       Forall (fun b => NoDup (map v_id (b_vnets b))) (s_blocks new)).
Proof.
  intros Hr Hrun. destruct x.
  destruct r; try contradiction; cbn [handle] in Hrun; apply forget_Ok in Hrun;
    destruct Hrun as [y H].
  - (* update_space *)
    apply update_space_Ok in H. destruct H as (target & new & Hrep & Hb).
    exists target, new. split; [exact Hrep|]. rewrite Hb. tauto.
  - (* create_block *)
    apply create_block_Ok in H. destruct H as (target & _ & _ & -> & Hrep).
    eexists _, _. split; [exact Hrep|]. cbn [set_s_blocks s_blocks]. intros Hall.
    apply Forall_app. split; [exact Hall|]. repeat constructor.
  - (* create_multi_block_reservation *)
    unfold create_multi_block_reservation in H. peel H.
    repeat case_run H. peel H. unfold ret in H. injection H as _ <-.
    eexists _, _. split; [refine (replaces_intro _ _ _ _ _ _ Hhead _ Hstep); reflexivity|].
    cbn [set_s_blocks s_blocks]. intros Hall. apply Forall_alter; [exact Hall|].
    intros blk _ Hblk. exact Hblk.
  - (* delete_block *)
    apply delete_block_Ok in H. destruct H as (target & j & Hrep).
    eexists _, _. split; [exact Hrep|]. cbn [set_s_blocks s_blocks].
    apply Forall_delete.
  - (* create_block_vnet *)
    unfold create_block_vnet in H. peel H.
    repeat case_run H. peel H. unfold ret in H. injection H as _ <-.
    eexists _, _. split; [refine (replaces_intro _ _ _ _ _ _ Hhead _ Hstep); reflexivity|].
    cbn [set_s_blocks s_blocks]. apply (alter_block_keeps _ _ _ _ _ _ Hfind).
    cbn [set_b_vnets b_vnets]. intros Hnd. rewrite map_app. cbn [map v_id].
    apply NoDup_app. split; [exact Hnd|]. split; [|repeat constructor; inversion 1].
    intros id Hin Hid. apply list_elem_of_singleton in Hid. subst id.
    apply bool_decide_eq_false in Hcheck. exact (Hcheck Hin).
  - (* update_block_vnets *)
    unfold update_block_vnets in H. peel H. unfold ret in H. injection H as _ <-.
    eexists _, _. split; [refine (replaces_intro _ _ _ _ _ _ Hhead _ Hstep); reflexivity|].
    cbn [set_s_blocks s_blocks]. apply (alter_block_keeps _ _ _ _ _ _ Hfind).
    cbn [set_b_vnets b_vnets]. intros _. rewrite map_map. cbn [v_id]. rewrite map_id.
    apply unique_ids_true. apply negb_false_iff. exact Hcheck.
  - (* delete_block_vnets *)
    unfold delete_block_vnets in H. peel H.
    eexists _, _. split; [refine (replaces_intro _ _ _ _ _ _ Hhead _ H); reflexivity|].
    cbn [set_s_blocks s_blocks]. apply (alter_block_keeps _ _ _ _ _ _ Hfind).
    cbn [set_b_vnets b_vnets]. intros Hnd. exact (del_each_NoDup v_id _ _ _ Hnd Hpure).
  - (* create_block_reservation *)
    unfold create_block_reservation in H. peel H. unfold ret in H. injection H as _ <-.
    eexists _, _. split; [refine (replaces_intro _ _ _ _ _ _ Hhead _ Hstep); reflexivity|].
    cbn [set_s_blocks s_blocks]. intros Hall. apply Forall_alter; [exact Hall|].
    intros blk _ Hblk. exact Hblk.
  - (* delete_block_reservations *)
    unfold delete_block_reservations in H. peel H.
    eexists _, _. split; [refine (replaces_intro _ _ _ _ _ _ Hhead _ H); reflexivity|].
    cbn [set_s_blocks s_blocks]. intros Hall. apply Forall_alter; [exact Hall|].
    intros blk _ Hblk. exact Hblk.
Qed.

(** X30. A network is attached to a block at most once, and stays
    so: if within every block of the store the networks attached have
    distinct ids, the same holds of the store any successful mutating
    request leaves. [create_block_vnet] refuses an id the block has,
    [update_block_vnets] a list that names an id twice, and the other
    handlers add no network. *)
Theorem vnet_ids_stay_unique ctx r st st' :
  vnet_ids_unique st → handle ctx r st = (Ok tt, st') → vnet_ids_unique st'.
Proof.
  intros Hinv Hrun. unfold vnet_ids_unique in *.
  destruct r;
    try (match type of Hrun with
         | handle _ ?r _ = _ =>
             destruct (handler_keeps_vnet_ids ctx r st tt st' I Hrun)
               as (target & new & Hrep & Hkeep)
         end;
         apply (replaces_Forall _ _ _ _ _ Hrep Hinv); apply Hkeep;
         exact (replaces_target _ _ _ _ _ Hrep Hinv)).
  - (* create_space *)
    cbn [handle] in Hrun. apply forget_Ok in Hrun. destruct Hrun as [x Hrun].
    apply create_space_Ok in Hrun. destruct Hrun as (-> & _ & Hup).
    unfold cosmos_upsert in Hup. destruct (list_find _ st) as [[j d]|]; injection Hup as <-.
    + apply Forall_insert; [exact Hinv|constructor].
    + apply Forall_app. split; [exact Hinv|]. repeat constructor.
  - (* delete_space *)
    cbn [handle] in Hrun. apply forget_Ok in Hrun. destruct Hrun as [x Hrun].
    apply delete_space_Ok in Hrun. destruct Hrun as [j ->].
    apply Forall_delete. exact Hinv.
Qed.

(** The block [wide] with [vnet1] attached takes [vnet3]. *)
Lemma vnet_ids_stay_unique_witness :
  vnet_ids_unique
    [mkSpace "id1" "t1" "prod" "production"
       [mkBlock "wide" (cidr 10 0 0 0 16) [mkVNet "vnet1" true; mkVNet "vnet3" true] []]].
Proof.
  apply (vnet_ids_stay_unique vnet_ctx (CreateBlockVNet "prod" "wide" (mkVNet "vnet3" true))
           wide_store).
  - repeat constructor. cbn. intros H. inversion H.
  - vm_compute; reflexivity.
Defined.
